(** * Life Clock: segmented timer scheduler and dream-analysis gateway

    A shallow embedding of [background.js] (the scheduler that owns the
    segmented work/break timer), of the timer start handler of [popup.js],
    of the [/api/analyzeDream] route of the Express server and of the local
    keyword analysis of [popup.js], with the properties stated for them.

    Minutes and seconds are JavaScript numbers holding integers (they come
    from [parseInt]); they are modelled as [Z].  [Math.floor(a / b)] is
    [Z.div] and [a % b] is [Z.rem] (the sign follows the dividend). *)

From Stdlib Require Import ZArith Lia QArith DecimalString Ascii String.
From stdpp Require Import base tactics option list gmap strings.

Local Open Scope string_scope.
Local Open Scope Z_scope.

Set Warnings "-register-all".

(** Template literals print a number in decimal: [`${n}`]. *)
Definition showZ (n : Z) : string := NilZero.string_of_int (Z.to_int n).

(* ===================================================================== *)
(** ** background.js: the scheduler *)
(* ===================================================================== *)

Module Scheduler.

(** The object literal built by [startSegmentedTimer]. *)
Record TimerState := mkTimerState {
  total : Z;
  segment : Z;
  grace : Z;
  fullBlock : Z;
  blocks : Z;
  remainingTime : Z;
  currentBlock : Z;
  currentTime : Z;
  isWorkTime : bool;
  startTime : Z
}.

Definition set_currentTime (v : Z) (t : TimerState) : TimerState :=
  mkTimerState (total t) (segment t) (grace t) (fullBlock t) (blocks t)
    (remainingTime t) (currentBlock t) v (isWorkTime t) (startTime t).

Definition set_currentBlock (v : Z) (t : TimerState) : TimerState :=
  mkTimerState (total t) (segment t) (grace t) (fullBlock t) (blocks t)
    (remainingTime t) v (currentTime t) (isWorkTime t) (startTime t).

Definition set_isWorkTime (v : bool) (t : TimerState) : TimerState :=
  mkTimerState (total t) (segment t) (grace t) (fullBlock t) (blocks t)
    (remainingTime t) (currentBlock t) (currentTime t) v (startTime t).

(** [chrome.notifications.create('', {title, message, ...})]. *)
Record Notification := mkNotification {
  title : string;
  message : string
}.

(** Values kept under the keys of [chrome.storage.local]. The store
    serialises what it is given, so a stored timer is a copy. *)
Inductive StoredValue :=
| StoredTimer (t : option TimerState)
| StoredFlag (b : bool).

(** The three globals of the script, together with the parts of the
    browser it acts on: the table of live [setInterval] handles, the
    extension's local storage and the notifications shown so far (newest
    first). *)
Record World := mkWorld {
  globalTimerState : option TimerState;
  globalIsPaused : bool;
  globalTimerInterval : option nat;
  liveIntervals : list nat;
  nextIntervalId : nat;
  storage : gmap string StoredValue;
  notifications : list Notification
}.

Definition initialWorld : World :=
  mkWorld None false None [] 1%nat ∅ [].

Definition set_globalTimerState (v : option TimerState) (w : World) : World :=
  mkWorld v (globalIsPaused w) (globalTimerInterval w) (liveIntervals w)
    (nextIntervalId w) (storage w) (notifications w).

Definition set_globalIsPaused (v : bool) (w : World) : World :=
  mkWorld (globalTimerState w) v (globalTimerInterval w) (liveIntervals w)
    (nextIntervalId w) (storage w) (notifications w).

Definition set_storage (v : gmap string StoredValue) (w : World) : World :=
  mkWorld (globalTimerState w) (globalIsPaused w) (globalTimerInterval w)
    (liveIntervals w) (nextIntervalId w) v (notifications w).

(** [clearInterval(h)] removes the handle from the browser's table. *)
Definition clearInterval (h : nat) (w : World) : World :=
  mkWorld (globalTimerState w) (globalIsPaused w) (globalTimerInterval w)
    (filter (λ h', h' ≠ h) (liveIntervals w))
    (nextIntervalId w) (storage w) (notifications w).

(** [globalTimerInterval = setInterval(callback, 1000)]: a fresh handle is
    registered and kept in the global. *)
Definition setInterval (w : World) : World :=
  mkWorld (globalTimerState w) (globalIsPaused w) (Some (nextIntervalId w))
    (liveIntervals w ++ [nextIntervalId w])
    (S (nextIntervalId w)) (storage w) (notifications w).

Definition notify (ttl msg : string) (w : World) : World :=
  mkWorld (globalTimerState w) (globalIsPaused w) (globalTimerInterval w)
    (liveIntervals w) (nextIntervalId w) (storage w)
    (mkNotification ttl msg :: notifications w).

(** [chrome.storage.local.set({ currentTimer: globalTimerState, isPaused: p })]. *)
Definition storageSet (p : bool) (w : World) : World :=
  set_storage
    (<["isPaused" := StoredFlag p]>
       (<["currentTimer" := StoredTimer (globalTimerState w)]> (storage w))) w.

(** [chrome.storage.local.remove(['currentTimer', 'isPaused'])]. *)
Definition storageRemove (w : World) : World :=
  set_storage (delete "isPaused" (delete "currentTimer" (storage w))) w.

Definition stopBackgroundTimer (w : World) : World :=
  let w :=
    match globalTimerInterval w with
    | Some h =>
        let w := clearInterval h w in
        mkWorld (globalTimerState w) (globalIsPaused w) None (liveIntervals w)
          (nextIntervalId w) (storage w) (notifications w)
    | None => w
    end in
  let w := set_globalTimerState None w in
  let w := set_globalIsPaused false w in
  storageRemove w.

Definition pauseBackgroundTimer (w : World) : World :=
  let w := set_globalIsPaused true w in
  storageSet true w.

Definition resumeBackgroundTimer (w : World) : World :=
  let w := set_globalIsPaused false w in
  storageSet false w.

(** The tail of the interval callback: "Save state every 10 seconds". *)
Definition saveEveryTen (w : World) : World :=
  match globalTimerState w with
  | Some ts =>
      if Z.rem (currentTime ts) 10 =? 0 then storageSet (globalIsPaused w) w
      else w
  | None => w
  end.

(** The callback registered by [startBackgroundCountdown]; the browser runs
    it once per second for as long as its handle is live. The timer object
    is mutated in place, which is written here as storing the updated
    record back in [globalTimerState]. *)
Definition tick (w : World) : World :=
  match globalTimerState w with
  | None => w
  | Some ts0 =>
    if globalIsPaused w then w else
    let ts := set_currentTime (currentTime ts0 - 1) ts0 in
    if currentTime ts <=? 0 then
      if isWorkTime ts then
        if (currentBlock ts <? blocks ts - 1)
           || ((currentBlock ts =? blocks ts - 1) && (0 <? remainingTime ts))
        then
          let ts := set_isWorkTime false ts in
          let ts := set_currentTime (grace ts * 60) ts in
          let w := set_globalTimerState (Some ts) w in
          let w := notify "Break Time 🕒"
                     ("Take " +:+ showZ (grace ts) +:+ " minutes to reset.") w in
          saveEveryTen w
        else
          let w := set_globalTimerState (Some ts) w in
          let w := notify "Session Complete 🏁" "All segments done! Great work!" w in
          stopBackgroundTimer w
      else
        let ts := set_currentBlock (currentBlock ts + 1) ts in
        let ts := set_isWorkTime true ts in
        if blocks ts <=? currentBlock ts then
          if 0 <? remainingTime ts then
            let ts := set_currentTime (remainingTime ts * 60) ts in
            let w := set_globalTimerState (Some ts) w in
            let w := notify "Final Segment"
                       ("Go for " +:+ showZ (remainingTime ts) +:+ " minutes!") w in
            saveEveryTen w
          else
            let w := set_globalTimerState (Some ts) w in
            let w := notify "Session Complete 🏁" "All segments done! Great work!" w in
            stopBackgroundTimer w
        else
          let ts := set_currentTime (segment ts * 60) ts in
          let w := set_globalTimerState (Some ts) w in
          let w := notify
                     ("Segment " +:+ showZ (currentBlock ts + 1) +:+ " of "
                        +:+ showZ (blocks ts))
                     ("Go for " +:+ showZ (segment ts) +:+ " minutes!") w in
          saveEveryTen w
    else
      saveEveryTen (set_globalTimerState (Some ts) w)
  end.

Definition startBackgroundCountdown (w : World) : World := setInterval w.

(** [startSegmentedTimer(total, segment, grace)]; [now] is what
    [Date.now()] returns during the call. *)
Definition startSegmentedTimer (now total segment grace : Z) (w : World) : World :=
  let w :=
    match globalTimerInterval w with
    | Some h => clearInterval h w
    | None => w
    end in
  let ts := {|
    total := total;
    segment := segment;
    grace := grace;
    fullBlock := segment + grace;
    blocks := total / (segment + grace);
    remainingTime := Z.rem total (segment + grace);
    currentBlock := 0;
    currentTime := segment * 60;
    isWorkTime := true;
    startTime := now
  |} in
  let w := set_globalTimerState (Some ts) w in
  let w := set_globalIsPaused false w in
  let w := storageSet false w in
  let w := notify "Session Started"
             ("Total " +:+ showZ total +:+ " mins | " +:+ showZ segment
                +:+ "-min sets + " +:+ showZ grace +:+ "-min breaks | "
                +:+ showZ (blocks ts) +:+ " segments") w in
  startBackgroundCountdown w.

(** Messages of the control channel and what [sendResponse] is given. *)
Inductive Message :=
| START_TIMER (total segment grace : Z)
| PAUSE_TIMER
| RESUME_TIMER
| STOP_TIMER
| GET_TIMER_STATE
| OTHER (type : string).

Inductive Response :=
| Ack (success : bool)
| Snapshot (currentTimer : option TimerState) (isPaused : bool).

(** The [chrome.runtime.onMessage] listener. Nothing in
    [startSegmentedTimer] throws in this model, so the [catch] branch of
    START_TIMER is never taken. A message of another type gets no reply. *)
Definition onMessage (now : Z) (msg : Message) (w : World) : option Response * World :=
  match msg with
  | START_TIMER total segment grace =>
      (Some (Ack true), startSegmentedTimer now total segment grace w)
  | PAUSE_TIMER => (Some (Ack true), pauseBackgroundTimer w)
  | RESUME_TIMER => (Some (Ack true), resumeBackgroundTimer w)
  | STOP_TIMER => (Some (Ack true), stopBackgroundTimer w)
  | GET_TIMER_STATE =>
      (Some (Snapshot (globalTimerState w) (globalIsPaused w)), w)
  | OTHER _ => (None, w)
  end.

(** What an observer gets from GET_TIMER_STATE. *)
Definition queryState (w : World) : option TimerState * bool :=
  (globalTimerState w, globalIsPaused w).

(** One second of wall-clock time: the browser runs the callback of every
    handle that is still live when its turn comes. *)
Definition elapseSecond (w : World) : World :=
  foldl (λ w h, if bool_decide (h ∈ liveIntervals w) then tick w else w)
        w (liveIntervals w).

(** *** Notions used to state the scheduler's properties *)

(** What the start handler of the popup lets through (see [Popup]). *)
Definition validConfig (total segment grace : Z) : Prop :=
  0 < total ∧ 0 < segment ∧ segment < total ∧ 0 ≤ grace.

Definition validMessage (msg : Message) : Prop :=
  match msg with
  | START_TIMER total segment grace => validConfig total segment grace
  | _ => True
  end.

(** The worlds the scheduler can be in: from the freshly loaded script, by
    control messages (a start carrying a valid configuration) and by the
    passing of seconds. *)
Inductive reachable : World → Prop :=
| reachable_init : reachable initialWorld
| reachable_message now msg w :
    reachable w → validMessage msg → reachable (snd (onMessage now msg w))
| reachable_second w :
    reachable w → reachable (elapseSecond w).

(** The timer object after one run of the callback on a running, unpaused
    session ([None]: the session completed). [tick_running] relates it to
    [tick]. *)
Definition timerAfterTick (ts0 : TimerState) : option TimerState :=
  let ts := set_currentTime (currentTime ts0 - 1) ts0 in
  if currentTime ts <=? 0 then
    if isWorkTime ts then
      if (currentBlock ts <? blocks ts - 1)
         || ((currentBlock ts =? blocks ts - 1) && (0 <? remainingTime ts))
      then Some (set_currentTime (grace ts * 60) (set_isWorkTime false ts))
      else None
    else
      let ts := set_isWorkTime true (set_currentBlock (currentBlock ts + 1) ts) in
      if blocks ts <=? currentBlock ts then
        if 0 <? remainingTime ts
        then Some (set_currentTime (remainingTime ts * 60) ts)
        else None
      else Some (set_currentTime (segment ts * 60) ts)
  else Some ts.

(** Ticks a break takes: its [grace * 60] seconds, and one tick when it
    has none (the callback needs a run to notice that the break is over). *)
Definition breakTicks (ts : TimerState) : Z := Z.max 1 (grace ts * 60).

(** Ticks from the start of the work phase of regular block [j] to the end
    of the session. *)
Definition ticksFromBlock (ts : TimerState) (j : Z) : Z :=
  (blocks ts - 1 - j) * (segment ts * 60 + breakTicks ts) + segment ts * 60
  + (if 0 <? remainingTime ts
     then breakTicks ts + remainingTime ts * 60 else 0).

(** Ticks left in the session, the current phase included. *)
Definition ticksToGo (ts : TimerState) : Z :=
  if isWorkTime ts then
    if currentBlock ts <? blocks ts
    then currentTime ts - segment ts * 60 + ticksFromBlock ts (currentBlock ts)
    else currentTime ts
  else
    Z.max 1 (currentTime ts)
    + (if currentBlock ts + 1 <? blocks ts
       then ticksFromBlock ts (currentBlock ts + 1)
       else remainingTime ts * 60).

(** Ticks a whole session takes, from its configuration. *)
Definition sessionTicks (total segment grace : Z) : Z :=
  let blocks := total / (segment + grace) in
  let remainingTime := Z.rem total (segment + grace) in
  let break := Z.max 1 (grace * 60) in
  if 0 <? blocks
  then (blocks - 1) * (segment * 60 + break) + segment * 60
       + (if 0 <? remainingTime then break + remainingTime * 60 else 0)
  else segment * 60.

(** A break is only ever entered when work follows it. *)
Definition breakHasSuccessor (ts : TimerState) : Prop :=
  isWorkTime ts = false →
  currentBlock ts < blocks ts - 1
  ∨ (currentBlock ts = blocks ts - 1 ∧ 0 < remainingTime ts).

(** What holds of the live timer object between two runs of the callback. *)
Record timerInv (ts : TimerState) : Prop := mkTimerInv {
  inv_segment : 0 < segment ts;
  inv_grace : 0 ≤ grace ts;
  inv_blocks : 0 ≤ blocks ts;
  inv_block_lo : 0 ≤ currentBlock ts;
  inv_block_hi : currentBlock ts ≤ blocks ts;
  inv_time : 0 ≤ currentTime ts;
  inv_break : breakHasSuccessor ts
}.

(** The script's single interval: the browser's table holds exactly the
    handle kept in [globalTimerInterval], and a session is live only while
    that handle is. *)
Record worldInv (w : World) : Prop := mkWorldInv {
  inv_table : liveIntervals w = option_list (globalTimerInterval w);
  inv_handle : globalTimerInterval w = None → globalTimerState w = None;
  inv_timer : ∀ ts, globalTimerState w = Some ts → timerInv ts
}.

(** What the countdown argument needs of a running timer object: a work
    phase has at least a second left, a break none or more. *)
Record runInv (ts : TimerState) : Prop := mkRunInv {
  run_segment : 0 < segment ts;
  run_grace : 0 ≤ grace ts;
  run_time : 0 ≤ currentTime ts;
  run_work : isWorkTime ts = true → 1 ≤ currentTime ts;
  run_break : breakHasSuccessor ts
}.

Definition sessionComplete : Notification :=
  mkNotification "Session Complete 🏁" "All segments done! Great work!".

End Scheduler.

(* ===================================================================== *)
(** ** popup.js: the click handler of the start button *)
(* ===================================================================== *)

Module Popup.
Import Scheduler.

(** What the handler does once the three fields are read. [parseInt]
    gives an integer or [NaN]; [None] stands for [NaN]. *)
Inductive ClickOutcome :=
| Alert (text : string)                   (* rejected: [alert(text); return] *)
| Posted (msg : Message)                  (* START_TIMER sent to the scheduler *)
| PostedNaNGrace (total segment : Z).     (* START_TIMER sent with [grace: NaN] *)

(** The handler up to [chrome.runtime.sendMessage]. [!x] holds of [NaN]
    and of [0]; a comparison with [NaN] is false, so an unreadable grace
    field passes the third test. *)
Definition startBtnClick (total segment grace : option Z) : ClickOutcome :=
  match total with
  | None => Alert "Please enter a valid total time (greater than 0)"
  | Some t =>
    if (t =? 0) || (t <=? 0)
    then Alert "Please enter a valid total time (greater than 0)"
    else
      match segment with
      | None => Alert "Please enter a valid segment length (greater than 0)"
      | Some s =>
        if (s =? 0) || (s <=? 0)
        then Alert "Please enter a valid segment length (greater than 0)"
        else if match grace with Some g => g <? 0 | None => false end
        then Alert "Grace period cannot be negative"
        else if t <=? s
        then Alert "Segment length must be less than total time"
        else
          match grace with
          | Some g => Posted (START_TIMER t s g)
          | None => PostedNaNGrace t s
          end
      end
  end.

(** The effect of a click on the scheduler. The scheduler changes only
    through the messages it receives; what it does with a [NaN] grace is
    outside this model ([None]). *)
Definition deliverClick (now : Z) (o : ClickOutcome) (w : World) : option World :=
  match o with
  | Alert _ => Some w
  | Posted msg => Some (snd (onMessage now msg w))
  | PostedNaNGrace _ _ => None
  end.

End Popup.

(* ===================================================================== *)
(** ** JSON values *)
(* ===================================================================== *)

Module Json.

(** A JavaScript value that can travel as JSON. An object is the list of
    its own keys, each occurring once, in insertion order. *)
Inductive json :=
| JNull
| JBool (b : bool)
| JNum (q : Q)
| JStr (s : string)
| JArr (items : list json)
| JObj (fields : list (string * json)).

(** [obj[key]]; [None] is [undefined]. *)
Fixpoint lookup (key : string) (fields : list (string * json)) : option json :=
  match fields with
  | [] => None
  | (k, v) :: rest => if String.eqb k key then Some v else lookup key rest
  end.

Definition keys (v : json) : list string :=
  match v with
  | JObj fields => map fst fields
  | _ => []
  end.

Definition typeName (v : option json) : string :=
  match v with
  | None => "undefined"
  | Some JNull => "null"
  | Some (JBool _) => "boolean"
  | Some (JNum _) => "number"
  | Some (JStr _) => "string"
  | Some (JArr _) => "array"
  | Some (JObj _) => "object"
  end.

(** [array.join(sep)] on strings. *)
Fixpoint join (sep : string) (l : list string) : string :=
  match l with
  | [] => ""
  | [x] => x
  | x :: rest => x +:+ sep +:+ join sep rest
  end.

End Json.

(* ===================================================================== *)
(** ** Text: length in code units and [trim] *)
(* ===================================================================== *)

Module Text.

(** A string of the program is held as the bytes of its UTF-8 encoding,
    which is how the literals of this file are read. *)

(** The UTF-16 code units a byte of the encoding stands for: one for the
    first byte of a character of one, two or three bytes, two for the first
    byte of a character of four bytes (a surrogate pair), none for a
    continuation byte. *)
Definition codeUnits (c : ascii) : nat :=
  let n := nat_of_ascii c in
  if (n <? 128)%nat then 1
  else if (n <? 192)%nat then 0
  else if (n <? 240)%nat then 1
  else 2.

(** [s.length]: the number of UTF-16 code units. *)
Fixpoint jsLength (s : string) : nat :=
  match s with
  | EmptyString => 0
  | String c rest => codeUnits c + jsLength rest
  end.

Definition fromBytes (codes : list nat) : string :=
  string_of_list_ascii (map ascii_of_nat codes).

(** The white space and line terminators removed by [trim]: U+0009 to
    U+000D, U+0020, U+00A0, U+1680, U+2000 to U+200A, U+2028, U+2029,
    U+202F, U+205F, U+3000 and U+FEFF, each as its encoding. *)
Definition whiteSpace : list string :=
  map fromBytes
    [[9]; [10]; [11]; [12]; [13]; [32]; [194; 160]; [225; 154; 128];
     [226; 128; 128]; [226; 128; 129]; [226; 128; 130]; [226; 128; 131];
     [226; 128; 132]; [226; 128; 133]; [226; 128; 134]; [226; 128; 135];
     [226; 128; 136]; [226; 128; 137]; [226; 128; 138];
     [226; 128; 168]; [226; 128; 169]; [226; 128; 175]; [226; 129; 159];
     [227; 128; 128]; [239; 187; 191]]%nat.

(** [s] without the prefix [p], when it starts with it. *)
Fixpoint stripPrefix (p s : string) : option string :=
  match p, s with
  | EmptyString, _ => Some s
  | String a p', String b s' => if Ascii.eqb a b then stripPrefix p' s' else None
  | String _ _, EmptyString => None
  end.

(** [s] without its first character, when that is one of [chars]. *)
Fixpoint afterOneOf (chars : list string) (s : string) : option string :=
  match chars with
  | [] => None
  | w :: others =>
      match stripPrefix w s with
      | Some rest => Some rest
      | None => afterOneOf others s
      end
  end.

Definition afterWhiteSpace (s : string) : option string := afterOneOf whiteSpace s.

(** Leading white space removed one character at a time; [String.length s]
    rounds are enough for [s]. *)
Fixpoint trimStartFrom (rounds : nat) (s : string) : string :=
  match rounds with
  | O => s
  | S n =>
      match afterWhiteSpace s with
      | Some rest => trimStartFrom n rest
      | None => s
      end
  end.

Definition trimStart (s : string) : string := trimStartFrom (String.length s) s.

(** Trailing white space removed: the text is cut where what is left of
    it is white space only. *)
Fixpoint trimEnd (s : string) : string :=
  match s with
  | EmptyString => EmptyString
  | String c rest =>
      if String.eqb (trimStart s) "" then EmptyString else String c (trimEnd rest)
  end.

(** [s.trim()]. *)
Definition trim (s : string) : string := trimEnd (trimStart s).

(** *** Notions used to state the properties of [trim] *)

Fixpoint concatAll (l : list string) : string :=
  match l with
  | [] => ""
  | s :: rest => s +:+ concatAll rest
  end.

(** [s] is made of white space only. *)
Definition allWhite (s : string) : Prop :=
  ∃ l, Forall (λ w, In w whiteSpace) l ∧ s = concatAll l.

Definition startsWhite (s : string) : Prop :=
  ∃ w rest, In w whiteSpace ∧ s = w +:+ rest.

Definition endsWhite (s : string) : Prop :=
  ∃ front w, In w whiteSpace ∧ s = front +:+ w.

(** [core] is [text] without the white space around it. *)
Definition trimmed (text core : string) : Prop :=
  ∃ lead trail,
    text = lead +:+ core +:+ trail
    ∧ allWhite lead ∧ allWhite trail
    ∧ ¬ startsWhite core ∧ ¬ endsWhite core.

End Text.

(* ===================================================================== *)
(** ** The part of zod the server uses *)
(* ===================================================================== *)

Module Zod.
Import Json Text.

(** The schemas the server builds: [z.string()] with optional
    [.min(n, message)] and [.max(n, message)], [z.number()] with optional
    [.min(q)] and [.max(q)], [z.boolean()], [z.array(item)],
    [z.object(shape)] and [schema.optional()]. *)
Inductive Schema :=
| ZString (minLen maxLen : option (nat * string))
| ZNumber (minVal maxVal : option Q)
| ZBoolean
| ZArray (item : Schema)
| ZObject (shape : list (string * Schema))
| ZOptional (inner : Schema).

Record Issue := mkIssue {
  path : list string;
  message : string
}.

Definition showNat (n : nat) : string := NilZero.string_of_uint (Nat.to_uint n).

(** The bounds used with [z.number()] are integers. *)
Definition showQ (q : Q) : string := showZ (Qnum q).

Definition invalidType (p : list string) (expected : string) (v : option json)
  : list Issue * option json :=
  ([mkIssue p
      (match v with
       | None => "Required"
       | Some _ => "Expected " +:+ expected +:+ ", received " +:+ typeName v
       end)], None).

(** The items of an array, each parsed by [parseItem] at its index. *)
Definition eachItem
    (parseItem : list string → option json → list Issue * option json)
    (p : list string) : nat → list json → list Issue * list json :=
  fix each (i : nat) (l : list json) : list Issue * list json :=
    match l with
    | [] => ([], [])
    | x :: rest =>
        let r := parseItem (p ++ [showNat i])%list (Some x) in
        let rs := each (S i) rest in
        ((fst r ++ fst rs)%list,
         match snd r with
         | Some y => y :: snd rs
         | None => snd rs
         end)
    end.

(** The keys of a shape, each parsed by [parse] from what the object holds
    under it; a key whose parsed value is [undefined] is left out. *)
Definition eachField
    (parse : Schema → list string → option json → list Issue * option json)
    (p : list string) (fields : list (string * json))
  : list (string * Schema) → list Issue * list (string * json) :=
  fix each (sh : list (string * Schema)) : list Issue * list (string * json) :=
    match sh with
    | [] => ([], [])
    | (k, sk) :: rest =>
        let r := parse sk (p ++ [k])%list (lookup k fields) in
        let rs := each rest in
        ((fst r ++ fst rs)%list,
         match snd r with
         | Some y => (k, y) :: snd rs
         | None => snd rs
         end)
    end.

(** Parsing a value found at path [p] ([None]: the key is absent). The
    result is the list of issues and, when there is none, the parsed value:
    for an object, its declared keys only, in the order of the shape. *)
Fixpoint parseAt (s : Schema) (p : list string) (v : option json) {struct s}
  : list Issue * option json :=
  match s with
  | ZOptional inner =>
      match v with
      | None => ([], None)
      | Some _ => parseAt inner p v
      end
  | ZString minLen maxLen =>
      match v with
      | Some (JStr str) =>
          let tooShort :=
            match minLen with
            | Some (n, msg) =>
                if (jsLength str <? n)%nat then [mkIssue p msg] else []
            | None => []
            end in
          let tooLong :=
            match maxLen with
            | Some (n, msg) =>
                if (n <? jsLength str)%nat then [mkIssue p msg] else []
            | None => []
            end in
          ((tooShort ++ tooLong)%list, Some (JStr str))
      | _ => invalidType p "string" v
      end
  | ZNumber minVal maxVal =>
      match v with
      | Some (JNum q) =>
          let tooSmall :=
            match minVal with
            | Some lo =>
                if Qle_bool lo q then []
                else [mkIssue p ("Number must be greater than or equal to "
                                   +:+ showQ lo)]
            | None => []
            end in
          let tooBig :=
            match maxVal with
            | Some hi =>
                if Qle_bool q hi then []
                else [mkIssue p ("Number must be less than or equal to "
                                   +:+ showQ hi)]
            | None => []
            end in
          ((tooSmall ++ tooBig)%list, Some (JNum q))
      | _ => invalidType p "number" v
      end
  | ZBoolean =>
      match v with
      | Some (JBool b) => ([], Some (JBool b))
      | _ => invalidType p "boolean" v
      end
  | ZArray item =>
      match v with
      | Some (JArr items) =>
          let r := eachItem (parseAt item) p 0%nat items in
          (fst r, Some (JArr (snd r)))
      | _ => invalidType p "array" v
      end
  | ZObject shape =>
      match v with
      | Some (JObj fields) =>
          let r := eachField parseAt p fields shape in
          (fst r, Some (JObj (snd r)))
      | _ => invalidType p "object" v
      end
  end.

Inductive SafeParse :=
| Success (data : json)
| Failure (issues : list Issue).

(** [schema.safeParse(value)]. *)
Definition safeParse (s : Schema) (v : json) : SafeParse :=
  match parseAt s [] (Some v) with
  | ([], Some data) => Success data
  | (issues, _) => Failure issues
  end.

End Zod.

(* ===================================================================== *)
(** ** The Express server: POST /api/analyzeDream *)
(* ===================================================================== *)

Module Gateway.
Import Json Zod.

Definition DreamAnalysisSchema : Schema :=
  ZObject [
    ("dreamText",
       ZString (Some (20%nat, "Dream text must be at least 20 characters"))
               (Some (2000%nat, "Dream text cannot exceed 2000 characters")));
    ("userId", ZOptional (ZString None None));
    ("timestamp", ZOptional (ZNumber None None))
  ].

(** The schema the model's answer is checked against. *)
Definition analysisSchema : Schema :=
  ZObject [
    ("emotions", ZArray (ZString None None));
    ("themes", ZArray (ZString None None));
    ("interpretation", ZString None None);
    ("symbols", ZArray (ZString None None));
    ("confidence", ZNumber (Some 0%Q) (Some 1%Q))
  ].

Definition DreamAnalysisResponseSchema : Schema :=
  ZObject [
    ("success", ZBoolean);
    ("data", ZOptional (ZObject [
       ("emotions", ZArray (ZString None None));
       ("themes", ZArray (ZString None None));
       ("interpretation", ZString None None);
       ("symbols", ZArray (ZString None None));
       ("confidence", ZNumber (Some 0%Q) (Some 1%Q));
       ("timestamp", ZNumber None None)
     ]));
    ("error", ZOptional (ZString None None));
    ("requestId", ZOptional (ZString None None))
  ].

Record HttpResponse := mkHttpResponse {
  status : nat;
  body : json
}.

(** [res.status(code).json({ success: false, error, requestId })]. *)
Definition failure (code : nat) (error requestId : string) : HttpResponse :=
  mkHttpResponse code
    (JObj [("success", JBool false); ("error", JStr error);
           ("requestId", JStr requestId)]).

(** The two messages of [openai.chat.completions.create] that depend on
    the route; the model name, temperature and token limit are constants. *)
Record ChatRequest := mkChatRequest {
  systemContent : string;
  userContent : string
}.

(** What the awaited call gives: the text of the first choice, or an
    exception carrying an optional [code]. *)
Inductive Upstream :=
| Completed (content : string)
| Threw (code : option string).

(** A run of the route handler: it answers at once, or it calls the
    completion service and answers from what comes back. *)
Inductive Handler :=
| Respond (r : HttpResponse)
| CallOpenAI (req : ChatRequest) (k : Upstream → HttpResponse).

Section Route.

(** [JSON.parse]; [None] when it throws. *)
Variable JSON_parse : string → option json.

(** The fixed instructions of the system message; their text plays no role
    in what follows. *)
Variable systemPrompt : string.

(** The handler from the return of the completion call on: [requestId] is
    the identifier made at the start of the request, [now] what
    [Date.now()] gives when the answer is built. *)
Definition afterCompletion (requestId : string) (now : Z) (up : Upstream)
  : HttpResponse :=
  match up with
  | Completed content =>
      match JSON_parse content with
      | None => failure 500 "Failed to parse dream analysis response" requestId
      | Some analysisData =>
          match safeParse analysisSchema analysisData with
          | Failure _ =>
              failure 500 "Invalid dream analysis response format" requestId
          | Success data =>
              let response :=
                JObj [("success", JBool true);
                      ("data",
                         JObj ((match data with
                                | JObj fields => fields
                                | _ => []
                                end) ++ [("timestamp", JNum (inject_Z now))])%list);
                      ("requestId", JStr requestId)] in
              match safeParse DreamAnalysisResponseSchema response with
              | Failure _ => failure 500 "Response validation failed" requestId
              | Success _ => mkHttpResponse 200 response
              end
          end
      end
  | Threw code =>
      if bool_decide (code = Some "insufficient_quota")
      then failure 429 "API quota exceeded. Please try again later." requestId
      else if bool_decide (code = Some "rate_limit_exceeded")
      then failure 429 "Rate limit exceeded. Please try again in a moment." requestId
      else failure 500 "Internal server error during dream analysis" requestId
  end.

Definition formatIssue (err : Issue) : string :=
  join "." (path err) +:+ ": " +:+ message err.

(** The route handler, behind the rate limiter. *)
Definition analyzeDream (requestId : string) (now : Z) (reqBody : json) : Handler :=
  match safeParse DreamAnalysisSchema reqBody with
  | Failure errors =>
      Respond (failure 400
                 ("Validation failed: " +:+ join ", " (map formatIssue errors))
                 requestId)
  | Success data =>
      let dreamText :=
        match data with
        | JObj fields =>
            match lookup "dreamText" fields with
            | Some (JStr text) => text
            | _ => ""
            end
        | _ => ""
        end in
      CallOpenAI
        (mkChatRequest systemPrompt ("Analyze this dream: " +:+ dreamText))
        (afterCompletion requestId now)
  end.

End Route.

(** A request body as the clients build it: the dream text, and optionally
    a user identifier and a timestamp. *)
Definition requestBody (dreamText : string) (userId : option string)
    (timestamp : option Q) : json :=
  JObj ([("dreamText", JStr dreamText)]
        ++ match timestamp with Some t => [("timestamp", JNum t)] | None => [] end
        ++ match userId with Some u => [("userId", JStr u)] | None => [] end)%list.

(** The analysis object the specification describes: arrays of strings
    under [emotions], [themes] and [symbols], a string under
    [interpretation] and a number between 0 and 1 under [confidence]. *)
Definition matchesAnalysis (v : json) : Prop :=
  ∃ fields (e t sy : list string) (i : string) (c : Q),
    v = JObj fields
    ∧ lookup "emotions" fields = Some (JArr (map JStr e))
    ∧ lookup "themes" fields = Some (JArr (map JStr t))
    ∧ lookup "interpretation" fields = Some (JStr i)
    ∧ lookup "symbols" fields = Some (JArr (map JStr sy))
    ∧ lookup "confidence" fields = Some (JNum c)
    ∧ (0 <= c)%Q ∧ (c <= 1)%Q.

(** The data kept from an accepted answer: the five declared keys, in the
    order of the schema. *)
Definition analysisData (e t : list string) (i : string) (sy : list string)
    (c : Q) : list (string * json) :=
  [("emotions", JArr (map JStr e)); ("themes", JArr (map JStr t));
   ("interpretation", JStr i); ("symbols", JArr (map JStr sy));
   ("confidence", JNum c)].

(** The two answers to a dream text of the wrong length. *)
Definition validationTooShort : string :=
  "Validation failed: dreamText: Dream text must be at least 20 characters".

Definition validationTooLong : string :=
  "Validation failed: dreamText: Dream text cannot exceed 2000 characters".

End Gateway.

(* ===================================================================== *)
(** ** popup.js: the local dream analysis *)
(* ===================================================================== *)

Module LocalAnalysis.
Import Json.

(** [toLowerCase] on the bytes of a text: the letters [A]..[Z] become
    [a]..[z]. The bytes of every other character are left alone: the
    words searched for are made of the letters [a]..[z], and no byte of a
    character outside ASCII is the code of one. *)
Definition lowerChar (c : ascii) : ascii :=
  let n := nat_of_ascii c in
  if (65 <=? n)%nat && (n <=? 90)%nat then ascii_of_nat (n + 32) else c.

Fixpoint toLowerCase (s : string) : string :=
  match s with
  | EmptyString => EmptyString
  | String c rest => String (lowerChar c) (toLowerCase rest)
  end.

(** [s.includes(word)]: [word] starts at some position of [s]. *)
Fixpoint includes (s word : string) : bool :=
  String.prefix word s
  || match s with
     | EmptyString => false
     | String _ rest => includes rest word
     end.

Definition emotionWords : list (string * list string) := [
  ("fear", ["scared"; "afraid"; "terrified"; "frightened"; "panic"]);
  ("joy", ["happy"; "excited"; "elated"; "cheerful"; "delighted"]);
  ("sadness", ["sad"; "depressed"; "crying"; "tears"; "mourning"]);
  ("anger", ["angry"; "mad"; "furious"; "rage"; "hostile"]);
  ("anxiety", ["worried"; "nervous"; "anxious"; "stressed"; "uneasy"])
].

Definition themeWords : list (string * list string) := [
  ("flying", ["flying"; "soaring"; "airplane"; "wings"; "sky"]);
  ("falling", ["falling"; "dropping"; "plunging"; "descending"]);
  ("chase", ["chasing"; "running"; "pursuing"; "escaping"]);
  ("water", ["water"; "ocean"; "swimming"; "drowning"; "waves"]);
  ("home", ["home"; "house"; "family"; "childhood"; "room"])
].

(** [Object.entries(table).forEach(([name, words]) => { if
    (words.some(word => dreamText.toLowerCase().includes(word)))
    found.push(name); })], starting from the empty array. *)
Definition detect (table : list (string * list string)) (dreamText : string)
  : list string :=
  fold_left
    (λ found entry,
       if existsb (λ word, includes (toLowerCase dreamText) word) (snd entry)
       then (found ++ [fst entry])%list
       else found)
    table [].

Definition interpretations : list (string * string) := [
  ("fear", "This dream may reflect underlying anxieties or concerns in your waking life.");
  ("joy", "This dream suggests positive emotions and a sense of well-being.");
  ("sadness", "This dream may indicate processing of difficult emotions or experiences.");
  ("anger", "This dream could represent unresolved conflicts or frustrations.");
  ("anxiety", "This dream may reflect stress or worry about current life situations.");
  ("flying", "Flying dreams often represent freedom, ambition, or a desire to escape limitations.");
  ("falling", "Falling dreams may indicate feelings of losing control or insecurity.");
  ("chase", "Being chased in dreams often represents avoidance of something in waking life.");
  ("water", "Water in dreams can symbolize emotions, cleansing, or life transitions.");
  ("home", "Dreams about home often relate to security, identity, or childhood memories.")
].

Fixpoint textFor (item : string) (table : list (string * string)) : option string :=
  match table with
  | [] => None
  | (k, v) :: rest => if String.eqb k item then Some v else textFor item rest
  end.

(** [[...emotions, ...themes].map(item => interpretations[item])
    .filter(Boolean)], joined with spaces after the fixed opening. *)
Definition generateInterpretation (emotions themes : list string) : string :=
  let relevantInterpretations :=
    omap (λ item, textFor item interpretations) (emotions ++ themes)%list in
  "Dream analysis suggests: "
  +:+ (if (0 <? length relevantInterpretations)%nat
       then join " " relevantInterpretations
       else "This dream may reflect your subconscious processing of daily experiences.").

Definition commonSymbols : list string :=
  ["house"; "car"; "animal"; "person"; "tree"; "water"; "fire"; "door"; "window"].

Definition extractSymbols (dreamText : string) : list string :=
  take 3 (List.filter (λ symbol, includes (toLowerCase dreamText) symbol)
            commonSymbols).

(** [analyzeDreamLocally(dreamText)], after its two-second delay; [now] is
    what [Date.now()] gives. The object literal it returns has five keys. *)
Definition analyzeDreamLocally (now : Z) (dreamText : string) : json :=
  let emotions := detect emotionWords dreamText in
  let themes := detect themeWords dreamText in
  JObj [
    ("emotions",
       JArr (map JStr (if (0 <? length emotions)%nat then emotions else ["neutral"])));
    ("themes",
       JArr (map JStr (if (0 <? length themes)%nat then themes else ["general"])));
    ("interpretation", JStr (generateInterpretation emotions themes));
    ("symbols", JArr (map JStr (extractSymbols dreamText)));
    ("timestamp", JNum (inject_Z now))
  ].

(** *** Notions used to state its properties *)

(** The 26 letters, each capital with its small form. *)
Definition letterPairs : list (ascii * ascii) :=
  combine (list_ascii_of_string "ABCDEFGHIJKLMNOPQRSTUVWXYZ")
          (list_ascii_of_string "abcdefghijklmnopqrstuvwxyz").

(** Two characters that are the same up to case: equal, or the capital and
    the small form of one letter. *)
Definition sameLetter (a b : ascii) : Prop :=
  a = b ∨ In (a, b) letterPairs ∨ In (b, a) letterPairs.

(** Two texts that are the same up to the case of their letters. *)
Fixpoint sameText (a b : string) : Prop :=
  match a, b with
  | EmptyString, EmptyString => True
  | String x a', String y b' => sameLetter x y ∧ sameText a' b'
  | _, _ => False
  end.

(** [word] occurs in [text] up to the case of letters. *)
Definition occursIgnoringCase (word text : string) : Prop :=
  ∃ before found after,
    text = before +:+ found +:+ after
    ∧ sameText found word.


(** The strings of an array of strings stored under [key]. *)
Definition stringsAt (key : string) (v : json) : option (list string) :=
  match v with
  | JObj fields =>
      match lookup key fields with
      | Some (JArr items) =>
          Some (omap (λ x, match x with JStr s => Some s | _ => None end) items)
      | _ => None
      end
  | _ => None
  end.


End LocalAnalysis.

(* ===================================================================== *)
(** ** src/journal.js: the client's check of an analysis *)
(* ===================================================================== *)

Module JournalClient.
Import Json.

Definition requiredFields : list string :=
  ["emotions"; "themes"; "interpretation"; "symbols"; "confidence"].

Definition isArray (v : option json) : bool :=
  match v with Some (JArr _) => true | _ => false end.

Definition isString (v : option json) : bool :=
  match v with Some (JStr _) => true | _ => false end.

(** [JournalAPI._validateAnalysisData(data)] on an object: [None] when it
    returns, [Some message] when it throws [new Error(message)]. *)
Definition validateAnalysisData (data : list (string * json)) : option string :=
  match List.find (λ field, negb (bool_decide (is_Some (lookup field data))))
          requiredFields with
  | Some field => Some ("Invalid response: missing " +:+ field)
  | None =>
      if negb (isArray (lookup "emotions" data))
      then Some "Invalid response: emotions must be an array"
      else if negb (isArray (lookup "themes" data))
      then Some "Invalid response: themes must be an array"
      else if negb (isArray (lookup "symbols" data))
      then Some "Invalid response: symbols must be an array"
      else if negb (isString (lookup "interpretation" data))
      then Some "Invalid response: interpretation must be a string"
      else
        match lookup "confidence" data with
        | Some (JNum c) =>
            if Qle_bool 0 c && Qle_bool c 1 then None
            else Some "Invalid response: confidence must be a number between 0 and 1"
        | _ => Some "Invalid response: confidence must be a number between 0 and 1"
        end
  end.

End JournalClient.

(* ===================================================================== *)
(** ** Further notions about the scheduler's worlds *)
(* ===================================================================== *)

Module SchedulerNotions.
Import Scheduler.

(** The derived fields of a timer object are those of its configuration. *)
Record configured (ts : TimerState) : Prop := mkConfigured {
  cfg_valid : validConfig (total ts) (segment ts) (grace ts);
  cfg_fullBlock : fullBlock ts = segment ts + grace ts;
  cfg_blocks : blocks ts = total ts / (segment ts + grace ts);
  cfg_remaining : remainingTime ts = Z.rem (total ts) (segment ts + grace ts)
}.

(** Seconds given to the current phase when it was entered: a segment, the
    grace period, or the tail after the last regular block. A session
    without a regular block consists of one segment. *)
Definition phaseLength (ts : TimerState) : Z :=
  if isWorkTime ts then
    if (currentBlock ts <? blocks ts) || (blocks ts <=? 0)
    then segment ts * 60
    else remainingTime ts * 60
  else grace ts * 60.

(** The countdown of the current phase: within the length of the phase,
    with at least a second left unless the phase is a break without grace. *)
Record phaseInv (ts : TimerState) : Prop := mkPhaseInv {
  phase_upper : currentTime ts ≤ phaseLength ts;
  phase_work : isWorkTime ts = true → 1 ≤ currentTime ts;
  phase_break : isWorkTime ts = false → 0 < grace ts → 1 ≤ currentTime ts
}.

(** What one run of the callback announces on a running, unpaused session
    ([tick_announces] relates it to [tick]). *)
Definition tickNote (ts0 : TimerState) : option Notification :=
  let ts := set_currentTime (currentTime ts0 - 1) ts0 in
  if currentTime ts <=? 0 then
    if isWorkTime ts then
      if (currentBlock ts <? blocks ts - 1)
         || ((currentBlock ts =? blocks ts - 1) && (0 <? remainingTime ts))
      then Some (mkNotification "Break Time 🕒"
                   ("Take " +:+ showZ (grace ts) +:+ " minutes to reset."))
      else Some sessionComplete
    else
      let ts := set_isWorkTime true (set_currentBlock (currentBlock ts + 1) ts) in
      if blocks ts <=? currentBlock ts then
        if 0 <? remainingTime ts
        then Some (mkNotification "Final Segment"
                     ("Go for " +:+ showZ (remainingTime ts) +:+ " minutes!"))
        else Some sessionComplete
      else Some (mkNotification
                   ("Segment " +:+ showZ (currentBlock ts + 1) +:+ " of "
                      +:+ showZ (blocks ts))
                   ("Go for " +:+ showZ (segment ts) +:+ " minutes!"))
  else None.

(** Notifications with a given title in the log. *)
Definition countTitle (ttl : string) (log : list Notification) : nat :=
  length (List.filter (λ n, String.eqb (title n) ttl) log).

(** Breaks still to be entered before the session completes. *)
Definition breaksLeft (ts : TimerState) : Z :=
  let from (j : Z) :=
    if j <? blocks ts
    then blocks ts - 1 - j + (if 0 <? remainingTime ts then 1 else 0)
    else 0 in
  if isWorkTime ts then from (currentBlock ts) else from (currentBlock ts + 1).

End SchedulerNotions.

(* ===================================================================== *)
(** ** popup.js: what the popup computes from a timer snapshot *)
(* ===================================================================== *)

Module PopupTimer.
Import Scheduler.

(** [isValidTimer(timer)]; the [typeof] tests hold of every record, [None]
    is a falsy [timer]. The last conjunct repeats a weaker bound on
    [currentTime]. *)
Definition isValidTimer (timer : option TimerState) : bool :=
  match timer with
  | None => false
  | Some t =>
      (0 <? total t) && (0 <? segment t) && (0 <=? grace t)
      && (0 <=? currentBlock t) && (0 <? currentTime t)
      && (currentBlock t <=? blocks t) && (0 <=? currentTime t)
  end.

(** The test of [switchView('timer')] on a valid snapshot: show the
    countdown view rather than the set-up view. *)
Definition showsCountdown (currentTimer : TimerState) : bool :=
  (0 <? currentTime currentTimer)
  || (currentBlock currentTimer <? blocks currentTimer - 1)
  || ((currentBlock currentTimer =? blocks currentTimer - 1)
      && (0 <? remainingTime currentTimer)).

(** The test of the poll in [startCountdown] that raises "Timer has ended". *)
Definition timerHasEnded (currentTimer : TimerState) : bool :=
  (currentTime currentTimer <=? 0)
  && (blocks currentTimer <=? currentBlock currentTimer)
  && negb (isWorkTime currentTimer).

(** [segmentDisplay] of [updateCountdownDisplay]. *)
Definition segmentDisplay (currentTimer : TimerState) : string :=
  if isWorkTime currentTimer then
    if currentBlock currentTimer <? blocks currentTimer
    then "Segment " +:+ showZ (currentBlock currentTimer + 1) +:+ " of "
         +:+ showZ (blocks currentTimer)
    else "Final Segment"
  else
    if currentBlock currentTimer <? blocks currentTimer
    then "Break after Segment " +:+ showZ (currentBlock currentTimer + 1)
    else "Final Break".

(** [getTotalRemainingTime()] on a present [currentTimer]. *)
Definition getTotalRemainingTime (currentTimer : TimerState) : Z :=
  let remaining := currentTime currentTimer in
  if isWorkTime currentTimer then
    if currentBlock currentTimer <? blocks currentTimer - 1 then
      remaining + grace currentTimer * 60
      + (blocks currentTimer - currentBlock currentTimer - 1)
        * fullBlock currentTimer * 60
    else if currentBlock currentTimer =? blocks currentTimer - 1 then
      if 0 <? remainingTime currentTimer
      then remaining + grace currentTimer * 60
      else remaining
    else remaining
  else
    if currentBlock currentTimer <? blocks currentTimer then
      remaining
      + (blocks currentTimer - currentBlock currentTimer - 1)
        * fullBlock currentTimer * 60
    else remaining.

(** [totalElapsedSeconds] of [updateCountdownDisplay], from which the
    progress bar is drawn. *)
Definition totalElapsedSeconds (currentTimer : TimerState) : Z :=
  total currentTimer * 60 - getTotalRemainingTime currentTimer.

End PopupTimer.

(* ===================================================================== *)
(** ** The Express server: request bodies and the CORS middleware *)
(* ===================================================================== *)

Module GatewayNotions.
Import Json Text.

Definition absentOrString (v : option json) : Prop :=
  v = None ∨ ∃ s, v = Some (JStr s).

Definition absentOrNumber (v : option json) : Prop :=
  v = None ∨ ∃ q, v = Some (JNum q).

(** A request body the route accepts, with the dream text it carries: an
    object holding a string of 20 to 2000 characters under [dreamText],
    nothing or a string under [userId], nothing or a number under
    [timestamp], and any other keys. *)
Definition acceptableBody (reqBody : json) (text : string) : Prop :=
  ∃ fields,
    reqBody = JObj fields
    ∧ lookup "dreamText" fields = Some (JStr text)
    ∧ (20 ≤ jsLength text ≤ 2000)%nat
    ∧ absentOrString (lookup "userId" fields)
    ∧ absentOrNumber (lookup "timestamp" fields).

End GatewayNotions.

Module Cors.
Import LocalAnalysis.

(** What the middleware reads of a request: [req.method] and
    [req.headers.origin] ([None] when the header is absent). *)
Record Request := mkRequest {
  method : string;
  origin : option string
}.

(** How the middleware leaves: [res.status(200).end()] or [next()]. *)
Inductive Outcome :=
| Ended (status : nat)
| Next.

(** The CORS middleware: the headers it sets, in order, and how it leaves.
    An absent or empty [origin] is falsy. *)
Definition corsMiddleware (req : Request) : list (string * string) * Outcome :=
  let falsy := match origin req with
               | None => true
               | Some o => String.eqb o ""
               end in
  let text := match origin req with Some o => o | None => "" end in
  ((if falsy
       || includes text "chrome-extension://"
       || includes text "localhost"
       || includes text "127.0.0.1"
    then [("Access-Control-Allow-Origin", if falsy then "*" else text)]
    else [])
   ++ [("Access-Control-Allow-Methods", "POST, OPTIONS");
       ("Access-Control-Allow-Headers", "Content-Type, Authorization, X-User-ID");
       ("Access-Control-Allow-Credentials", "true")],
   if String.eqb (method req) "OPTIONS" then Ended 200 else Next)%list.

(** The value of a response header, if it was set. *)
Fixpoint header (name : string) (headers : list (string * string)) : option string :=
  match headers with
  | [] => None
  | (k, v) :: rest => if String.eqb k name then Some v else header name rest
  end.

(** [marker] occurs somewhere in [text]. *)
Definition contains (text marker : string) : Prop :=
  ∃ before after, text = before +:+ marker +:+ after.

End Cors.

(* ===================================================================== *)
(** ** src/journal.js: the API client *)
(* ===================================================================== *)

Module JournalApi.
Import Json Text LocalAnalysis JournalClient.

(** A thrown error object: its [name] and [message]. *)
Record JsError := mkJsError {
  name : string;
  message : string
}.

(** [new Error(message)]. *)
Definition Error (message : string) : JsError := mkJsError "Error" message.

(** Truthiness of a value. *)
Definition truthy (v : option json) : bool :=
  match v with
  | None | Some JNull => false
  | Some (JBool b) => b
  | Some (JNum q) => negb (Qeq_bool q 0)
  | Some (JStr s) => negb (String.eqb s "")
  | Some (JArr _) | Some (JObj _) => true
  end.

(** [value.key] on a value other than [null]. *)
Definition property (key : string) (v : json) : option json :=
  match v with
  | JObj fields => lookup key fields
  | _ => None
  end.

(** What [fetch] and the reading of the body give: the promise of
    [fetch] rejects (no connection, or the abort of the 30 second timer),
    or there is a response with its status, its status text and the
    outcome of [response.json()]. *)
Inductive FetchOutcome :=
| Rejected (e : JsError)
| Responded (status : nat) (statusText : string) (body : JsError + json).

Section Client.

(** [String(value)] for a truthy value that is not a string, and the
    [TypeError]s the engine throws when a property of [null] is read and
    when [in] is applied to a primitive. *)
Variable toText : json → string.
Variable propertyOfNull : string → JsError.
Variable inOperatorOn : json → JsError.

(** [a || fallback] used as a message. *)
Definition orElse (v : option json) (fallback : string) : string :=
  if truthy v then
    match v with
    | Some (JStr s) => s
    | Some other => toText other
    | None => fallback
    end
  else fallback.

(** [_makeRequest(endpoint, options)] from the outcome of [fetch] on. *)
Definition makeRequest (out : FetchOutcome) : JsError + json :=
  let caught (e : JsError) : JsError + json :=
    if String.eqb (name e) "AbortError"
    then inl (Error "Request timeout. Please try again.")
    else inl e in
  match out with
  | Rejected e => caught e
  | Responded status statusText body =>
      if (200 <=? status)%nat && (status <=? 299)%nat then
        match body with
        | inl e => caught e
        | inr data => inr data
        end
      else
        let errorMessage := "HTTP " +:+ Zod.showNat status in
        let errorMessage :=
          match body with
          | inr JNull | inl _ =>
              if negb (String.eqb statusText "") then statusText else errorMessage
          | inr errorData => orElse (property "error" errorData) errorMessage
          end in
        caught (Error errorMessage)
  end.

(** The [catch] of [analyzeDream]: what is thrown in place of [error]. *)
Definition mapError (error : JsError) : JsError :=
  if String.eqb (name error) "TypeError" && includes (message error) "fetch"
  then Error "Network error: Unable to connect to dream analysis service"
  else if includes (message error) "429" || includes (message error) "quota"
  then Error "Rate limit exceeded. Please try again in a few minutes."
  else if includes (message error) "401"
  then Error "Authentication required. Please log in."
  else if includes (message error) "500"
  then Error "Server error. Please try again later."
  else error.

(** [_validateAnalysisData(data)] on a truthy value. *)
Definition validateData (data : json) : option JsError :=
  match data with
  | JObj fields => option_map Error (validateAnalysisData fields)
  | JArr _ => Some (Error "Invalid response: missing emotions")
  | other => Some (inOperatorOn other)
  end.

(** [analyzeDream] from the answer of [_makeRequest] on, inside the [try]. *)
Definition checkResponse (response : json) : JsError + json :=
  match response with
  | JNull => inl (propertyOfNull "success")
  | _ =>
      if negb (truthy (property "success" response))
      then inl (Error (orElse (property "error" response) "Dream analysis failed"))
      else if negb (truthy (property "data" response))
      then inl (Error "Invalid response: missing analysis data")
      else
        match property "data" response with
        | Some data =>
            match validateData data with
            | Some e => inl e
            | None =>
                inr (JObj ([("success", JBool true); ("data", data)]
                           ++ match property "requestId" response with
                              | Some rid => [("requestId", rid)]
                              | None => []
                              end))
            end
        | None => inl (Error "Invalid response: missing analysis data")
        end
  end.

(** A call of [analyzeDream]: an error is thrown before anything is sent,
    or a request is sent and the result follows from its outcome. *)
Inductive Run :=
| Throws (e : JsError)
| Fetches (payload : json) (userHeader : option string)
          (k : FetchOutcome → JsError + json).

Definition afterFetch (out : FetchOutcome) : JsError + json :=
  match makeRequest out with
  | inl e => inl (mapError e)
  | inr response =>
      match checkResponse response with
      | inl e => inl (mapError e)
      | inr result => inr result
      end
  end.

(** [analyzeDream(dreamText, userId)]; [now] is what [Date.now()] gives.
    An absent [userId] is [null]; an empty one is falsy as well. *)
Definition analyzeDream (dreamText : json) (userId : option string) (now : Z) : Run :=
  match dreamText with
  | JStr text =>
      if String.eqb text ""
      then Throws (mapError (Error "Dream text is required and must be a string"))
      else if (jsLength text <? 20)%nat
      then Throws (mapError (Error "Dream text must be at least 20 characters long"))
      else if (2000 <? jsLength text)%nat
      then Throws (mapError (Error "Dream text cannot exceed 2000 characters"))
      else
        let user := match userId with
                    | Some u => if String.eqb u "" then None else Some u
                    | None => None
                    end in
        Fetches
          (JObj ([("dreamText", JStr (trim text));
                  ("timestamp", JNum (inject_Z now))]
                 ++ match user with Some u => [("userId", JStr u)] | None => [] end))
          user afterFetch
  | _ => Throws (mapError (Error "Dream text is required and must be a string"))
  end%list.

End Client.

(** The transport between this client and the handler of the route, for a
    request that the rate limiter lets through: the payload, an object,
    is what [express.json] puts in [req.body], and the response carries
    the status and the JSON body of the answer. *)
Definition delivered (statusText : string) (r : Gateway.HttpResponse) : FetchOutcome :=
  Responded (Gateway.status r) statusText (inr (Gateway.body r)).

Definition served (JSON_parse : string → option json) (systemPrompt rid : string)
    (now : Z) (up : Gateway.Upstream) (statusText : string) (payload : json)
  : FetchOutcome :=
  match Gateway.analyzeDream JSON_parse systemPrompt rid now payload with
  | Gateway.Respond r => delivered statusText r
  | Gateway.CallOpenAI _ k => delivered statusText (k up)
  end.

End JournalApi.

(* ===================================================================== *)
(** ** popup.js: the dream analysis button *)
(* ===================================================================== *)

Module DreamPopup.
Import Json Text LocalAnalysis JournalApi.

(** What the click handler leaves in [#dreamResults]: the message of
    [showDreamError], or the analysis sections written by
    [displayDreamAnalysis], each with its title and its content. *)
Inductive Shown :=
| ErrorShown (message : string)
| AnalysisShown (sections : list (string * string)).

(** [analyzeDreamWithAPI(dreamText)] from the outcome of [fetch] on: the
    object it resolves with, or [None] when it rejects. *)
Definition analyzeDreamWithAPI (out : FetchOutcome) : option json :=
  match out with
  | Responded status _ (inr data) =>
      if (200 <=? status)%nat && (status <=? 299)%nat then
        if truthy (property "success" data) then
          Some (JObj ([("success", JBool true)]
                      ++ match property "data" data with
                         | Some d => [("data", d)]
                         | None => []
                         end
                      ++ match property "requestId" data with
                         | Some rid => [("requestId", rid)]
                         | None => []
                         end))
        else None
      else None
  | _ => None
  end%list.

(** The body of the request made by [analyzeDreamWithAPI(dreamText)]:
    [{ dreamText: dreamText.trim(), timestamp: Date.now() }]. *)
Definition apiRequestBody (dreamText : string) (now : Z) : json :=
  Gateway.requestBody (trim dreamText) None (Some (inject_Z now)).

Section Display.

(** [String(value)] for a value that is not a string, and [value > 0] for
    a value that is not a number. *)
Variable toText : json → string.
Variable positive : json → bool.

(** [array.join(', ')]: [null] items give the empty string. *)
Definition joinItems (items : list json) : string :=
  join ", " (map (λ x, match x with
                       | JStr s => s
                       | JNull => ""
                       | other => toText other
                       end) items).

(** [displayDreamAnalysis(analysis)]: the sections it writes, or [None]
    when building the HTML throws (a [join] on something that is not an
    array). *)
Definition displayDreamAnalysis (analysis : json) : option (list (string * string)) :=
  match property "emotions" analysis, property "themes" analysis with
  | Some (JArr emotions), Some (JArr themes) =>
      let interpretation :=
        match property "interpretation" analysis with
        | Some (JStr s) => s
        | Some other => toText other
        | None => "undefined"
        end in
      let start := [("Emotions", joinItems emotions);
                    ("Themes", joinItems themes);
                    ("Interpretation", interpretation)] in
      match property "symbols" analysis with
      | Some (JArr (x :: rest)) =>
          Some (start ++ [("Key Symbols", joinItems (x :: rest))])%list
      | Some (JStr (String _ _)) => None
      | Some (JObj fields) =>
          match lookup "length" fields with
          | Some (JNum q) => if Qle_bool q 0 then Some start else None
          | Some other => if positive other then None else Some start
          | None => Some start
          end
      | _ => Some start
      end
  | _, _ => None
  end.

(** The click handler of the analyze button: [entry] is the value of the
    dream field, [out] the outcome of the request made by
    [analyzeDreamWithAPI], [now] what [Date.now()] gives. *)
Definition analyzeClick (entry : string) (out : FetchOutcome) (now : Z) : Shown :=
  let dreamText := trim entry in
  if String.eqb dreamText "" then ErrorShown "Please enter a dream to analyze."
  else if (jsLength dreamText <? 20)%nat then
    ErrorShown "Please provide a more detailed dream description (at least 20 characters)."
  else
    let analysis :=
      match analyzeDreamWithAPI out with
      | Some analysis => analysis
      | None => analyzeDreamLocally now dreamText
      end in
    match displayDreamAnalysis analysis with
    | Some sections => AnalysisShown sections
    | None => ErrorShown "Failed to analyze dream. Please try again."
    end.

End Display.

(** *** Notions used to state its properties *)

(** The sections that present the local analysis of [dreamText]. *)
Definition localSections (dreamText : string) : list (string * string) :=
  let emotions := detect emotionWords dreamText in
  let themes := detect themeWords dreamText in
  [("Emotions", join ", " (if emotions is [] then ["neutral"] else emotions));
   ("Themes", join ", " (if themes is [] then ["general"] else themes));
   ("Interpretation", generateInterpretation emotions themes)]
  ++ (if extractSymbols dreamText is []
      then []
      else [("Key Symbols", join ", " (extractSymbols dreamText))]).

(** The sentence [generateInterpretation] has for each of [items]. *)
Definition sentencesOf (items sentences : list string) : Prop :=
  Forall2 (λ item sentence, textFor item interpretations = Some sentence)
    items sentences.

End DreamPopup.

(* ===================================================================== *)
(** ** Properties of the scheduler *)
(* ===================================================================== *)

Module SchedulerProps.
Import Scheduler.

Lemma saveEveryTen_timer w :
  globalTimerState (saveEveryTen w) = globalTimerState w.
Proof. unfold saveEveryTen. repeat case_match; cbn; congruence. Qed.

Lemma saveEveryTen_paused w :
  globalIsPaused (saveEveryTen w) = globalIsPaused w.
Proof. unfold saveEveryTen. repeat case_match; cbn; congruence. Qed.

Lemma saveEveryTen_interval w :
  globalTimerInterval (saveEveryTen w) = globalTimerInterval w.
Proof. unfold saveEveryTen. repeat case_match; cbn; congruence. Qed.

Lemma saveEveryTen_live w :
  liveIntervals (saveEveryTen w) = liveIntervals w.
Proof. unfold saveEveryTen. repeat case_match; cbn; congruence. Qed.

(** The callback does nothing without a session. *)
Lemma tick_idle w : globalTimerState w = None → tick w = w.
Proof. intros H. unfold tick. rewrite H. reflexivity. Qed.

(** The callback does nothing while paused. *)
Lemma tick_paused w : globalIsPaused w = true → tick w = w.
Proof. intros H. unfold tick. rewrite H. case_match; reflexivity. Qed.

(** On a running session the timer object evolves by [timerAfterTick], and
    the session stays unpaused. *)
Lemma tick_running w ts :
  globalTimerState w = Some ts → globalIsPaused w = false →
  globalTimerState (tick w) = timerAfterTick ts
  ∧ globalIsPaused (tick w) = false.
Proof.
  intros Hts Hp. unfold tick, timerAfterTick. rewrite Hts, Hp. cbn zeta.
  repeat case_match;
    rewrite ?saveEveryTen_timer, ?saveEveryTen_paused; cbn;
    (split; [reflexivity | congruence]).
Qed.

(** One run of the callback on a running session, seen on the whole world:
    either the session goes on, with the same interval, or the callback
    announced completion and called [stopBackgroundTimer]. *)
Lemma tick_running_world w ts :
  globalTimerState w = Some ts → globalIsPaused w = false →
  match timerAfterTick ts with
  | Some ts' =>
      globalTimerState (tick w) = Some ts'
      ∧ globalTimerInterval (tick w) = globalTimerInterval w
      ∧ liveIntervals (tick w) = liveIntervals w
  | None =>
      ∃ ts1, tick w = stopBackgroundTimer
                        (notify (title sessionComplete) (message sessionComplete)
                           (set_globalTimerState (Some ts1) w))
  end.
Proof.
  intros Hts Hp. unfold tick, timerAfterTick. rewrite Hts, Hp. cbn zeta.
  repeat case_match; simplify_eq; try (eexists; reflexivity);
    rewrite ?saveEveryTen_timer, ?saveEveryTen_interval, ?saveEveryTen_live;
    repeat split; reflexivity.
Qed.

Lemma filter_own_handle (h : nat) : filter (λ h', h' ≠ h) [h] = [].
Proof. rewrite filter_cons. case_decide; [congruence | reflexivity]. Qed.

Lemma stop_worldInv w :
  liveIntervals w = option_list (globalTimerInterval w) →
  worldInv (stopBackgroundTimer w).
Proof.
  intros Ht. unfold stopBackgroundTimer.
  destruct (globalTimerInterval w) as [h|] eqn:E; cbn in *.
  - split; cbn; [rewrite Ht; apply filter_own_handle | done | done].
  - split; cbn; [rewrite E; done | done | done].
Qed.

Lemma stop_idle w : globalTimerState (stopBackgroundTimer w) = None.
Proof. unfold stopBackgroundTimer. case_match; reflexivity. Qed.

Lemma timerAfterTick_inv ts ts' :
  timerInv ts → timerAfterTick ts = Some ts' → timerInv ts'.
Proof.
  intros [Hs Hg Hb Hlo Hhi Ht Hbr]. unfold timerAfterTick, breakHasSuccessor in *.
  cbn. intros H.
  repeat case_match; simplify_eq; split; cbn; unfold breakHasSuccessor; cbn;
    try lia; try congruence.
  exact Hbr.
Qed.

Lemma start_timerInv now t s g w ts :
  validConfig t s g →
  globalTimerState (startSegmentedTimer now t s g w) = Some ts →
  timerInv ts.
Proof.
  intros (Ht & Hs & Hlt & Hg) H. cbn in H. simplify_eq.
  split; cbn; try lia.
  - apply Z.div_pos; lia.
  - apply Z.div_pos; lia.
  - intros ?; discriminate.
Qed.

Lemma start_worldInv now t s g w :
  validConfig t s g → worldInv w → worldInv (startSegmentedTimer now t s g w).
Proof.
  intros Hv [Ht Hh Hi]. split.
  - unfold startSegmentedTimer.
    destruct (globalTimerInterval w) as [h|]; cbn -[filter list_filter];
      rewrite Ht; cbn -[filter list_filter];
      [rewrite filter_own_handle|]; reflexivity.
  - cbn. discriminate.
  - intros ts. apply start_timerInv. exact Hv.
Qed.

Lemma tick_worldInv w : worldInv w → worldInv (tick w).
Proof.
  intros Hw.
  destruct (globalTimerState w) as [ts|] eqn:Hts; [|rewrite tick_idle; done].
  destruct (globalIsPaused w) eqn:Hp; [rewrite tick_paused; done|].
  pose proof (tick_running_world w ts Hts Hp) as H.
  destruct (timerAfterTick ts) as [ts'|] eqn:E.
  - destruct H as (H1 & H2 & H3). destruct Hw as [Ht Hh Hi]. split.
    + rewrite H2, H3. exact Ht.
    + rewrite H2. intros HN. rewrite (Hh HN) in Hts. discriminate.
    + intros ts2. rewrite H1. intros [= <-].
      eapply timerAfterTick_inv; [apply Hi; exact Hts | exact E].
  - destruct H as [ts1 ->]. apply stop_worldInv. cbn. apply Hw.
Qed.

Lemma pause_worldInv w : worldInv w → worldInv (pauseBackgroundTimer w).
Proof. intros [Ht Hh Hi]. split; cbn; assumption. Qed.

Lemma resume_worldInv w : worldInv w → worldInv (resumeBackgroundTimer w).
Proof. intros [Ht Hh Hi]. split; cbn; assumption. Qed.

(** A second of wall-clock time is one run of the callback: the script
    never has more than one live interval, and none without a session. *)
Lemma elapseSecond_tick w : worldInv w → elapseSecond w = tick w.
Proof.
  intros [Ht Hh Hi]. unfold elapseSecond. rewrite Ht.
  destruct (globalTimerInterval w) as [h|] eqn:E; cbn.
  - rewrite Ht. cbn. rewrite bool_decide_eq_true_2; [reflexivity | set_solver].
  - symmetry. apply tick_idle. apply Hh. reflexivity.
Qed.

Lemma initial_worldInv : worldInv initialWorld.
Proof. split; cbn; [reflexivity | reflexivity | discriminate]. Qed.

Lemma reachable_worldInv w : reachable w → worldInv w.
Proof.
  induction 1 as [|now msg w Hr IH Hv|w Hr IH].
  - apply initial_worldInv.
  - destruct msg; cbn.
    + apply start_worldInv; assumption.
    + apply pause_worldInv; assumption.
    + apply resume_worldInv; assumption.
    + apply stop_worldInv, IH.
    + assumption.
    + assumption.
  - rewrite elapseSecond_tick by assumption. apply tick_worldInv, IH.
Qed.

(** *** Start *)

(** C1. For a valid configuration the timer object created by
    [startSegmentedTimer] has [blocks = floor(total / (segment + grace))]
    and [remainingTime = total mod (segment + grace)], hence
    [blocks * fullBlock + remainingTime = total] with
    [0 <= remainingTime < fullBlock]; it starts at block 0 in the work phase
    with [segment * 60] seconds on the clock, and GET_TIMER_STATE sent
    right after the start returns exactly this object, unpaused. *)
Theorem start_creates_timer now now' t s g w :
  validConfig t s g →
  ∃ ts,
    onMessage now' GET_TIMER_STATE (snd (onMessage now (START_TIMER t s g) w))
      = (Some (Snapshot (Some ts) false), startSegmentedTimer now t s g w)
    ∧ queryState (startSegmentedTimer now t s g w) = (Some ts, false)
    ∧ fullBlock ts = s + g
    ∧ blocks ts = t `div` (s + g)
    ∧ remainingTime ts = t `mod` (s + g)
    ∧ blocks ts * fullBlock ts + remainingTime ts = t
    ∧ 0 ≤ remainingTime ts < fullBlock ts
    ∧ currentBlock ts = 0
    ∧ isWorkTime ts = true
    ∧ currentTime ts = s * 60.
Proof.
  intros (Ht & Hs & Hlt & Hg).
  assert (Hrem : Z.rem t (s + g) = t `mod` (s + g))
    by (apply Z.rem_mod_nonneg; lia).
  eexists. split; [reflexivity|]. split; [reflexivity|]. cbn.
  rewrite Hrem.
  pose proof (Z.div_mod t (s + g) ltac:(lia)) as Hdm.
  pose proof (Z.mod_pos_bound t (s + g) ltac:(lia)) as Hb.
  repeat split; try reflexivity; lia.
Qed.

Lemma start_creates_timer_witness :
  validConfig 50 20 5
  ∧ ∃ ts,
    onMessage 7 GET_TIMER_STATE (snd (onMessage 3 (START_TIMER 50 20 5) initialWorld))
      = (Some (Snapshot (Some ts) false), startSegmentedTimer 3 50 20 5 initialWorld)
    ∧ queryState (startSegmentedTimer 3 50 20 5 initialWorld) = (Some ts, false)
    ∧ fullBlock ts = 20 + 5
    ∧ blocks ts = 50 `div` (20 + 5)
    ∧ remainingTime ts = 50 `mod` (20 + 5)
    ∧ blocks ts * fullBlock ts + remainingTime ts = 50
    ∧ 0 ≤ remainingTime ts < fullBlock ts
    ∧ currentBlock ts = 0
    ∧ isWorkTime ts = true
    ∧ currentTime ts = 20 * 60.
Proof.
  assert (H : validConfig 50 20 5) by (unfold validConfig; lia).
  split; [exact H | exact (start_creates_timer 3 7 50 20 5 initialWorld H)].
Defined.

(** The configurations named in the specification. *)
Example start_50_20_5 now :
  queryState (startSegmentedTimer now 50 20 5 initialWorld)
  = (Some (mkTimerState 50 20 5 25 2 0 0 1200 true now), false).
Proof. reflexivity. Qed.

Example start_100_20_5 now :
  queryState (startSegmentedTimer now 100 20 5 initialWorld)
  = (Some (mkTimerState 100 20 5 25 4 0 0 1200 true now), false).
Proof. reflexivity. Qed.

Example start_95_20_5 now :
  queryState (startSegmentedTimer now 95 20 5 initialWorld)
  = (Some (mkTimerState 95 20 5 25 3 20 0 1200 true now), false).
Proof. reflexivity. Qed.

(** *** Invariants of the reachable worlds *)

Lemma reachable_seconds n w : reachable w → reachable (Nat.iter n elapseSecond w).
Proof. intros H. induction n; cbn; [assumption | apply reachable_second, IHn]. Qed.

Lemma start_replaces now t s g w :
  globalTimerState (startSegmentedTimer now t s g w)
  = globalTimerState (startSegmentedTimer now t s g initialWorld).
Proof. reflexivity. Qed.

(** C4. In every world reachable from the freshly loaded script by control
    messages (starts carrying valid configurations) and elapsed seconds,
    the timer object returned by GET_TIMER_STATE, when there is one, has
    [currentBlock <= blocks] and [currentTime >= 0]. There is one slot for
    the timer and at most one live interval driving it; a new start puts a
    fresh timer object, which does not depend on the previous one, in that
    slot and leaves exactly one live interval. *)
Theorem reachable_timer_bounds w :
  reachable w →
  (∀ ts paused, queryState w = (Some ts, paused) →
     currentBlock ts ≤ blocks ts ∧ 0 ≤ currentTime ts)
  ∧ (length (liveIntervals w) ≤ 1)%nat
  ∧ (∀ now t s g,
       globalTimerState (startSegmentedTimer now t s g w)
       = globalTimerState (startSegmentedTimer now t s g initialWorld)
       ∧ length (liveIntervals (startSegmentedTimer now t s g w)) = 1%nat).
Proof.
  intros Hr. pose proof (reachable_worldInv w Hr) as [Ht Hh Hi].
  split; [|split].
  - intros ts paused [= H _]. destruct (Hi ts H). split; assumption.
  - rewrite Ht. destruct (globalTimerInterval w); cbn; lia.
  - intros now t s g. split; [reflexivity|].
    unfold startSegmentedTimer.
    destruct (globalTimerInterval w) as [h|]; cbn -[filter list_filter];
      rewrite Ht; cbn -[filter list_filter];
      [rewrite filter_own_handle|]; reflexivity.
Qed.

Lemma valid_4_1_1 : validMessage (START_TIMER 4 1 1).
Proof. unfold validMessage, validConfig. lia. Defined.

Lemma reachable_timer_bounds_witness :
  let w := Nat.iter 60 elapseSecond (snd (onMessage 0 (START_TIMER 4 1 1) initialWorld)) in
  reachable w
  ∧ queryState w = (Some (mkTimerState 4 1 1 2 2 0 0 60 false 0), false)
  ∧ (∀ ts paused, queryState w = (Some ts, paused) →
       currentBlock ts ≤ blocks ts ∧ 0 ≤ currentTime ts)
  ∧ (length (liveIntervals w) ≤ 1)%nat
  ∧ (∀ now t s g,
       globalTimerState (startSegmentedTimer now t s g w)
       = globalTimerState (startSegmentedTimer now t s g initialWorld)
       ∧ length (liveIntervals (startSegmentedTimer now t s g w)) = 1%nat).
Proof.
  intros w.
  assert (Hr : reachable w).
  { apply reachable_seconds.
    exact (reachable_message 0 (START_TIMER 4 1 1) initialWorld
             reachable_init valid_4_1_1). }
  split; [exact Hr|]. split; [vm_compute; reflexivity|].
  exact (reachable_timer_bounds w Hr).
Defined.

(** *** Completion *)

Lemma stop_notifications w :
  notifications (stopBackgroundTimer w) = notifications w.
Proof. unfold stopBackgroundTimer. case_match; reflexivity. Qed.

(** A session that completes does so on a tick of a work phase. *)
Lemma timerAfterTick_none_work ts :
  breakHasSuccessor ts → timerAfterTick ts = None → isWorkTime ts = true.
Proof.
  unfold breakHasSuccessor, timerAfterTick. cbn. intros Hbr H.
  destruct (isWorkTime ts) eqn:E; [reflexivity|].
  destruct (Hbr eq_refl); repeat case_match; simplify_eq; lia.
Qed.

(** C3. In a reachable world with a live timer object:
    with [remainingTime = 0], the second in which the work phase of the
    last regular block ([currentBlock = blocks - 1]) runs out announces
    "Session Complete" and leaves the scheduler idle, without a break;
    whenever an elapsed second ends the session, the session was in a work
    phase and "Session Complete" is what was announced; and a break is only
    ever running when a work phase follows it (another regular block, or
    the tail after the last one). *)
Theorem session_ends_on_work w ts :
  reachable w →
  globalTimerState w = Some ts →
  (globalIsPaused w = false → remainingTime ts = 0 → isWorkTime ts = true →
   currentBlock ts = blocks ts - 1 → currentTime ts = 1 →
     globalTimerState (elapseSecond w) = None
     ∧ notifications (elapseSecond w) = sessionComplete :: notifications w)
  ∧ (globalTimerState (elapseSecond w) = None →
     isWorkTime ts = true
     ∧ notifications (elapseSecond w) = sessionComplete :: notifications w)
  ∧ (isWorkTime ts = false →
     currentBlock ts < blocks ts - 1
     ∨ (currentBlock ts = blocks ts - 1 ∧ 0 < remainingTime ts)).
Proof.
  intros Hr Hts. pose proof (reachable_worldInv w Hr) as Hw.
  rewrite (elapseSecond_tick w Hw).
  pose proof (inv_timer w Hw ts Hts) as Hi.
  assert (Hend : globalIsPaused w = false → timerAfterTick ts = None →
                 globalTimerState (tick w) = None
                 ∧ notifications (tick w) = sessionComplete :: notifications w).
  { intros Hp Hn. pose proof (tick_running_world w ts Hts Hp) as H.
    rewrite Hn in H. destruct H as [ts1 ->].
    rewrite stop_idle, stop_notifications. split; reflexivity. }
  split; [|split].
  - intros Hp H0 Hwk Hcb Hct. apply Hend; [assumption|].
    unfold timerAfterTick. cbn. rewrite Hct, Hwk, H0, Hcb. cbn.
    rewrite Z.ltb_irrefl, andb_false_r. reflexivity.
  - intros Hnone.
    destruct (globalIsPaused w) eqn:Hp.
    { rewrite tick_paused in Hnone by assumption. congruence. }
    destruct (tick_running w ts Hts Hp) as [Hgo _].
    rewrite Hgo in Hnone. split.
    + apply timerAfterTick_none_work; [apply Hi | assumption].
    + apply Hend; [reflexivity | assumption].
  - apply Hi.
Qed.

Lemma session_ends_on_work_witness :
  let w := Nat.iter 179 elapseSecond (snd (onMessage 0 (START_TIMER 4 1 1) initialWorld)) in
  let ts := mkTimerState 4 1 1 2 2 0 1 1 true 0 in
  reachable w
  ∧ globalTimerState w = Some ts
  ∧ (globalIsPaused w = false ∧ remainingTime ts = 0 ∧ isWorkTime ts = true
     ∧ currentBlock ts = blocks ts - 1 ∧ currentTime ts = 1)
  ∧ globalTimerState (elapseSecond w) = None
  ∧ notifications (elapseSecond w) = sessionComplete :: notifications w
  ∧ isWorkTime ts = true.
Proof.
  intros w ts.
  assert (Hr : reachable w).
  { apply reachable_seconds.
    exact (reachable_message 0 (START_TIMER 4 1 1) initialWorld
             reachable_init valid_4_1_1). }
  assert (Hts : globalTimerState w = Some ts) by (vm_compute; reflexivity).
  assert (Hp : globalIsPaused w = false) by (vm_compute; reflexivity).
  destruct (session_ends_on_work w ts Hr Hts) as (H1 & H2 & _).
  destruct (H1 Hp eq_refl eq_refl eq_refl eq_refl) as [Hnone Hnote].
  split; [exact Hr|]. split; [exact Hts|].
  split; [repeat split; exact Hp|].
  split; [exact Hnone|]. split; [exact Hnote|].
  exact (proj1 (H2 Hnone)).
Defined.

(** *** Pause and resume *)

Lemma iter_fixed {A} (f : A → A) (x : A) n : f x = x → Nat.iter n f x = x.
Proof.
  intros H. induction n as [|n IH]; [reflexivity|].
  change (f (Nat.iter n f x) = x). rewrite IH. exact H.
Qed.

Lemma elapseSecond_paused w : globalIsPaused w = true → elapseSecond w = w.
Proof.
  intros Hp. unfold elapseSecond.
  induction (liveIntervals w) as [|h l IH]; cbn; [reflexivity|].
  rewrite tick_paused by assumption.
  destruct (bool_decide _); exact IH.
Qed.

(** C5. While the session is paused, any number of runs of the callback
    (and any number of elapsed seconds) leave the whole world, the timer
    object included, as it is. Resuming afterwards changes the paused flag
    (and stores the snapshot it is asked to store) and nothing else, and
    the first tick after it continues from the frozen timer object exactly
    as a tick of the unpaused scheduler would. *)
Theorem paused_ticks_freeze w n :
  globalIsPaused w = true →
  Nat.iter n tick w = w
  ∧ Nat.iter n elapseSecond w = w
  ∧ (let w' := resumeBackgroundTimer (Nat.iter n tick w) in
     globalTimerState w' = globalTimerState w
     ∧ globalIsPaused w' = false
     ∧ globalTimerInterval w' = globalTimerInterval w
     ∧ liveIntervals w' = liveIntervals w
     ∧ notifications w' = notifications w
     ∧ storage w' = <["isPaused" := StoredFlag false]>
                      (<["currentTimer" := StoredTimer (globalTimerState w)]>
                         (storage w))
     ∧ globalTimerState (tick w') = globalTimerState w ≫= timerAfterTick).
Proof.
  intros Hp.
  assert (H1 : Nat.iter n tick w = w) by (apply iter_fixed, tick_paused, Hp).
  split; [exact H1|]. split; [apply iter_fixed, elapseSecond_paused, Hp|].
  rewrite H1. cbn zeta. repeat split.
  destruct (globalTimerState w) as [ts|] eqn:Hts; cbn.
  - apply tick_running; [exact Hts | reflexivity].
  - rewrite tick_idle; cbn; assumption.
Qed.

Lemma paused_ticks_freeze_witness :
  let w := pauseBackgroundTimer
             (Nat.iter 10 tick (startSegmentedTimer 0 50 20 5 initialWorld)) in
  globalIsPaused w = true
  ∧ Nat.iter 25 tick w = w
  ∧ globalTimerState (resumeBackgroundTimer (Nat.iter 25 tick w))
    = Some (mkTimerState 50 20 5 25 2 0 0 1190 true 0)
  ∧ globalTimerState (tick (resumeBackgroundTimer (Nat.iter 25 tick w)))
    = Some (mkTimerState 50 20 5 25 2 0 0 1189 true 0).
Proof.
  intros w.
  assert (Hp : globalIsPaused w = true) by reflexivity.
  destruct (paused_ticks_freeze w 25 Hp) as (H1 & _ & H3 & _ & _ & _ & _ & _ & H4).
  split; [exact Hp|]. split; [exact H1|].
  split; [rewrite H3; vm_compute; reflexivity|].
  rewrite H4. vm_compute. reflexivity.
Defined.

(** *** Commands while idle, and rejected starts *)

(** The scheduler itself does not validate: it is the start handler of the
    popup that rejects a bad configuration before any message is sent. *)
Example scheduler_accepts_any_start :
  fst (onMessage 0 (START_TIMER 0 0 (-1)) initialWorld) = Some (Ack true)
  ∧ globalTimerState (snd (onMessage 0 (START_TIMER 0 0 (-1)) initialWorld))
    = Some (mkTimerState 0 0 (-1) (-1) 0 0 0 0 true 0).
Proof. split; reflexivity. Qed.

(** An unreadable grace field is not caught by the handler's tests. *)
Example nan_grace_passes_validation :
  Popup.startBtnClick (Some 50) (Some 20) None = Popup.PostedNaNGrace 50 20.
Proof. reflexivity. Qed.

(** C6, as stated, fails: PAUSE_TIMER received while idle is acknowledged
    but is not a no-op, GET_TIMER_STATE then reports [isPaused: true]. *)
Lemma pause_while_idle_is_observable :
  globalTimerState initialWorld = None
  ∧ fst (onMessage 0 PAUSE_TIMER initialWorld) = Some (Ack true)
  ∧ queryState initialWorld = (None, false)
  ∧ queryState (snd (onMessage 0 PAUSE_TIMER initialWorld)) = (None, true)
  ∧ queryState (snd (onMessage 0 PAUSE_TIMER initialWorld))
    ≠ queryState initialWorld.
Proof. repeat split; discriminate. Qed.

(** C6, amended. A configuration with a non-positive total or segment, a
    negative grace or a segment not below the total is rejected by the
    popup's start handler, which alerts and sends no START_TIMER, so the
    scheduler's world does not change, whether a session is running or
    not. While idle, PAUSE_TIMER, RESUME_TIMER and STOP_TIMER are
    acknowledged with success, keep the timer absent and announce nothing;
    PAUSE_TIMER sets the paused flag reported by GET_TIMER_STATE,
    RESUME_TIMER and STOP_TIMER clear it, so the latter two leave the
    reported state as it was when the flag was clear. *)
Theorem rejected_start_and_idle_commands t s g now w :
  (¬ validConfig t s g →
     ∃ text, Popup.startBtnClick (Some t) (Some s) (Some g) = Popup.Alert text
             ∧ Popup.deliverClick now
                 (Popup.startBtnClick (Some t) (Some s) (Some g)) w = Some w)
  ∧ (globalTimerState w = None →
     (∀ msg, msg = PAUSE_TIMER ∨ msg = RESUME_TIMER ∨ msg = STOP_TIMER →
        fst (onMessage now msg w) = Some (Ack true)
        ∧ globalTimerState (snd (onMessage now msg w)) = None
        ∧ notifications (snd (onMessage now msg w)) = notifications w)
     ∧ queryState (snd (onMessage now PAUSE_TIMER w)) = (None, true)
     ∧ queryState (snd (onMessage now RESUME_TIMER w)) = (None, false)
     ∧ queryState (snd (onMessage now STOP_TIMER w)) = (None, false)
     ∧ (globalIsPaused w = false →
          queryState (snd (onMessage now RESUME_TIMER w)) = queryState w
          ∧ queryState (snd (onMessage now STOP_TIMER w)) = queryState w)).
Proof.
  split; [intros Hbad | intros Hidle; split; [|split; [|split; [|split]]]].
  - unfold Popup.startBtnClick.
    destruct (Z.eqb_spec t 0), (Z.leb_spec t 0); cbn; try (eexists; split; reflexivity).
    destruct (Z.eqb_spec s 0), (Z.leb_spec s 0); cbn; try (eexists; split; reflexivity).
    destruct (Z.ltb_spec g 0); cbn; try (eexists; split; reflexivity).
    destruct (Z.leb_spec t s); cbn; try (eexists; split; reflexivity).
    exfalso. apply Hbad. unfold validConfig. lia.
  - intros msg [-> | [-> | ->]]; cbn [onMessage fst snd];
      rewrite ?stop_idle, ?stop_notifications; repeat split; exact Hidle.
  - unfold queryState. cbn. rewrite Hidle. reflexivity.
  - unfold queryState. cbn. rewrite Hidle. reflexivity.
  - unfold queryState. cbn [onMessage fst snd]. rewrite stop_idle.
    unfold stopBackgroundTimer. case_match; reflexivity.
  - intros Hp. unfold queryState. cbn [onMessage fst snd].
    rewrite stop_idle, Hidle, Hp.
    split; [cbn; rewrite Hidle; reflexivity|].
    unfold stopBackgroundTimer. case_match; reflexivity.
Qed.

Lemma rejected_start_and_idle_commands_witness :
  let running := Nat.iter 10 tick (startSegmentedTimer 0 50 20 5 initialWorld) in
  ¬ validConfig 20 20 5
  ∧ globalTimerState running = Some (mkTimerState 50 20 5 25 2 0 0 1190 true 0)
  ∧ Popup.startBtnClick (Some 20) (Some 20) (Some 5)
    = Popup.Alert "Segment length must be less than total time"
  ∧ Popup.deliverClick 11 (Popup.startBtnClick (Some 20) (Some 20) (Some 5)) running
    = Some running
  ∧ globalTimerState initialWorld = None
  ∧ queryState (snd (onMessage 0 PAUSE_TIMER initialWorld)) = (None, true)
  ∧ queryState (snd (onMessage 0 STOP_TIMER initialWorld)) = queryState initialWorld.
Proof.
  intros running.
  assert (Hbad : ¬ validConfig 20 20 5) by (unfold validConfig; lia).
  assert (Hidle : globalTimerState initialWorld = None) by reflexivity.
  destruct (proj1 (rejected_start_and_idle_commands 20 20 5 11 running) Hbad)
    as (text & _ & Hsame).
  destruct (proj2 (rejected_start_and_idle_commands 20 20 5 0 initialWorld) Hidle)
    as (_ & Hpause & _ & _ & Hclear).
  split; [exact Hbad|]. split; [vm_compute; reflexivity|]. split; [reflexivity|].
  split; [exact Hsame|]. split; [exact Hidle|].
  split; [exact Hpause|]. exact (proj2 (Hclear eq_refl)).
Defined.

(** *** Length of a session *)

Lemma ticksToGo_positive ts : runInv ts → 1 ≤ ticksToGo ts.
Proof.
  intros [Hs Hg Ht Hw Hbr]. unfold ticksToGo, ticksFromBlock, breakTicks.
  unfold breakHasSuccessor in Hbr.
  destruct (isWorkTime ts).
  - specialize (Hw eq_refl).
    destruct (Z.ltb_spec (currentBlock ts) (blocks ts)); [|lia].
    assert (0 ≤ (blocks ts - 1 - currentBlock ts)
                * (segment ts * 60 + Z.max 1 (grace ts * 60)))
      by (apply Z.mul_nonneg_nonneg; lia).
    destruct (0 <? remainingTime ts) eqn:E; lia.
  - destruct (Hbr eq_refl) as [H|[H1 H2]].
    + destruct (Z.ltb_spec (currentBlock ts + 1) (blocks ts)); [|lia].
      assert (0 ≤ (blocks ts - 1 - (currentBlock ts + 1))
                  * (segment ts * 60 + Z.max 1 (grace ts * 60)))
        by (apply Z.mul_nonneg_nonneg; lia).
      destruct (0 <? remainingTime ts) eqn:E; lia.
    + destruct (Z.ltb_spec (currentBlock ts + 1) (blocks ts)); lia.
Qed.

(** Each run of the callback uses up exactly one of the ticks the session
    has to go, and the session completes on the last of them. *)
Lemma timerAfterTick_countdown ts :
  runInv ts →
  match timerAfterTick ts with
  | Some ts' => runInv ts' ∧ ticksToGo ts' = ticksToGo ts - 1
  | None => ticksToGo ts = 1
  end.
Proof.
  intros [Hs Hg Ht Hw Hbr].
  unfold timerAfterTick, ticksToGo, ticksFromBlock, breakTicks,
    breakHasSuccessor in *.
  cbn.
  destruct (Z.leb_spec (currentTime ts - 1) 0) as [H0|H0].
  - destruct (isWorkTime ts) eqn:Ew.
    + specialize (Hw eq_refl).
      destruct (Z.ltb_spec (currentBlock ts) (blocks ts - 1)) as [H1|H1]; cbn.
      { split; [split; cbn; unfold breakHasSuccessor; cbn; try lia; congruence|].
        destruct (Z.ltb_spec (currentBlock ts) (blocks ts)); [|lia].
        destruct (Z.ltb_spec (currentBlock ts + 1) (blocks ts)); [|lia].
        destruct (0 <? remainingTime ts); lia. }
      destruct (Z.eqb_spec (currentBlock ts) (blocks ts - 1)) as [H2|H2]; cbn.
      * destruct (Z.ltb_spec 0 (remainingTime ts)) as [H3|H3]; cbn.
        { split; [split; cbn; unfold breakHasSuccessor; cbn; try lia; congruence|].
          destruct (Z.ltb_spec (currentBlock ts) (blocks ts)); [|lia].
          destruct (Z.ltb_spec (currentBlock ts + 1) (blocks ts)); lia. }
        destruct (Z.ltb_spec (currentBlock ts) (blocks ts)); lia.
      * destruct (Z.ltb_spec (currentBlock ts) (blocks ts)); lia.
    + destruct (Hbr eq_refl) as [H|[H1 H2]].
      * destruct (Z.leb_spec (blocks ts) (currentBlock ts + 1)); [lia|].
        split; [split; cbn; unfold breakHasSuccessor; cbn; try lia; congruence|].
        cbn. destruct (Z.ltb_spec (currentBlock ts + 1) (blocks ts)); lia.
      * destruct (Z.leb_spec (blocks ts) (currentBlock ts + 1)); [|lia].
        destruct (Z.ltb_spec 0 (remainingTime ts)); [|lia].
        split; [split; cbn; unfold breakHasSuccessor; cbn; try lia; congruence|].
        cbn. destruct (Z.ltb_spec (currentBlock ts + 1) (blocks ts)); lia.
  - split; [split; cbn; unfold breakHasSuccessor; cbn; try lia; exact Hbr|].
    cbn. repeat case_match; lia.
Qed.

Lemma iter_shift {A} (f : A → A) (x : A) n :
  Nat.iter (S n) f x = Nat.iter n f (f x).
Proof.
  induction n as [|n IH]; [reflexivity|].
  change (f (Nat.iter (S n) f x) = f (Nat.iter n f (f x))). rewrite IH. reflexivity.
Qed.

(** A running session with [n] seconds to go is live for [n] ticks and
    complete from then on. *)
Lemma run_to_completion n : ∀ w ts,
  globalTimerState w = Some ts → globalIsPaused w = false →
  runInv ts → ticksToGo ts = Z.of_nat n →
  (∀ k, (k < n)%nat → globalTimerState (Nat.iter k tick w) ≠ None)
  ∧ globalTimerState (Nat.iter n tick w) = None.
Proof.
  induction n as [|n IH]; intros w ts Hts Hp Hinv Hgo.
  { pose proof (ticksToGo_positive ts Hinv). lia. }
  destruct (tick_running w ts Hts Hp) as [Hnext Hp'].
  pose proof (timerAfterTick_countdown ts Hinv) as Hstep.
  destruct (timerAfterTick ts) as [ts'|] eqn:E.
  - destruct Hstep as [Hinv' Hgo'].
    destruct (IH (tick w) ts' Hnext Hp' Hinv' ltac:(lia)) as [Hlive Hdone].
    split.
    + intros [|k] Hk; [cbn; congruence|].
      rewrite iter_shift. apply Hlive. lia.
    + rewrite iter_shift. exact Hdone.
  - assert (n = 0%nat) as -> by lia. split.
    + intros k Hk. assert (k = 0%nat) as -> by lia. cbn. congruence.
    + exact Hnext.
Qed.

Lemma iter_idle n w : globalTimerState w = None → Nat.iter n tick w = w.
Proof. intros H. apply iter_fixed, tick_idle, H. Qed.

Lemma iter_add {A} (f : A → A) (x : A) n m :
  Nat.iter (n + m) f x = Nat.iter n f (Nat.iter m f x).
Proof.
  induction n as [|n IH]; [reflexivity|].
  change (f (Nat.iter (n + m) f x) = f (Nat.iter n f (Nat.iter m f x))).
  rewrite IH. reflexivity.
Qed.

(** The session started from a valid configuration is live for exactly
    [sessionTicks total segment grace] ticks, idle after the last of them,
    and no further tick changes anything. *)
Lemma session_length now t s g w :
  validConfig t s g →
  ∃ n, Z.of_nat n = sessionTicks t s g
       ∧ (∀ k, (k < n)%nat →
            globalTimerState (Nat.iter k tick (startSegmentedTimer now t s g w)) ≠ None)
       ∧ globalTimerState (Nat.iter n tick (startSegmentedTimer now t s g w)) = None
       ∧ (∀ k, (n ≤ k)%nat →
            Nat.iter k tick (startSegmentedTimer now t s g w)
            = Nat.iter n tick (startSegmentedTimer now t s g w)).
Proof.
  intros (Ht & Hs & Hlt & Hg).
  set (w0 := startSegmentedTimer now t s g w).
  set (ts0 := mkTimerState t s g (s + g) (t `div` (s + g)) (Z.rem t (s + g))
                0 (s * 60) true now).
  assert (Hts : globalTimerState w0 = Some ts0) by reflexivity.
  assert (Hp : globalIsPaused w0 = false) by reflexivity.
  assert (Hinv : runInv ts0).
  { split; cbn; try lia. intros ?; discriminate. }
  assert (Hgo : ticksToGo ts0 = sessionTicks t s g).
  { unfold ticksToGo, ticksFromBlock, breakTicks, sessionTicks. cbn.
    repeat case_match; lia. }
  pose proof (ticksToGo_positive ts0 Hinv) as Hge.
  set (n := Z.to_nat (ticksToGo ts0)).
  destruct (run_to_completion n w0 ts0 Hts Hp Hinv ltac:(lia)) as [Hlive Hdone].
  exists n. split; [lia|]. split; [exact Hlive|]. split; [exact Hdone|].
  intros k Hk. replace k with ((k - n) + n)%nat by lia.
  rewrite iter_add. apply iter_idle, Hdone.
Qed.

(** The session fits in [total * 60] ticks exactly when the grace period
    is positive; without one it takes a tick more for each break. *)
Lemma sessionTicks_bound t s g :
  validConfig t s g → sessionTicks t s g ≤ t * 60 ↔ 0 < g.
Proof.
  intros (Ht & Hs & Hlt & Hg). unfold sessionTicks.
  assert (Hrem : Z.rem t (s + g) = t `mod` (s + g))
    by (apply Z.rem_mod_nonneg; lia).
  rewrite Hrem.
  pose proof (Z.div_mod t (s + g) ltac:(lia)) as Hdm.
  pose proof (Z.mod_pos_bound t (s + g) ltac:(lia)) as Hb.
  assert (Hq : 0 ≤ t `div` (s + g)) by (apply Z.div_pos; lia).
  destruct (Z.eq_dec g 0) as [->|Hpos].
  - rewrite Z.add_0_r in *. replace (Z.max 1 (0 * 60)) with 1 by lia.
    assert (1 ≤ t `div` s).
    { destruct (Z.eq_dec (t `div` s) 0) as [E|]; [|lia].
      apply Z.div_small_iff in E; lia. }
    destruct (Z.ltb_spec 0 (t `div` s)); [|lia].
    destruct (Z.ltb_spec 0 (t `mod` s)); [lia|].
    assert (2 ≤ t `div` s) by nia. lia.
  - replace (Z.max 1 (g * 60)) with (g * 60) by lia.
    destruct (Z.ltb_spec 0 (t `div` (s + g))); [|lia].
    destruct (Z.ltb_spec 0 (t `mod` (s + g))); lia.
Qed.

(** For a valid configuration with a positive grace period the session is
    live for a number of ticks that is at most [total * 60], becomes idle
    on the next one and stays as it is: after [total * 60] ticks it is
    idle. *)
Lemma positive_grace_session now t s g w :
  validConfig t s g → 0 < g →
  ∃ n, Z.of_nat n ≤ t * 60
       ∧ (∀ k, (k < n)%nat →
            globalTimerState (Nat.iter k tick (startSegmentedTimer now t s g w)) ≠ None)
       ∧ (∀ k, (n ≤ k)%nat →
            Nat.iter k tick (startSegmentedTimer now t s g w)
            = Nat.iter n tick (startSegmentedTimer now t s g w))
       ∧ globalTimerState
           (Nat.iter (Z.to_nat (t * 60)) tick (startSegmentedTimer now t s g w)) = None.
Proof.
  intros Hv Hpos.
  destruct (session_length now t s g w Hv) as (n & Hn & Hlive & Hdone & Hstay).
  pose proof (proj2 (sessionTicks_bound t s g Hv) Hpos) as Hle.
  exists n. split; [lia|]. split; [exact Hlive|]. split; [exact Hstay|].
  rewrite Hstay by lia. exact Hdone.
Qed.

(** Without a grace period the session of every valid configuration is
    still live after [total * 60] ticks. *)
Lemma zero_grace_session now t s w :
  validConfig t s 0 →
  globalTimerState
    (Nat.iter (Z.to_nat (t * 60)) tick (startSegmentedTimer now t s 0 w)) ≠ None.
Proof.
  intros Hv.
  destruct (session_length now t s 0 w Hv) as (n & Hn & Hlive & _).
  apply Hlive.
  pose proof (sessionTicks_bound t s 0 Hv) as Hb.
  destruct Hv as (Ht & _). 
  assert (¬ sessionTicks t s 0 ≤ t * 60) by (rewrite Hb; lia). lia.
Qed.

(** C2 at a configuration with no grace period: total 2, segment 1,
    grace 0 is valid, yet after [2 * 60] ticks the session is still in its
    second work segment with one second left, and only tick 121 completes
    it. The break of zero minutes entered after the first segment lasts one
    tick. *)
Theorem zero_grace_overruns_total now :
  let w := startSegmentedTimer now 2 1 0 initialWorld in
  validConfig 2 1 0
  ∧ queryState (Nat.iter 60 tick w)
    = (Some (mkTimerState 2 1 0 1 2 0 0 0 false now), false)
  ∧ queryState (Nat.iter 61 tick w)
    = (Some (mkTimerState 2 1 0 1 2 0 1 60 true now), false)
  ∧ queryState (Nat.iter (2 * 60) tick w)
    = (Some (mkTimerState 2 1 0 1 2 0 1 1 true now), false)
  ∧ queryState (Nat.iter 121 tick w) = (None, false).
Proof.
  cbn zeta. split; [unfold validConfig; lia|].
  repeat split; vm_compute; reflexivity.
Qed.

End SchedulerProps.

(* ===================================================================== *)
(** ** Properties of [length] and [trim] *)
(* ===================================================================== *)

Module TextProps.
Import Text.

Lemma append_cons c a b : String c a +:+ b = String c (a +:+ b).
Proof. reflexivity. Qed.

Lemma append_empty b : "" +:+ b = b.
Proof. reflexivity. Qed.

Lemma append_nil_r a : a +:+ "" = a.
Proof. induction a as [|c a IH]; [reflexivity|]. rewrite append_cons, IH. reflexivity. Qed.

Lemma append_assoc a b c : (a +:+ b) +:+ c = a +:+ (b +:+ c).
Proof.
  induction a as [|x a IH]; [reflexivity|]. rewrite !append_cons, IH. reflexivity.
Qed.

Lemma length_app a b : String.length (a +:+ b) = (String.length a + String.length b)%nat.
Proof. induction a as [|x a IH]; [reflexivity|]. rewrite append_cons. cbn. rewrite IH. reflexivity. Qed.

Lemma jsLength_app a b : jsLength (a +:+ b) = (jsLength a + jsLength b)%nat.
Proof.
  induction a as [|x a IH]; [reflexivity|]. rewrite append_cons. cbn [jsLength].
  rewrite IH. lia.
Qed.

Lemma jsLength_empty s : jsLength s ≠ 0%nat → s ≠ "".
Proof. intros H ->. apply H. reflexivity. Qed.

Lemma stripPrefix_spec p s rest :
  stripPrefix p s = Some rest ↔ s = p +:+ rest.
Proof.
  revert s. induction p as [|a p IH]; intros s; cbn.
  - split; [intros [= ->]; reflexivity | intros ->; reflexivity].
  - destruct s as [|b s]; [split; discriminate|].
    destruct (Ascii.eqb_spec a b) as [->|Hne].
    + rewrite IH, append_cons. split; [intros ->; reflexivity | intros [= ->]; reflexivity].
    + rewrite append_cons. split; [discriminate | intros [= ? ?]; congruence].
Qed.

Lemma afterOneOf_Some chars s rest :
  afterOneOf chars s = Some rest → ∃ w, In w chars ∧ s = w +:+ rest.
Proof.
  induction chars as [|w chars IH]; cbn; [discriminate|].
  destruct (stripPrefix w s) as [r|] eqn:E.
  - intros [= ->]. exists w. split; [left; reflexivity|]. apply stripPrefix_spec, E.
  - intros H. destruct (IH H) as (w' & Hin & Hs). exists w'. auto.
Qed.

Lemma afterOneOf_None chars s :
  afterOneOf chars s = None → ∀ w rest, In w chars → s ≠ w +:+ rest.
Proof.
  induction chars as [|w chars IH]; cbn; [intros _ w rest []|].
  destruct (stripPrefix w s) as [r|] eqn:E; [discriminate|].
  intros H w' rest [<-|Hin] Hs.
  - apply stripPrefix_spec in Hs. congruence.
  - exact (IH H w' rest Hin Hs).
Qed.

(** No white space character is the start of another one. *)
Lemma afterWhiteSpace_first w rest :
  In w whiteSpace → afterWhiteSpace (w +:+ rest) = Some rest.
Proof.
  intros Hin. cbn in Hin.
  repeat (destruct Hin as [<-|Hin]; [vm_compute; reflexivity|]). destruct Hin.
Qed.

Lemma whiteSpace_length w : In w whiteSpace → (1 ≤ String.length w)%nat.
Proof.
  intros Hin. cbn in Hin.
  repeat (destruct Hin as [<-|Hin]; [vm_compute; lia|]). destruct Hin.
Qed.

Lemma afterWhiteSpace_None s : afterWhiteSpace s = None ↔ ¬ startsWhite s.
Proof.
  split.
  - intros H (w & rest & Hin & Hs). exact (afterOneOf_None _ _ H w rest Hin Hs).
  - intros H. destruct (afterWhiteSpace s) as [rest|] eqn:E; [|reflexivity].
    exfalso. apply H. destruct (afterOneOf_Some _ _ _ E) as (w & Hin & Hs).
    exists w, rest. auto.
Qed.

Lemma trimStartFrom_rounds n m s :
  (String.length s ≤ n)%nat → (String.length s ≤ m)%nat →
  trimStartFrom n s = trimStartFrom m s.
Proof.
  revert m s. induction n as [|n IH]; intros m s Hn Hm.
  - destruct s; [|cbn in Hn; lia]. destruct m; reflexivity.
  - cbn [trimStartFrom]. destruct (afterWhiteSpace s) as [rest|] eqn:E.
    + destruct (afterOneOf_Some _ _ _ E) as (w & Hin & ->).
      pose proof (whiteSpace_length w Hin) as Hw.
      rewrite length_app in *. destruct m as [|m]; [lia|].
      cbn [trimStartFrom]. rewrite E. apply IH; lia.
    + destruct m; [reflexivity|]. cbn [trimStartFrom]. rewrite E. reflexivity.
Qed.

Lemma trimStartFrom_enough n s :
  (String.length s ≤ n)%nat → trimStartFrom n s = trimStart s.
Proof. intros Hn. apply trimStartFrom_rounds; [exact Hn | lia]. Qed.

Lemma trimStart_white w rest :
  In w whiteSpace → trimStart (w +:+ rest) = trimStart rest.
Proof.
  intros Hin. pose proof (whiteSpace_length w Hin) as Hw.
  unfold trimStart at 1. rewrite length_app.
  destruct (String.length w + String.length rest)%nat as [|m] eqn:Em; [lia|].
  cbn [trimStartFrom]. rewrite afterWhiteSpace_first by assumption.
  apply trimStartFrom_enough. lia.
Qed.

Lemma trimStart_other s : ¬ startsWhite s → trimStart s = s.
Proof.
  intros H. apply afterWhiteSpace_None in H. unfold trimStart.
  destruct (String.length s); [reflexivity|]. cbn [trimStartFrom]. rewrite H.
  reflexivity.
Qed.

Lemma concatAll_app l1 l2 : concatAll (l1 ++ l2) = concatAll l1 +:+ concatAll l2.
Proof.
  induction l1 as [|x l1 IH]; [reflexivity|]. cbn [concatAll app].
  rewrite IH, append_assoc. reflexivity.
Qed.

Lemma allWhite_empty : allWhite "".
Proof. exists []. split; [constructor | reflexivity]. Qed.

Lemma allWhite_app a b : allWhite a → allWhite b → allWhite (a +:+ b).
Proof.
  intros (l1 & H1 & ->) (l2 & H2 & ->). exists (l1 ++ l2)%list.
  split; [apply Forall_app; auto | symmetry; apply concatAll_app].
Qed.

Lemma allWhite_one w : In w whiteSpace → allWhite w.
Proof.
  intros H. exists [w]. split; [constructor; [exact H | constructor]|].
  cbn [concatAll]. rewrite append_nil_r. reflexivity.
Qed.

(** What [trimStart] removes is white space, and what it leaves does not
    start with white space. *)
Lemma trimStart_spec s :
  ∃ lead, allWhite lead ∧ s = lead +:+ trimStart s ∧ ¬ startsWhite (trimStart s).
Proof.
  remember (String.length s) as n eqn:Hn. revert s Hn.
  induction n as [n IH] using lt_wf_ind. intros s Hn.
  destruct (afterWhiteSpace s) as [rest|] eqn:E.
  - destruct (afterOneOf_Some _ _ _ E) as (w & Hin & ->).
    pose proof (whiteSpace_length w Hin) as Hw. rewrite length_app in Hn.
    destruct (IH (String.length rest) ltac:(lia) rest eq_refl)
      as (lead & Hlead & Hrest & Hno).
    rewrite trimStart_white by assumption.
    exists (w +:+ lead). split; [apply allWhite_app; [apply allWhite_one|]; assumption|].
    split; [|exact Hno]. rewrite append_assoc, <- Hrest. reflexivity.
  - apply afterWhiteSpace_None in E. rewrite trimStart_other by assumption.
    exists "". split; [apply allWhite_empty|]. split; [reflexivity | exact E].
Qed.

Lemma trimStart_allWhite s : allWhite s → trimStart s = "".
Proof.
  intros (l & Hl & ->). induction Hl as [|w l Hw Hl IH]; [reflexivity|].
  cbn [concatAll]. rewrite trimStart_white by assumption. exact IH.
Qed.

Lemma allWhite_trimStart s : trimStart s = "" ↔ allWhite s.
Proof.
  split; [|apply trimStart_allWhite].
  intros H. destruct (trimStart_spec s) as (lead & Hlead & Hs & _).
  rewrite H, append_nil_r in Hs. subst. exact Hlead.
Qed.

(** What [trimEnd] removes is white space. *)
Lemma trimEnd_spec s : ∃ trail, allWhite trail ∧ s = trimEnd s +:+ trail.
Proof.
  induction s as [|c s (trail & Htrail & Hs)]; [exists ""; split; [apply allWhite_empty | reflexivity]|].
  cbn [trimEnd]. destruct (String.eqb_spec (trimStart (String c s)) "") as [E|E].
  - exists (String c s). split; [apply allWhite_trimStart, E | reflexivity].
  - exists trail. split; [exact Htrail|]. rewrite append_cons, <- Hs. reflexivity.
Qed.

Lemma trimEnd_cut front tail :
  allWhite tail → ∃ k, front = trimEnd (front +:+ tail) +:+ k.
Proof.
  intros Htail. induction front as [|c front (k & Hk)].
  - exists "". change ("" +:+ tail) with tail.
    destruct tail as [|c tail]; [reflexivity|].
    cbn [trimEnd]. rewrite (trimStart_allWhite _ Htail). reflexivity.
  - rewrite append_cons. cbn [trimEnd].
    destruct (String.eqb (trimStart (String c (front +:+ tail))) "").
    + exists (String c front). reflexivity.
    + exists k. rewrite append_cons, <- Hk. reflexivity.
Qed.

Lemma append_same_length a b : a = a +:+ b → b = "".
Proof.
  intros H. apply (f_equal String.length) in H. rewrite length_app in H.
  destruct b; [reflexivity | cbn in H; lia].
Qed.

Lemma trimEnd_ends s : ¬ endsWhite (trimEnd s).
Proof.
  intros (front & w & Hin & Hs).
  destruct (trimEnd_spec s) as (trail & Htrail & Hdec).
  rewrite Hs, append_assoc in Hdec.
  destruct (trimEnd_cut front (w +:+ trail)) as (k & Hk).
  { apply allWhite_app; [apply allWhite_one|]; assumption. }
  rewrite <- Hdec, Hs, append_assoc in Hk. apply append_same_length in Hk.
  pose proof (whiteSpace_length w Hin) as Hw.
  apply (f_equal String.length) in Hk. rewrite length_app in Hk. cbn in Hk. lia.
Qed.

Lemma trimEnd_starts s : ¬ startsWhite s → ¬ startsWhite (trimEnd s).
Proof.
  intros Hs (w & rest & Hin & Hw). apply Hs.
  destruct (trimEnd_spec s) as (trail & _ & Hdec).
  exists w, (rest +:+ trail). split; [exact Hin|].
  rewrite Hdec at 1. rewrite Hw, append_assoc. reflexivity.
Qed.

(** [trim] removes white space on both sides and nothing else, and leaves
    no white space at either end. *)
Lemma trim_spec s : trimmed s (trim s).
Proof.
  unfold trim. destruct (trimStart_spec s) as (lead & Hlead & Hs & Hno).
  destruct (trimEnd_spec (trimStart s)) as (trail & Htrail & Hdec).
  exists lead, trail. split; [rewrite <- Hdec; exact Hs|].
  split; [exact Hlead|]. split; [exact Htrail|].
  split; [apply trimEnd_starts, Hno | apply trimEnd_ends].
Qed.

Lemma allWhite_ends s : allWhite s → s ≠ "" → endsWhite s.
Proof.
  intros (l & Hl & ->). induction Hl as [|w l Hw Hl IH]; [intros H; contradiction|].
  intros _. cbn [concatAll]. destruct (String.eqb_spec (concatAll l) "") as [E|E].
  - rewrite E, append_nil_r. exists "", w. split; [exact Hw | reflexivity].
  - destruct (IH E) as (front & w' & Hin & Hf). exists (w +:+ front), w'.
    split; [exact Hin|]. rewrite Hf, append_assoc. reflexivity.
Qed.

Lemma trimEnd_other s : ¬ endsWhite s → trimEnd s = s.
Proof.
  induction s as [|c s IH]; [reflexivity|]. intros Hno. cbn [trimEnd].
  destruct (String.eqb_spec (trimStart (String c s)) "") as [E|E].
  - exfalso. apply Hno, allWhite_ends; [apply allWhite_trimStart, E | discriminate].
  - rewrite IH; [reflexivity|]. intros (front & w & Hin & Hs). apply Hno.
    exists (String c front), w. split; [exact Hin|]. rewrite append_cons, Hs.
    reflexivity.
Qed.

Lemma trim_idem s : trim (trim s) = trim s.
Proof.
  destruct (trim_spec s) as (_ & _ & _ & _ & _ & Hstart & Hend).
  unfold trim at 1. rewrite (trimStart_other _ Hstart). apply trimEnd_other, Hend.
Qed.

Lemma trim_length s : (jsLength (trim s) ≤ jsLength s)%nat.
Proof.
  destruct (trim_spec s) as (lead & trail & Hs & _).
  rewrite Hs at 2. rewrite !jsLength_app. lia.
Qed.

(** A letter with an accent counts once, a character outside the basic
    plane twice, as [length] counts them. *)
Example length_examples :
  jsLength "I dreamt of the seé" = 19%nat
  ∧ String.length "I dreamt of the seé" = 20%nat
  ∧ jsLength "🕒" = 2%nat.
Proof. repeat split; vm_compute; reflexivity. Qed.

(** White space outside ASCII is trimmed too; white space inside stays. *)
Example trim_examples :
  trim (fromBytes [194; 160; 9]%nat +:+ "a b" +:+ fromBytes [226; 128; 131; 10]%nat)
  = "a b"
  ∧ trim (fromBytes [239; 187; 191; 32; 227; 128; 128]%nat) = ""
  ∧ trim "é " = "é".
Proof. repeat split; vm_compute; reflexivity. Qed.

(** Bounds on the length of a given text, by counting. *)
Ltac count_units :=
  repeat split; first [apply Nat.ltb_lt | apply Nat.leb_le]; vm_compute; reflexivity.

End TextProps.

(* ===================================================================== *)
(** ** Properties of the gateway *)
(* ===================================================================== *)

Module GatewayProps.
Import Json Text Zod Gateway TextProps.

(** *** What the schemas accept *)

Lemma stringItems_accepted p i l :
  eachItem (parseAt (ZString None None)) p i (map JStr l) = ([], map JStr l).
Proof.
  revert i. induction l as [|x l IH]; intros i; [reflexivity|].
  cbn. rewrite IH. reflexivity.
Qed.

Lemma stringItems_only p i items :
  fst (eachItem (parseAt (ZString None None)) p i items) = [] →
  ∃ l, items = map JStr l.
Proof.
  revert i. induction items as [|x items IH]; intros i H.
  - exists []. reflexivity.
  - cbn in H. apply app_eq_nil in H as [Hx Hrest].
    destruct (IH _ Hrest) as [l ->].
    destruct x; cbn in Hx; try discriminate.
    exists (s :: l). reflexivity.
Qed.

Lemma stringArray_accepted p l :
  parseAt (ZArray (ZString None None)) p (Some (JArr (map JStr l)))
  = ([], Some (JArr (map JStr l))).
Proof. cbn. rewrite stringItems_accepted. reflexivity. Qed.

Lemma stringArray_only p v :
  fst (parseAt (ZArray (ZString None None)) p v) = [] →
  ∃ l, v = Some (JArr (map JStr l)).
Proof.
  destruct v as [[]|]; cbn; try discriminate.
  intros H. destruct (stringItems_only _ _ _ H) as [l ->]. eauto.
Qed.

Lemma anyString_only p v :
  fst (parseAt (ZString None None) p v) = [] → ∃ s, v = Some (JStr s).
Proof. destruct v as [[]|]; cbn; try discriminate. eauto. Qed.

Lemma unitInterval_accepted p c :
  (0 <= c)%Q → (c <= 1)%Q →
  parseAt (ZNumber (Some 0%Q) (Some 1%Q)) p (Some (JNum c)) = ([], Some (JNum c)).
Proof.
  intros H0 H1. cbn.
  apply Qle_bool_iff in H0, H1. rewrite H0, H1. reflexivity.
Qed.

Lemma unitInterval_only p v :
  fst (parseAt (ZNumber (Some 0%Q) (Some 1%Q)) p v) = [] →
  ∃ c, v = Some (JNum c) ∧ (0 <= c)%Q ∧ (c <= 1)%Q.
Proof.
  destruct v as [[]|]; cbn; try discriminate.
  destruct (Qle_bool 0 q) eqn:E0; [|discriminate].
  destruct (Qle_bool q 1) eqn:E1; [|discriminate].
  intros _. exists q. rewrite <- !Qle_bool_iff. auto.
Qed.

(** [analysisSchema] accepts exactly the objects [matchesAnalysis]
    describes, and keeps of them the five declared keys. *)
Lemma parseAt_object p shape fields :
  parseAt (ZObject shape) p (Some (JObj fields))
  = (fst (eachField parseAt p fields shape),
     Some (JObj (snd (eachField parseAt p fields shape)))).
Proof. reflexivity. Qed.

Lemma analysisSchema_accepts v :
  matchesAnalysis v →
  ∃ e t i sy c, safeParse analysisSchema v = Success (JObj (analysisData e t i sy c))
                ∧ (0 <= c)%Q ∧ (c <= 1)%Q.
Proof.
  intros (fields & e & t & sy & i & c & -> & He & Ht & Hi & Hsy & Hc & H0 & H1).
  exists e, t, i, sy, c. split; [|split; assumption].
  unfold safeParse, analysisSchema.
  rewrite parseAt_object. cbn [eachField fst snd app].
  rewrite He, Ht, Hi, Hsy, Hc.
  rewrite !stringArray_accepted, (unitInterval_accepted _ c H0 H1).
  reflexivity.
Qed.

Lemma analysisSchema_only v d :
  safeParse analysisSchema v = Success d → matchesAnalysis v.
Proof.
  unfold safeParse, analysisSchema.
  destruct v; try discriminate.
  rewrite parseAt_object. cbn [eachField fst snd app].
  destruct (fst (parseAt (ZArray (ZString None None)) ["emotions"]
                   (lookup "emotions" fields))) eqn:E1; [|discriminate].
  destruct (fst (parseAt (ZArray (ZString None None)) ["themes"]
                   (lookup "themes" fields))) eqn:E2; [|discriminate].
  destruct (fst (parseAt (ZString None None) ["interpretation"]
                   (lookup "interpretation" fields))) eqn:E3; [|discriminate].
  destruct (fst (parseAt (ZArray (ZString None None)) ["symbols"]
                   (lookup "symbols" fields))) eqn:E4; [|discriminate].
  destruct (fst (parseAt (ZNumber (Some 0%Q) (Some 1%Q)) ["confidence"]
                   (lookup "confidence" fields))) eqn:E5; [|discriminate].
  intros _.
  destruct (stringArray_only _ _ E1) as [e He].
  destruct (stringArray_only _ _ E2) as [t Ht].
  destruct (anyString_only _ _ E3) as [i Hi].
  destruct (stringArray_only _ _ E4) as [sy Hsy].
  destruct (unitInterval_only _ _ E5) as (c & Hc & H0 & H1).
  exists fields, e, t, sy, i, c. repeat split; assumption.
Qed.

Lemma parseAt_optional s p v :
  parseAt (ZOptional s) p (Some v) = parseAt s p (Some v).
Proof. reflexivity. Qed.

Lemma parseAt_absent s p : parseAt (ZOptional s) p None = ([], None).
Proof. reflexivity. Qed.

Lemma parseAt_string minLen maxLen p text :
  parseAt (ZString minLen maxLen) p (Some (JStr text))
  = ((match minLen with
      | Some (n, msg) => if (jsLength text <? n)%nat then [mkIssue p msg] else []
      | None => []
      end
      ++ match maxLen with
         | Some (n, msg) => if (n <? jsLength text)%nat then [mkIssue p msg] else []
         | None => []
         end)%list, Some (JStr text)).
Proof. reflexivity. Qed.

Lemma parseAt_anyNumber p q :
  parseAt (ZNumber None None) p (Some (JNum q)) = ([], Some (JNum q)).
Proof. reflexivity. Qed.

Lemma parseAt_boolean p b :
  parseAt ZBoolean p (Some (JBool b)) = ([], Some (JBool b)).
Proof. reflexivity. Qed.

(** The answer built from accepted data passes the final check of the
    handler. *)
Lemma response_accepted e t i sy c now rid :
  (0 <= c)%Q → (c <= 1)%Q →
  ∃ d,
    safeParse DreamAnalysisResponseSchema
      (JObj [("success", JBool true);
             ("data", JObj (analysisData e t i sy c
                            ++ [("timestamp", JNum (inject_Z now))]));
             ("requestId", JStr rid)])
    = Success d.
Proof.
  intros H0 H1. unfold safeParse, DreamAnalysisResponseSchema, analysisData.
  rewrite parseAt_object. cbn -[parseAt].
  rewrite parseAt_boolean, parseAt_absent, !parseAt_optional, parseAt_string.
  rewrite parseAt_object. cbn -[parseAt].
  rewrite !stringArray_accepted, parseAt_string, parseAt_anyNumber,
    (unitInterval_accepted _ c H0 H1).
  cbn. eauto.
Qed.

(** *** The route *)

Section Route.

Variable JSON_parse : string → option json.
Variable systemPrompt : string.

(** An answer that parses and has the expected shape is relayed: status
    200, the five keys of the schema and the timestamp. *)
Lemma completion_accepted rid now content v :
  JSON_parse content = Some v → matchesAnalysis v →
  ∃ e t i sy c,
    afterCompletion JSON_parse rid now (Completed content)
    = mkHttpResponse 200
        (JObj [("success", JBool true);
               ("data", JObj (analysisData e t i sy c
                              ++ [("timestamp", JNum (inject_Z now))]));
               ("requestId", JStr rid)]).
Proof.
  intros Hp Hm. destruct (analysisSchema_accepts v Hm) as (e & t & i & sy & c & Hs & H0 & H1).
  exists e, t, i, sy, c. unfold afterCompletion. rewrite Hp, Hs.
  destruct (response_accepted e t i sy c now rid H0 H1) as [d ->].
  reflexivity.
Qed.

Lemma requestBody_parsed text userId timestamp :
  ∃ rest,
    parseAt DreamAnalysisSchema [] (Some (requestBody text userId timestamp))
    = (((if (jsLength text <? 20)%nat
         then [mkIssue ["dreamText"] "Dream text must be at least 20 characters"]
         else [])
        ++ (if (2000 <? jsLength text)%nat
            then [mkIssue ["dreamText"] "Dream text cannot exceed 2000 characters"]
            else []))%list,
       Some (JObj (("dreamText", JStr text) :: rest))).
Proof.
  unfold DreamAnalysisSchema, requestBody. rewrite parseAt_object.
  destruct userId, timestamp; cbn -[parseAt];
    rewrite ?parseAt_absent, ?parseAt_optional, ?parseAt_string,
      ?parseAt_anyNumber;
    cbn -[Nat.ltb jsLength]; rewrite !app_nil_r; eauto.
Qed.

(** C7. The route accepts a request exactly when its dream text has
    between 20 and 2000 characters, bounds included, counted as [length]
    counts them (UTF-16 code units): a shorter text is
    answered 400 with "dreamText: Dream text must be at least 20
    characters", a longer one 400 with "dreamText: Dream text cannot exceed
    2000 characters", both without calling the completion service; a text
    within the bounds makes the handler call the service with that text. *)
Theorem dream_text_length_window rid now text userId timestamp :
  let run := analyzeDream JSON_parse systemPrompt rid now
               (requestBody text userId timestamp) in
  ((jsLength text < 20)%nat →
     run = Respond (failure 400 validationTooShort rid))
  ∧ ((2000 < jsLength text)%nat →
     run = Respond (failure 400 validationTooLong rid))
  ∧ ((20 ≤ jsLength text ≤ 2000)%nat →
     run = CallOpenAI
             (mkChatRequest systemPrompt ("Analyze this dream: " +:+ text))
             (afterCompletion JSON_parse rid now))
  ∧ ((∃ req k, run = CallOpenAI req k)
     ↔ (20 ≤ jsLength text ≤ 2000)%nat).
Proof.
  cbn zeta. unfold analyzeDream, safeParse.
  destruct (requestBody_parsed text userId timestamp) as [rest ->].
  destruct (Nat.ltb_spec (jsLength text) 20) as [Hlo|Hlo];
    destruct (Nat.ltb_spec 2000 (jsLength text)) as [Hhi|Hhi];
    try lia; cbn [app];
    (split; [|split; [|split; [|split]]]);
    try (intros ?; first [lia | reflexivity]).
  - intros (req & k & ?). discriminate.
  - intros (req & k & ?). discriminate.
  - eauto.
Qed.

(** C8. Once the handler has called the completion service, an answer
    whose text does not parse as JSON is answered 500 with the fixed
    message "Failed to parse dream analysis response", and an answer that
    parses to a value not of the five-key shape (arrays of strings
    [emotions], [themes], [symbols], a string [interpretation], a number
    [confidence] between 0 and 1) is answered 500 with the fixed message
    "Invalid dream analysis response format". Either answer is determined
    by the request identifier alone: nothing of the upstream text is in
    it. *)
Theorem upstream_format_errors rid now reqBody req k content :
  analyzeDream JSON_parse systemPrompt rid now reqBody = CallOpenAI req k →
  (JSON_parse content = None →
     k (Completed content)
     = failure 500 "Failed to parse dream analysis response" rid)
  ∧ (∀ v, JSON_parse content = Some v → ¬ matchesAnalysis v →
     k (Completed content)
     = failure 500 "Invalid dream analysis response format" rid).
Proof.
  unfold analyzeDream.
  destruct (safeParse DreamAnalysisSchema reqBody); [|discriminate].
  intros [= _ <-]. split.
  - intros Hp. unfold afterCompletion. rewrite Hp. reflexivity.
  - intros v Hp Hbad. unfold afterCompletion. rewrite Hp.
    destruct (safeParse analysisSchema v) as [d|issues] eqn:E; [|reflexivity].
    exfalso. apply Hbad. exact (analysisSchema_only v d E).
Qed.

(** A relayed analysis (status 200) carries, under [data], exactly the
    five keys of the schema followed by [timestamp]. *)
Lemma relayed_analysis_keys rid now up :
  status (afterCompletion JSON_parse rid now up) = 200%nat →
  ∃ d, lookup "data" (match body (afterCompletion JSON_parse rid now up) with
                      | JObj fields => fields
                      | _ => []
                      end) = Some d
       ∧ keys d = ["emotions"; "themes"; "interpretation"; "symbols";
                   "confidence"; "timestamp"].
Proof.
  destruct up as [content|code].
  - destruct (JSON_parse content) as [v|] eqn:Hp.
    + destruct (safeParse analysisSchema v) as [d|issues] eqn:E.
      * pose proof (analysisSchema_only v d E) as Hm.
        destruct (completion_accepted rid now content v Hp Hm)
          as (e & t & i & sy & c & ->).
        intros _. eexists. split; reflexivity.
      * unfold afterCompletion. rewrite Hp, E. cbn. discriminate.
    + unfold afterCompletion. rewrite Hp. cbn. discriminate.
  - unfold afterCompletion. repeat case_match; cbn; discriminate.
Qed.

End Route.

(** An empty object is not an analysis. *)
Lemma not_an_analysis : ¬ matchesAnalysis (JObj []).
Proof.
  intros (fields & e & t & sy & i & c & Hv & He & _).
  injection Hv as <-. discriminate He.
Defined.

Lemma dream_text_length_window_witness :
  let parse := λ _ : string, @None json in
  (jsLength "I dreamt of the seé" < 20)%nat
  ∧ (20 ≤ jsLength "I dreamt of the sea." ≤ 2000)%nat
  ∧ analyzeDream parse "" "req_1" 0 (requestBody "I dreamt of the seé" None None)
    = Respond (failure 400 validationTooShort "req_1")
  ∧ analyzeDream parse "" "req_1" 0 (requestBody "I dreamt of the sea." None None)
    = CallOpenAI (mkChatRequest "" "Analyze this dream: I dreamt of the sea.")
        (afterCompletion parse "req_1" 0).
Proof.
  intros parse.
  assert (H19 : (jsLength "I dreamt of the seé" < 20)%nat) by count_units.
  assert (H20 : (20 ≤ jsLength "I dreamt of the sea." ≤ 2000)%nat) by count_units.
  split; [exact H19|]. split; [exact H20|]. split.
  - exact (proj1 (dream_text_length_window parse "" "req_1" 0
                    "I dreamt of the seé" None None) H19).
  - exact (proj1 (proj2 (proj2 (dream_text_length_window parse "" "req_1" 0
                                  "I dreamt of the sea." None None))) H20).
Defined.

Lemma upstream_format_errors_witness :
  let parse := λ text : string,
                 if String.eqb text "{}" then Some (JObj []) else None in
  let k := afterCompletion parse "req_1" 0 in
  analyzeDream parse "" "req_1" 0 (requestBody "I dreamt of the sea." None None)
    = CallOpenAI (mkChatRequest "" "Analyze this dream: I dreamt of the sea.") k
  ∧ parse "Sorry, I cannot." = None
  ∧ parse "{}" = Some (JObj [])
  ∧ k (Completed "Sorry, I cannot.")
    = failure 500 "Failed to parse dream analysis response" "req_1"
  ∧ k (Completed "{}")
    = failure 500 "Invalid dream analysis response format" "req_1".
Proof.
  intros parse k.
  assert (Hrun : analyzeDream parse "" "req_1" 0
                   (requestBody "I dreamt of the sea." None None)
                 = CallOpenAI (mkChatRequest "" "Analyze this dream: I dreamt of the sea.") k)
    by reflexivity.
  split; [exact Hrun|]. split; [reflexivity|]. split; [reflexivity|]. split.
  - exact (proj1 (upstream_format_errors parse "" "req_1" 0 _ _ k
                    "Sorry, I cannot." Hrun) eq_refl).
  - exact (proj2 (upstream_format_errors parse "" "req_1" 0 _ _ k "{}" Hrun)
             (JObj []) eq_refl not_an_analysis).
Defined.

End GatewayProps.

(* ===================================================================== *)
(** ** Properties of the local analysis *)
(* ===================================================================== *)

Module LocalProps.
Import Json LocalAnalysis TextProps.

(** *** Searching a text *)

Lemma prefix_spec word s :
  String.prefix word s = true ↔ ∃ after, s = word +:+ after.
Proof.
  revert s. induction word as [|a word IH]; intros s; cbn.
  - split; [intros _; exists s; reflexivity | destruct s; reflexivity].
  - destruct s as [|b s]; cbn.
    + split; [discriminate | intros [after H]; discriminate].
    + destruct (ascii_dec a b) as [->|Hne].
      * rewrite IH. split; intros [after H]; exists after;
          rewrite append_cons in *; congruence.
      * split; [discriminate|].
        intros [after H]. rewrite append_cons in H. congruence.
Qed.

Lemma includes_spec s word :
  includes s word = true ↔ ∃ before after, s = before +:+ word +:+ after.
Proof.
  induction s as [|c s IH]; cbn [includes]; rewrite orb_true_iff, prefix_spec.
  - split.
    + intros [[after H]|H]; [|discriminate]. exists "", after. exact H.
    + intros (before & after & H). left.
      destruct before; [exists after; exact H | discriminate].
  - rewrite IH. split.
    + intros [[after H]|(before & after & H)].
      * exists "", after. exact H.
      * exists (String c before), after. rewrite append_cons. congruence.
    + intros (before & after & H). destruct before as [|b before].
      * left. exists after. exact H.
      * right. exists before, after. rewrite append_cons in H. congruence.
Qed.

Lemma toLowerCase_app a b :
  toLowerCase (a +:+ b) = toLowerCase a +:+ toLowerCase b.
Proof.
  induction a as [|c a IH]; [reflexivity|].
  rewrite append_cons. cbn [toLowerCase]. rewrite append_cons, IH. reflexivity.
Qed.

Lemma toLowerCase_split text a b :
  toLowerCase text = a +:+ b →
  ∃ t1 t2, text = t1 +:+ t2 ∧ toLowerCase t1 = a ∧ toLowerCase t2 = b.
Proof.
  revert text. induction a as [|c a IH]; intros text H.
  - exists "", text. auto.
  - rewrite append_cons in H.
    destruct text as [|d text]; cbn [toLowerCase] in H; [discriminate|].
    injection H as Hc Hrest.
    destruct (IH text Hrest) as (t1 & t2 & -> & H1 & H2).
    exists (String d t1), t2. rewrite append_cons. cbn [toLowerCase].
    rewrite Hc, H1. auto.
Qed.

(** *** Letters up to case *)

Lemma letterPairs_lower a b :
  In (a, b) letterPairs → lowerChar a = b ∧ lowerChar b = b.
Proof.
  intros H. cbn in H.
  repeat (destruct H as [[= <- <-]|H]; [split; reflexivity|]). destruct H.
Qed.

Lemma lowerChar_cases a : lowerChar a = a ∨ In (a, lowerChar a) letterPairs.
Proof.
  destruct a as [[] [] [] [] [] [] [] []];
    first [left; reflexivity | right; vm_compute; tauto].
Qed.

Lemma letterPairs_capital a b l : In (a, l) letterPairs → In (b, l) letterPairs → a = b.
Proof.
  intros Ha Hb.
  assert (H : Forall (λ p : ascii * ascii,
                Forall (λ q : ascii * ascii, snd p = snd q → fst p = fst q)
                  letterPairs) letterPairs)
    by (apply (bool_decide_unpack _); vm_compute; exact I).
  rewrite Forall_forall in H. apply list_elem_of_In in Ha, Hb.
  specialize (H _ Ha). rewrite Forall_forall in H. exact (H _ Hb eq_refl).
Qed.

Lemma sameLetter_lower a b : sameLetter a b ↔ lowerChar a = lowerChar b.
Proof.
  split.
  - intros [->|[H|H]]; [reflexivity| |];
      destruct (letterPairs_lower _ _ H) as [H1 H2]; congruence.
  - intros H. destruct (lowerChar_cases a) as [Ha|Ha], (lowerChar_cases b) as [Hb|Hb].
    + left. congruence.
    + right. right. rewrite <- H, Ha in Hb. exact Hb.
    + right. left. rewrite H, Hb in Ha. exact Ha.
    + left. rewrite H in Ha. exact (letterPairs_capital _ _ _ Ha Hb).
Qed.

Lemma sameText_lower a b : sameText a b ↔ toLowerCase a = toLowerCase b.
Proof.
  revert b. induction a as [|x a IH]; intros [|y b]; cbn;
    try (split; [intros [] | discriminate]); [tauto|].
  rewrite sameLetter_lower, IH. split; [intros [-> ->]; reflexivity|].
  intros [= -> ->]. auto.
Qed.

(** A pair of the table, by looking it up. *)
Lemma capital_of a b :
  existsb (λ p, Ascii.eqb (fst p) a && Ascii.eqb (snd p) b) letterPairs = true →
  In (a, b) letterPairs.
Proof.
  intros H. apply existsb_exists in H as ([x y] & Hin & H). cbn in H.
  apply andb_true_iff in H as [Hx Hy].
  apply Ascii.eqb_eq in Hx, Hy. subst. exact Hin.
Qed.

(** Two given texts are the same up to case, letter by letter. *)
Ltac same_text :=
  cbn [sameText]; repeat split;
  first [ left; reflexivity
        | right; left; apply capital_of; reflexivity
        | right; right; apply capital_of; reflexivity ].

(** The test of the source, [dreamText.toLowerCase().includes(word)],
    decides whether a lower-case [word] occurs in the text up to case. *)
Lemma includes_ignoring_case text word :
  toLowerCase word = word →
  includes (toLowerCase text) word = true ↔ occursIgnoringCase word text.
Proof.
  intros Hlow. rewrite includes_spec. unfold occursIgnoringCase. split.
  - intros (before & after & H).
    destruct (toLowerCase_split _ _ _ H) as (t1 & t2 & -> & H1 & H2).
    destruct (toLowerCase_split _ _ _ H2) as (t21 & t22 & -> & H3 & H4).
    exists t1, t21, t22. split; [reflexivity|]. apply sameText_lower. congruence.
  - intros (before & found & after & -> & H). apply sameText_lower in H.
    exists (toLowerCase before), (toLowerCase after).
    rewrite !toLowerCase_app. congruence.
Qed.

(** *** Categories *)

Lemma detect_filter table text :
  detect table text
  = map fst (List.filter
               (λ entry, existsb (λ word, includes (toLowerCase text) word)
                           (snd entry)) table).
Proof.
  unfold detect.
  enough (H : ∀ found,
    fold_left
      (λ found entry,
         if existsb (λ word, includes (toLowerCase text) word) (snd entry)
         then (found ++ [fst entry])%list else found) table found
    = (found ++ map fst (List.filter
                  (λ entry, existsb (λ word, includes (toLowerCase text) word)
                              (snd entry)) table))%list)
    by apply (H []).
  induction table as [|entry table IH]; intros found; cbn.
  - rewrite app_nil_r. reflexivity.
  - rewrite IH. destruct (existsb _ (snd entry)); cbn; [|reflexivity].
    rewrite <- app_assoc. reflexivity.
Qed.





Lemma strings_of_array l :
  omap (λ x, match x with JStr s => Some s | _ => None end) (map JStr l) = l.
Proof. induction l as [|x l IH]; cbn; [reflexivity | rewrite IH; reflexivity]. Qed.



(** The text of the specification's example: its themes are [flying] (the
    keyword is in the text), and no emotion keyword occurs in it. *)
Example flying_example now :
  stringsAt "themes"
    (analyzeDreamLocally now "I was flying over a beautiful landscape and felt free")
  = Some ["flying"]
  ∧ stringsAt "emotions"
      (analyzeDreamLocally now "I was flying over a beautiful landscape and felt free")
    = Some ["neutral"].
Proof. split; reflexivity. Qed.

(** Matching is by substring: [car] is found in "scared". *)
Example substring_match now :
  stringsAt "symbols" (analyzeDreamLocally now "I was scared") = Some ["car"].
Proof. reflexivity. Qed.


(** *** Shape of the result *)

(** C10 fails on the local path: for every dream text the object returned
    by [analyzeDreamLocally] has the keys [emotions], [themes],
    [interpretation], [symbols] and [timestamp] and no [confidence], so
    that the client's own check of an analysis refuses it, whereas a
    relayed analysis carries [confidence] (see [relayed_analysis_keys]). *)
Theorem local_analysis_lacks_confidence now text :
  keys (analyzeDreamLocally now text)
  = ["emotions"; "themes"; "interpretation"; "symbols"; "timestamp"]
  ∧ (∃ fields, analyzeDreamLocally now text = JObj fields
               ∧ lookup "confidence" fields = None
               ∧ JournalClient.validateAnalysisData fields
                 = Some "Invalid response: missing confidence").
Proof.
  split; [reflexivity|]. eexists. split; [reflexivity|]. split; reflexivity.
Qed.

(** The data of a relayed analysis passes the client's check. *)
Lemma relayed_analysis_validates e t i sy c now :
  (0 <= c)%Q → (c <= 1)%Q →
  JournalClient.validateAnalysisData
    (Gateway.analysisData e t i sy c ++ [("timestamp", JNum (inject_Z now))])
  = None.
Proof.
  intros H0 H1. apply Qle_bool_iff in H0, H1.
  unfold JournalClient.validateAnalysisData. cbn. rewrite H0, H1. reflexivity.
Qed.

End LocalProps.

(* ===================================================================== *)
(** ** More about the scheduler *)
(* ===================================================================== *)

Module SchedulerMore.
Import Scheduler SchedulerNotions SchedulerProps.

(** A property of timer objects that every start from a valid
    configuration establishes and every run of the callback keeps holds of
    the live timer object of every reachable world. *)
Lemma reachable_timer_ind (P : TimerState → Prop) :
  (∀ now t s g w ts, validConfig t s g →
     globalTimerState (startSegmentedTimer now t s g w) = Some ts → P ts) →
  (∀ ts ts', timerInv ts → P ts → timerAfterTick ts = Some ts' → P ts') →
  ∀ w, reachable w → ∀ ts, globalTimerState w = Some ts → P ts.
Proof.
  intros Hstart Hstep w Hr.
  induction Hr as [|now msg w Hr IH Hv|w Hr IH]; intros ts Hts.
  - discriminate.
  - destruct msg; cbn [onMessage snd] in Hts.
    + eapply Hstart; eassumption.
    + apply IH. exact Hts.
    + apply IH. exact Hts.
    + rewrite stop_idle in Hts. discriminate.
    + apply IH. exact Hts.
    + apply IH. exact Hts.
  - pose proof (reachable_worldInv w Hr) as Hw.
    rewrite (elapseSecond_tick w Hw) in Hts.
    destruct (globalTimerState w) as [ts0|] eqn:E0;
      [|rewrite tick_idle in Hts by assumption; congruence].
    destruct (globalIsPaused w) eqn:Hp.
    { rewrite tick_paused in Hts by assumption. apply IH. congruence. }
    destruct (tick_running w ts0 E0 Hp) as [Hnext _]. rewrite Hnext in Hts.
    eapply Hstep; [exact (inv_timer w Hw ts0 E0) | apply IH; reflexivity | exact Hts].
Qed.

Lemma timerAfterTick_config ts ts' :
  timerAfterTick ts = Some ts' →
  total ts' = total ts ∧ segment ts' = segment ts ∧ grace ts' = grace ts
  ∧ fullBlock ts' = fullBlock ts ∧ blocks ts' = blocks ts
  ∧ remainingTime ts' = remainingTime ts ∧ startTime ts' = startTime ts.
Proof.
  unfold timerAfterTick. cbn. intros H.
  repeat case_match; simplify_eq; cbn; repeat split; reflexivity.
Qed.

Lemma configured_arith ts :
  configured ts →
  0 ≤ blocks ts
  ∧ 0 ≤ remainingTime ts < fullBlock ts
  ∧ blocks ts * fullBlock ts + remainingTime ts = total ts.
Proof.
  intros [(Ht & Hs & Hlt & Hg) Hf Hb Hr].
  assert (Hrem : Z.rem (total ts) (segment ts + grace ts)
                 = total ts `mod` (segment ts + grace ts))
    by (apply Z.rem_mod_nonneg; lia).
  pose proof (Z.div_mod (total ts) (segment ts + grace ts) ltac:(lia)).
  pose proof (Z.mod_pos_bound (total ts) (segment ts + grace ts) ltac:(lia)).
  assert (0 ≤ total ts `div` (segment ts + grace ts)) by (apply Z.div_pos; lia).
  rewrite Hr, Hrem, Hb, Hf. repeat split; lia.
Qed.

(** X1. In every reachable world the live timer object still carries a
    valid configuration, and its [fullBlock], [blocks] and [remainingTime]
    are the values computed from it: no tick, pause or resume changes them.
    Hence [blocks * fullBlock + remainingTime = total] and
    [0 <= remainingTime < fullBlock] throughout the session. *)
Theorem reachable_timer_configured w ts :
  reachable w → globalTimerState w = Some ts →
  configured ts
  ∧ 0 ≤ blocks ts
  ∧ 0 ≤ remainingTime ts < fullBlock ts
  ∧ blocks ts * fullBlock ts + remainingTime ts = total ts.
Proof.
  intros Hr Hts.
  assert (Hc : configured ts).
  { revert w Hr ts Hts. apply reachable_timer_ind.
    - intros now t s g w ts Hv [= <-]. split; cbn; [exact Hv | reflexivity..].
    - intros ts ts' _ [Hv Hf Hb Hrm] Hstep.
      destruct (timerAfterTick_config ts ts' Hstep)
        as (E1 & E2 & E3 & E4 & E5 & E6 & _).
      split; rewrite ?E1, ?E2, ?E3, ?E4, ?E5, ?E6; assumption. }
  split; [exact Hc | apply configured_arith, Hc].
Qed.

(** *** The countdown within a phase *)

Lemma start_phaseInv now t s g w ts :
  validConfig t s g →
  globalTimerState (startSegmentedTimer now t s g w) = Some ts →
  phaseInv ts.
Proof.
  intros (Ht & Hs & Hlt & Hg) [= <-]. split; cbn; unfold phaseLength; cbn.
  - assert (0 ≤ t `div` (s + g)) by (apply Z.div_pos; lia).
    destruct (Z.ltb_spec 0 (t `div` (s + g)));
      destruct (Z.leb_spec (t `div` (s + g)) 0); cbn; lia.
  - lia.
  - discriminate.
Qed.

Lemma timerAfterTick_phaseInv ts ts' :
  timerInv ts → phaseInv ts → timerAfterTick ts = Some ts' → phaseInv ts'.
Proof.
  intros [Hs Hg Hb Hlo Hhi Ht Hbr] [Hup Hwk Hbk].
  unfold timerAfterTick, phaseLength, breakHasSuccessor in *. cbn.
  destruct (Z.leb_spec (currentTime ts - 1) 0) as [H0|H0].
  - destruct (isWorkTime ts) eqn:Ew.
    + destruct ((currentBlock ts <? blocks ts - 1)
                || (currentBlock ts =? blocks ts - 1) && (0 <? remainingTime ts));
        [|discriminate].
      intros [= <-]. split; cbn; unfold phaseLength; cbn; [lia | discriminate | lia].
    + destruct (Z.leb_spec (blocks ts) (currentBlock ts + 1)) as [H1|H1].
      * destruct (Z.ltb_spec 0 (remainingTime ts)) as [H2|H2]; [|discriminate].
        intros [= <-]. split; cbn; unfold phaseLength; cbn; [|lia|discriminate].
        destruct (Hbr eq_refl) as [H|[H3 H4]]; [lia|].
        destruct (Z.ltb_spec (currentBlock ts + 1) (blocks ts)); [lia|].
        destruct (Z.leb_spec (blocks ts) 0); [lia|]. cbn. lia.
      * intros [= <-]. split; cbn; unfold phaseLength; cbn; [|lia|discriminate].
        destruct (Z.ltb_spec (currentBlock ts + 1) (blocks ts)); [cbn; lia | lia].
  - intros [= <-]. split; cbn; unfold phaseLength; cbn.
    + destruct (isWorkTime ts); [|lia].
      destruct ((currentBlock ts <? blocks ts) || (blocks ts <=? 0)); lia.
    + intros _. lia.
    + intros _ _. lia.
Qed.

(** X2. In every reachable world the seconds left in the current phase
    never exceed the seconds the phase was given ([segment * 60] for a
    segment, [grace * 60] for a break, [remainingTime * 60] for the tail),
    are never negative, and are at least one except during the break of a
    session configured without grace. *)
Theorem reachable_phase_bounds w ts :
  reachable w → globalTimerState w = Some ts →
  0 ≤ currentTime ts ≤ phaseLength ts
  ∧ (isWorkTime ts = true ∨ 0 < grace ts → 1 ≤ currentTime ts)
  ∧ (currentTime ts = 0 → isWorkTime ts = false ∧ grace ts = 0).
Proof.
  intros Hr Hts.
  pose proof (inv_timer w (reachable_worldInv w Hr) ts Hts) as Hi.
  assert (Hp : phaseInv ts).
  { clear Hi. revert w Hr ts Hts. apply reachable_timer_ind.
    - intros now t s g w ts. apply start_phaseInv.
    - intros ts ts'. apply timerAfterTick_phaseInv. }
  destruct Hp as [Hup Hwk Hbk]. destruct Hi as [Hs Hg Hb Hlo Hhi Ht Hbr].
  split; [lia|]. split.
  - intros [H|H]; [apply Hwk, H|].
    destruct (isWorkTime ts) eqn:E; [apply Hwk; reflexivity | apply Hbk; auto].
  - intros H0. destruct (isWorkTime ts) eqn:E.
    + specialize (Hwk eq_refl). lia.
    + split; [reflexivity|].
      destruct (Z.eq_dec (grace ts) 0); [assumption|].
      specialize (Hbk eq_refl ltac:(lia)). lia.
Qed.

Lemma reachable_4_1_1 n :
  reachable (Nat.iter n elapseSecond
               (snd (onMessage 0 (START_TIMER 4 1 1) initialWorld))).
Proof.
  apply reachable_seconds.
  exact (reachable_message 0 (START_TIMER 4 1 1) initialWorld
           reachable_init valid_4_1_1).
Defined.

Lemma reachable_timer_configured_witness :
  let w := Nat.iter 60 elapseSecond
             (snd (onMessage 0 (START_TIMER 4 1 1) initialWorld)) in
  let ts := mkTimerState 4 1 1 2 2 0 0 60 false 0 in
  reachable w ∧ globalTimerState w = Some ts
  ∧ configured ts
  ∧ blocks ts * fullBlock ts + remainingTime ts = total ts.
Proof.
  intros w ts.
  assert (Hts : globalTimerState w = Some ts) by (vm_compute; reflexivity).
  destruct (reachable_timer_configured w ts (reachable_4_1_1 60) Hts)
    as (Hc & _ & _ & Hsum).
  split; [exact (reachable_4_1_1 60)|]. split; [exact Hts|].
  split; [exact Hc | exact Hsum].
Defined.

Lemma reachable_phase_bounds_witness :
  let w := Nat.iter 60 elapseSecond
             (snd (onMessage 0 (START_TIMER 4 1 1) initialWorld)) in
  let ts := mkTimerState 4 1 1 2 2 0 0 60 false 0 in
  reachable w ∧ globalTimerState w = Some ts
  ∧ 0 ≤ currentTime ts ≤ phaseLength ts.
Proof.
  intros w ts.
  assert (Hts : globalTimerState w = Some ts) by (vm_compute; reflexivity).
  split; [exact (reachable_4_1_1 60)|]. split; [exact Hts|].
  exact (proj1 (reachable_phase_bounds w ts (reachable_4_1_1 60) Hts)).
Defined.

(** *** One callback per second *)

Lemma stop_interval w : globalTimerInterval (stopBackgroundTimer w) = None.
Proof.
  unfold stopBackgroundTimer.
  destruct (globalTimerInterval w) eqn:E; [reflexivity | exact E].
Qed.

(** While the scheduler is idle its handle is [null]. *)
Lemma reachable_idle_handle w :
  reachable w → globalTimerState w = None → globalTimerInterval w = None.
Proof.
  induction 1 as [|now msg w Hr IH Hv|w Hr IH].
  - reflexivity.
  - destruct msg; cbn [onMessage snd]; try exact IH.
    + discriminate.
    + intros _. apply stop_interval.
  - rewrite elapseSecond_tick by (apply reachable_worldInv, Hr).
    destruct (globalTimerState w) as [ts|] eqn:Hts.
    + destruct (globalIsPaused w) eqn:Hp.
      * rewrite tick_paused by exact Hp. congruence.
      * pose proof (tick_running_world w ts Hts Hp) as H.
        destruct (timerAfterTick ts) as [ts'|].
        -- destruct H as (H1 & _). congruence.
        -- destruct H as [ts1 ->]. intros _. apply stop_interval.
    + rewrite tick_idle by exact Hts. intros _. apply IH. reflexivity.
Qed.

(** X4. However many times a session has been started, stopped or
    restarted, no countdown interval is live while the scheduler is idle
    and exactly one, the one whose handle the scheduler holds, while a
    session is live. So one second of wall-clock time runs the countdown
    callback at most once, and its effect is that of one tick; the second
    after a (re)start, which again leaves exactly one interval, leaves
    [segment * 60 - 1] seconds in the first work phase. *)
Theorem one_tick_per_second w :
  reachable w →
  (globalTimerState w = None ↔ liveIntervals w = [])
  ∧ (globalTimerState w ≠ None
     ↔ ∃ h, liveIntervals w = [h] ∧ globalTimerInterval w = Some h)
  ∧ elapseSecond w = tick w
  ∧ ∀ now t s g, validConfig t s g →
      (∃ h, liveIntervals (startSegmentedTimer now t s g w) = [h])
      ∧ ∃ ts, globalTimerState (elapseSecond (startSegmentedTimer now t s g w))
              = Some ts
              ∧ currentTime ts = s * 60 - 1 ∧ currentBlock ts = 0
              ∧ isWorkTime ts = true.
Proof.
  intros Hr. pose proof (reachable_worldInv w Hr) as Hw.
  pose proof (reachable_idle_handle w Hr) as Hidle.
  destruct Hw as [Htable Hhandle Htimer].
  split; [|split; [|split]].
  - split.
    + intros H. rewrite Htable, (Hidle H). reflexivity.
    + intros H. apply Hhandle. rewrite Htable in H.
      destruct (globalTimerInterval w); [discriminate | reflexivity].
  - split.
    + intros H. destruct (globalTimerInterval w) as [h|] eqn:E.
      * exists h. rewrite Htable. split; reflexivity.
      * exfalso. apply H. apply Hhandle. reflexivity.
    + intros (h & _ & Hh) H. rewrite (Hidle H) in Hh. discriminate.
  - apply elapseSecond_tick. split; assumption.
  - intros now t s g Hv.
    assert (Hw' : worldInv (startSegmentedTimer now t s g w))
      by (apply start_worldInv; [assumption | split; assumption]).
    split.
    { rewrite (inv_table _ Hw'). eexists. reflexivity. }
    rewrite elapseSecond_tick by exact Hw'.
    destruct Hv as (Ht & Hs & Hlt & Hg).
    edestruct (tick_running (startSegmentedTimer now t s g w)) as [-> _];
      [reflexivity | reflexivity |].
    unfold timerAfterTick. cbn.
    destruct (Z.leb_spec (s * 60 - 1) 0); [lia|].
    eexists. split; [reflexivity|]. cbn. auto.
Qed.

Lemma one_tick_per_second_witness :
  let w := Nat.iter 67 elapseSecond
             (snd (onMessage 0 (START_TIMER 4 1 1) initialWorld)) in
  reachable w ∧ validConfig 50 20 5
  ∧ liveIntervals w = [1%nat]
  ∧ elapseSecond w = tick w
  ∧ liveIntervals (startSegmentedTimer 9 50 20 5 w) = [2%nat]
  ∧ ∃ ts, globalTimerState (elapseSecond (startSegmentedTimer 9 50 20 5 w))
          = Some ts
          ∧ currentTime ts = 20 * 60 - 1 ∧ currentBlock ts = 0
          ∧ isWorkTime ts = true.
Proof.
  intros w.
  assert (Hv : validConfig 50 20 5) by (unfold validConfig; lia).
  destruct (one_tick_per_second w (reachable_4_1_1 67)) as (_ & _ & H1 & H2).
  split; [exact (reachable_4_1_1 67)|]. split; [exact Hv|].
  split; [vm_compute; reflexivity|]. split; [exact H1|].
  split; [vm_compute; reflexivity|]. exact (proj2 (H2 9 50 20 5 Hv)).
Defined.

(** *** How long a session lasts *)

(** X5. A session started from a valid configuration is live for exactly
    [n] ticks and idle from then on, where, with [blocks = floor(total /
    (segment + grace))] and [tail = total mod (segment + grace)]: [n] is
    [segment * 60] when no regular block fits ([blocks = 0]: the tail is
    never run); [total * 60 - grace * 60] when the blocks fill the total
    exactly (no break after the last segment); and [total * 60] when a tail
    follows the blocks. With [grace = 0] every break that is entered adds
    one tick: [blocks - 1] of them without a tail, [blocks] with one. *)
Theorem session_duration now t s g w :
  validConfig t s g →
  let blocks := t `div` (s + g) in
  let tail := t `mod` (s + g) in
  ∃ n : nat,
    (∀ k, (k < n)%nat →
       globalTimerState (Nat.iter k tick (startSegmentedTimer now t s g w)) ≠ None)
    ∧ (∀ k, (n ≤ k)%nat →
         globalTimerState (Nat.iter k tick (startSegmentedTimer now t s g w)) = None)
    ∧ (blocks = 0 → Z.of_nat n = s * 60)
    ∧ (0 < blocks → tail = 0 →
         Z.of_nat n = t * 60 - g * 60 + (if g =? 0 then blocks - 1 else 0))
    ∧ (0 < blocks → 0 < tail →
         Z.of_nat n = t * 60 + (if g =? 0 then blocks else 0)).
Proof.
  intros Hv. cbn zeta.
  destruct (session_length now t s g w Hv) as (n & Hn & Hlive & Hdone & Hstay).
  destruct Hv as (Ht & Hs & Hlt & Hg).
  assert (Hrem : Z.rem t (s + g) = t `mod` (s + g))
    by (apply Z.rem_mod_nonneg; lia).
  pose proof (Z.div_mod t (s + g) ltac:(lia)) as Hdm.
  pose proof (Z.mod_pos_bound t (s + g) ltac:(lia)) as Hb.
  unfold sessionTicks in Hn. rewrite Hrem in Hn.
  exists n. split; [exact Hlive|]. split.
  { intros k Hk. rewrite Hstay by exact Hk. exact Hdone. }
  split; [|split].
  - intros H0. rewrite H0 in Hn. cbn in Hn. exact Hn.
  - intros Hpos H0. rewrite H0 in Hn, Hdm.
    destruct (Z.ltb_spec 0 (t `div` (s + g))); [|lia]. cbn in Hn.
    destruct (Z.eqb_spec g 0) as [->|Hne].
    + replace (Z.max 1 (0 * 60)) with 1 in Hn by lia. lia.
    + replace (Z.max 1 (g * 60)) with (g * 60) in Hn by lia. lia.
  - intros Hpos Htail.
    destruct (Z.ltb_spec 0 (t `div` (s + g))); [|lia].
    destruct (Z.ltb_spec 0 (t `mod` (s + g))); [|lia].
    destruct (Z.eqb_spec g 0) as [->|Hne].
    + replace (Z.max 1 (0 * 60)) with 1 in Hn by lia. lia.
    + replace (Z.max 1 (g * 60)) with (g * 60) in Hn by lia. lia.
Qed.

Lemma session_duration_witness :
  validConfig 50 20 40
  ∧ 50 `div` (20 + 40) = 0
  ∧ ∃ n : nat,
      Z.of_nat n = 20 * 60
      ∧ (∀ k, (k < n)%nat →
           globalTimerState
             (Nat.iter k tick (startSegmentedTimer 0 50 20 40 initialWorld)) ≠ None)
      ∧ (∀ k, (n ≤ k)%nat →
           globalTimerState
             (Nat.iter k tick (startSegmentedTimer 0 50 20 40 initialWorld)) = None).
Proof.
  assert (Hv : validConfig 50 20 40) by (unfold validConfig; lia).
  assert (H0 : 50 `div` (20 + 40) = 0) by reflexivity.
  split; [exact Hv|]. split; [exact H0|].
  destruct (session_duration 0 50 20 40 initialWorld Hv)
    as (n & Hlive & Hidle & Hn & _).
  exists n. split; [exact (Hn H0)|]. split; [exact Hlive | exact Hidle].
Defined.

(** *** What a session announces *)

Lemma saveEveryTen_notifications w :
  notifications (saveEveryTen w) = notifications w.
Proof. unfold saveEveryTen. repeat case_match; cbn; congruence. Qed.

Lemma tick_announces w ts :
  globalTimerState w = Some ts → globalIsPaused w = false →
  notifications (tick w)
  = match tickNote ts with
    | Some n => n :: notifications w
    | None => notifications w
    end.
Proof.
  intros Hts Hp. unfold tick, tickNote. rewrite Hts, Hp. cbn zeta.
  repeat case_match; simplify_eq;
    rewrite ?saveEveryTen_notifications, ?stop_notifications; reflexivity.
Qed.

Lemma countTitle_cons ttl n log :
  countTitle ttl (n :: log)
  = ((if String.eqb (title n) ttl then 1 else 0) + countTitle ttl log)%nat.
Proof. unfold countTitle. cbn. destruct (String.eqb (title n) ttl); reflexivity. Qed.

(** One run of the callback on a running session: a break is announced
    exactly when one of the breaks still due is entered, and "Session
    Complete" exactly when the session ends, no break being due. *)
Lemma tickNote_accounts ts :
  match timerAfterTick ts with
  | Some ts' =>
      ∃ k : nat,
        (∀ log, match tickNote ts with
                | Some n => countTitle "Break Time 🕒" (n :: log)
                | None => countTitle "Break Time 🕒" log
                end = (k + countTitle "Break Time 🕒" log)%nat)
        ∧ Z.of_nat k + breaksLeft ts' = breaksLeft ts
        ∧ (∀ log, match tickNote ts with
                  | Some n => countTitle "Session Complete 🏁" (n :: log)
                  | None => countTitle "Session Complete 🏁" log
                  end = countTitle "Session Complete 🏁" log)
  | None => tickNote ts = Some sessionComplete ∧ breaksLeft ts = 0
  end.
Proof.
  unfold timerAfterTick, tickNote, breaksLeft. cbn.
  destruct (Z.leb_spec (currentTime ts - 1) 0) as [H0|H0].
  - destruct (isWorkTime ts) eqn:Ew.
    + destruct (Z.ltb_spec (currentBlock ts) (blocks ts - 1)) as [H1|H1]; cbn.
      { exists 1%nat. split; [intros log; reflexivity|].
        split; [|intros log; reflexivity].
        destruct (Z.ltb_spec (currentBlock ts) (blocks ts)); [|lia].
        destruct (Z.ltb_spec (currentBlock ts + 1) (blocks ts)); lia. }
      destruct (Z.eqb_spec (currentBlock ts) (blocks ts - 1)) as [H2|H2]; cbn.
      * destruct (Z.ltb_spec 0 (remainingTime ts)) as [H3|H3]; cbn.
        { exists 1%nat. split; [intros log; reflexivity|].
          split; [|intros log; reflexivity].
          destruct (Z.ltb_spec (currentBlock ts) (blocks ts)); [|lia].
          destruct (Z.ltb_spec (currentBlock ts + 1) (blocks ts)); lia. }
        split; [reflexivity|].
        destruct (Z.ltb_spec (currentBlock ts) (blocks ts)); lia.
      * split; [reflexivity|].
        destruct (Z.ltb_spec (currentBlock ts) (blocks ts)); lia.
    + destruct (Z.leb_spec (blocks ts) (currentBlock ts + 1)) as [H1|H1].
      * destruct (Z.ltb_spec 0 (remainingTime ts)) as [H2|H2].
        { exists 0%nat. split; [intros log; reflexivity|].
          split; [|intros log; reflexivity]. cbn.
          destruct (Z.ltb_spec (currentBlock ts + 1) (blocks ts)); lia. }
        split; [reflexivity|].
        destruct (Z.ltb_spec (currentBlock ts + 1) (blocks ts)); lia.
      * exists 0%nat. split; [intros log; reflexivity|].
        split; [|intros log; reflexivity]. cbn.
        destruct (Z.ltb_spec (currentBlock ts + 1) (blocks ts)); lia.
  - exists 0%nat. split; [reflexivity|]. split; [|reflexivity]. cbn. lia.
Qed.

Lemma run_announces n : ∀ w ts,
  globalTimerState w = Some ts → globalIsPaused w = false →
  runInv ts → ticksToGo ts = Z.of_nat n →
  Z.of_nat (countTitle "Break Time 🕒" (notifications (Nat.iter n tick w)))
  = Z.of_nat (countTitle "Break Time 🕒" (notifications w)) + breaksLeft ts
  ∧ countTitle "Session Complete 🏁" (notifications (Nat.iter n tick w))
    = S (countTitle "Session Complete 🏁" (notifications w))
  ∧ ∃ rest, notifications (Nat.iter n tick w) = sessionComplete :: rest.
Proof.
  induction n as [|n IH]; intros w ts Hts Hp Hinv Hgo.
  { pose proof (ticksToGo_positive ts Hinv). lia. }
  destruct (tick_running w ts Hts Hp) as [Hnext Hp'].
  pose proof (timerAfterTick_countdown ts Hinv) as Hstep.
  pose proof (tickNote_accounts ts) as Hacc.
  pose proof (tick_announces w ts Hts Hp) as Hlog.
  destruct (timerAfterTick ts) as [ts'|] eqn:E.
  - destruct Hstep as [Hinv' Hgo'].
    destruct (IH (tick w) ts' Hnext Hp' Hinv' ltac:(lia)) as (Hb & Hc & Hlast).
    destruct Hacc as (k & Hk & Hleft & Hcomplete).
    rewrite iter_shift. rewrite Hb, Hc, Hlog.
    specialize (Hk (notifications w)). specialize (Hcomplete (notifications w)).
    destruct (tickNote ts);
      (split; [lia | split; [lia | exact Hlast]]).
  - assert (n = 0%nat) as -> by lia. destruct Hacc as [Hnote Hleft].
    change (Nat.iter 1 tick w) with (tick w). rewrite Hlog, Hnote, Hleft.
    rewrite !countTitle_cons. cbn. split; [lia|]. split; [reflexivity|]. eauto.
Qed.

(** X6. Over a whole session started from a valid configuration the
    scheduler announces "Break Time" once for each break it enters, that
    is [blocks - 1] times when the blocks fill the total exactly and
    [blocks] times when a tail follows them (never after the last work
    phase, and not at all when no regular block fits), and it announces
    "Session Complete" exactly once, as the last notification. *)
Theorem session_announcements now t s g w :
  validConfig t s g →
  let blocks := t `div` (s + g) in
  let tail := t `mod` (s + g) in
  let done := Nat.iter (Z.to_nat (sessionTicks t s g)) tick
                (startSegmentedTimer now t s g w) in
  globalTimerState done = None
  ∧ Z.of_nat (countTitle "Break Time 🕒" (notifications done))
    = Z.of_nat (countTitle "Break Time 🕒" (notifications w))
      + (if 0 <? blocks then blocks - 1 + (if 0 <? tail then 1 else 0) else 0)
  ∧ countTitle "Session Complete 🏁" (notifications done)
    = S (countTitle "Session Complete 🏁" (notifications w))
  ∧ ∃ rest, notifications done = sessionComplete :: rest.
Proof.
  intros Hv. cbn zeta.
  set (w0 := startSegmentedTimer now t s g w).
  set (ts0 := mkTimerState t s g (s + g) (t `div` (s + g)) (Z.rem t (s + g))
                0 (s * 60) true now).
  destruct (session_length now t s g w Hv) as (n & Hn & _ & Hdone & _).
  destruct Hv as (Ht & Hs & Hlt & Hg).
  assert (Hts : globalTimerState w0 = Some ts0) by reflexivity.
  assert (Hp : globalIsPaused w0 = false) by reflexivity.
  assert (Hinv : runInv ts0).
  { split; cbn; try lia. intros ?; discriminate. }
  assert (Hgo : ticksToGo ts0 = sessionTicks t s g).
  { unfold ticksToGo, ticksFromBlock, breakTicks, sessionTicks. cbn.
    repeat case_match; lia. }
  assert (Hrem : Z.rem t (s + g) = t `mod` (s + g))
    by (apply Z.rem_mod_nonneg; lia).
  rewrite <- Hn, Nat2Z.id. fold w0.
  destruct (run_announces n w0 ts0 Hts Hp Hinv ltac:(lia)) as (Hb & Hc & Hlast).
  assert (Hlog : notifications w0
                 = mkNotification "Session Started"
                     ("Total " +:+ showZ t +:+ " mins | " +:+ showZ s
                        +:+ "-min sets + " +:+ showZ g +:+ "-min breaks | "
                        +:+ showZ (t `div` (s + g)) +:+ " segments")
                   :: notifications w)
    by (unfold w0, startSegmentedTimer;
        destruct (globalTimerInterval w); reflexivity).
  rewrite Hlog, countTitle_cons in Hb, Hc. cbn in Hb, Hc.
  split; [exact Hdone|]. split; [|split; [exact Hc | exact Hlast]].
  rewrite Hb. unfold breaksLeft. cbn. rewrite Hrem.
  repeat case_match; lia.
Qed.

Lemma session_announcements_witness :
  let done := Nat.iter (Z.to_nat (sessionTicks 4 1 1)) tick
                (startSegmentedTimer 0 4 1 1 initialWorld) in
  validConfig 4 1 1
  ∧ globalTimerState done = None
  ∧ Z.of_nat (countTitle "Break Time 🕒" (notifications done)) = 1
  ∧ map title (notifications done)
    = ["Session Complete 🏁"; "Segment 2 of 2"; "Break Time 🕒"; "Session Started"].
Proof.
  intros done.
  assert (Hv : validConfig 4 1 1) by (unfold validConfig; lia).
  destruct (session_announcements 0 4 1 1 initialWorld Hv) as (Hidle & Hb & _).
  split; [exact Hv|]. split; [exact Hidle|]. split; [exact Hb|].
  vm_compute. reflexivity.
Defined.

End SchedulerMore.

(* ===================================================================== *)
(** ** Properties of the popup's timer view *)
(* ===================================================================== *)

Module PopupProps.
Import Scheduler SchedulerNotions SchedulerProps SchedulerMore Popup PopupTimer.

(** What is known of the live timer object of a reachable world. *)
Lemma reachable_timer_facts w ts :
  reachable w → globalTimerState w = Some ts →
  timerInv ts ∧ configured ts ∧ phaseInv ts.
Proof.
  intros Hr Hts. split; [|split].
  - exact (inv_timer w (reachable_worldInv w Hr) ts Hts).
  - revert w Hr ts Hts. apply reachable_timer_ind.
    + intros now t s g w ts Hv [= <-]. split; cbn; [exact Hv | reflexivity..].
    + intros ts ts' _ [Hv Hf Hb Hrm] Hstep.
      destruct (timerAfterTick_config ts ts' Hstep)
        as (E1 & E2 & E3 & E4 & E5 & E6 & _).
      split; rewrite ?E1, ?E2, ?E3, ?E4, ?E5, ?E6; assumption.
  - revert w Hr ts Hts. apply reachable_timer_ind.
    + intros now t s g w ts. apply start_phaseInv.
    + intros ts ts'. apply timerAfterTick_phaseInv.
Qed.

(** X7. The popup's [isValidTimer] accepts a snapshot of a reachable
    session exactly when its [currentTime] is positive: always in a work
    phase and whenever the grace period is positive, but not during the
    break of a session without grace, whose snapshot (currentTime 0) it
    refuses. On every snapshot it accepts, the test that chooses between
    the countdown view and the set-up view picks the countdown view. *)
Theorem valid_snapshots w ts :
  reachable w → globalTimerState w = Some ts →
  isValidTimer (Some ts) = (0 <? currentTime ts)
  ∧ (isWorkTime ts = true ∨ 0 < grace ts → isValidTimer (Some ts) = true)
  ∧ (isWorkTime ts = false → grace ts = 0 → isValidTimer (Some ts) = false)
  ∧ showsCountdown ts = true.
Proof.
  intros Hr Hts.
  destruct (reachable_timer_facts w ts Hr Hts)
    as ([Hs Hg Hb Hlo Hhi Ht Hbr] & [(Hv1 & Hv2 & Hv3 & Hv4) Hf Hbl Hrm]
        & [Hup Hwk Hbk]).
  assert (Hvalid : isValidTimer (Some ts) = (0 <? currentTime ts)).
  { unfold isValidTimer.
    destruct (Z.ltb_spec 0 (total ts)); [|lia].
    destruct (Z.ltb_spec 0 (segment ts)); [|lia].
    destruct (Z.leb_spec 0 (grace ts)); [|lia].
    destruct (Z.leb_spec 0 (currentBlock ts)); [|lia].
    destruct (Z.leb_spec (currentBlock ts) (blocks ts)); [|lia].
    destruct (Z.leb_spec 0 (currentTime ts)); [|lia].
    cbn. rewrite !andb_true_r. reflexivity. }
  split; [exact Hvalid|]. split; [|split].
  - intros H. rewrite Hvalid. apply Z.ltb_lt.
    destruct H as [H|H]; [specialize (Hwk H); lia|].
    destruct (isWorkTime ts) eqn:E;
      [specialize (Hwk eq_refl) | specialize (Hbk eq_refl H)]; lia.
  - intros Hw H0. rewrite Hvalid. apply Z.ltb_ge.
    unfold phaseLength in Hup. rewrite Hw, H0 in Hup. lia.
  - unfold showsCountdown, breakHasSuccessor in *.
    destruct (Z.ltb_spec 0 (currentTime ts)) as [|H0]; [reflexivity|]. cbn.
    destruct (isWorkTime ts) eqn:E; [specialize (Hwk eq_refl); lia|].
    destruct (Hbr eq_refl) as [H|[H1 H2]].
    + apply Z.ltb_lt in H. rewrite H. reflexivity.
    + apply Z.eqb_eq in H1. apply Z.ltb_lt in H2. rewrite H1, H2.
      apply orb_true_r.
Qed.

Lemma reachable_2_1_0 n :
  reachable (Nat.iter n elapseSecond
               (snd (onMessage 0 (START_TIMER 2 1 0) initialWorld))).
Proof.
  apply reachable_seconds.
  assert (Hv : validMessage (START_TIMER 2 1 0))
    by (unfold validMessage, validConfig; lia).
  exact (reachable_message 0 (START_TIMER 2 1 0) initialWorld reachable_init Hv).
Defined.

Lemma valid_snapshots_witness :
  let w := Nat.iter 60 elapseSecond
             (snd (onMessage 0 (START_TIMER 2 1 0) initialWorld)) in
  let ts := mkTimerState 2 1 0 1 2 0 0 0 false 0 in
  reachable w ∧ globalTimerState w = Some ts
  ∧ isWorkTime ts = false ∧ grace ts = 0
  ∧ isValidTimer (Some ts) = false.
Proof.
  intros w ts.
  assert (Hts : globalTimerState w = Some ts) by (vm_compute; reflexivity).
  destruct (valid_snapshots w ts (reachable_2_1_0 60) Hts) as (_ & _ & H & _).
  split; [exact (reachable_2_1_0 60)|]. split; [exact Hts|].
  split; [reflexivity|]. split; [reflexivity|]. exact (H eq_refl eq_refl).
Defined.

Lemma final_segment_title a b : "Segment " +:+ a +:+ " of " +:+ b ≠ "Final Segment".
Proof. discriminate. Qed.

Lemma final_break_title a : "Break after Segment " +:+ a ≠ "Final Break".
Proof. discriminate. Qed.

(** X8. On the snapshot of a reachable session the poll of the countdown
    view never finds its "Timer has ended" condition true (the popup learns
    of the end of a session only from the absence of a timer), and the
    label of the countdown is never "Final Break": in a break it names the
    segment just finished, and it is "Final Segment" exactly in the work
    phase that follows the last regular block. *)
Theorem countdown_labels w ts :
  reachable w → globalTimerState w = Some ts →
  timerHasEnded ts = false
  ∧ segmentDisplay ts ≠ "Final Break"
  ∧ (isWorkTime ts = false →
     segmentDisplay ts = "Break after Segment " +:+ showZ (currentBlock ts + 1))
  ∧ (segmentDisplay ts = "Final Segment"
     ↔ isWorkTime ts = true ∧ blocks ts ≤ currentBlock ts).
Proof.
  intros Hr Hts.
  destruct (reachable_timer_facts w ts Hr Hts) as ([Hs Hg Hb Hlo Hhi Ht Hbr] & _).
  unfold timerHasEnded, segmentDisplay, breakHasSuccessor in *.
  destruct (isWorkTime ts) eqn:E.
  - rewrite andb_false_r.
    destruct (Z.ltb_spec (currentBlock ts) (blocks ts)).
    + split; [reflexivity|]. split; [discriminate|]. split; [discriminate|].
      split; [intros H'; exfalso; exact (final_segment_title _ _ H') | lia].
    + split; [reflexivity|]. split; [discriminate|]. split; [discriminate|].
      split; [auto | reflexivity].
  - assert (currentBlock ts < blocks ts) by (destruct (Hbr eq_refl); lia).
    destruct (Z.ltb_spec (currentBlock ts) (blocks ts)); [|lia].
    destruct (Z.leb_spec (blocks ts) (currentBlock ts)); [lia|].
    rewrite andb_false_r. cbn.
    split; [reflexivity|]. split; [apply final_break_title|].
    split; [reflexivity|].
    split; [discriminate | intros [? _]; discriminate].
Qed.

Lemma countdown_labels_witness :
  let w := Nat.iter 60 elapseSecond
             (snd (onMessage 0 (START_TIMER 4 1 1) initialWorld)) in
  let ts := mkTimerState 4 1 1 2 2 0 0 60 false 0 in
  reachable w ∧ globalTimerState w = Some ts
  ∧ timerHasEnded ts = false
  ∧ segmentDisplay ts = "Break after Segment 1".
Proof.
  intros w ts.
  assert (Hts : globalTimerState w = Some ts) by (vm_compute; reflexivity).
  destruct (countdown_labels w ts (reachable_4_1_1 60) Hts) as (H1 & _ & H3 & _).
  split; [exact (reachable_4_1_1 60)|]. split; [exact Hts|].
  split; [exact H1|]. exact (H3 eq_refl).
Defined.

(** *** The progress estimate *)

Lemma reachable_runInv w ts :
  reachable w → globalTimerState w = Some ts → runInv ts.
Proof.
  intros Hr Hts.
  destruct (reachable_timer_facts w ts Hr Hts)
    as ([Hs Hg Hb Hlo Hhi Ht Hbr] & _ & [Hup Hwk Hbk]).
  split; assumption.
Qed.

(** X9. For a running session with a positive grace period, the popup's
    [getTotalRemainingTime] differs from the seconds the scheduler really
    has to go, [n], in a fixed way: when the blocks fill the total exactly
    it counts a break after the last segment that the scheduler skips, so
    it is [grace * 60] too high until the last block is reached and exact
    from then on; when a tail follows the blocks it leaves the tail out, so
    it is [remainingTime * 60] too low until the tail itself is running. *)
Theorem remaining_time_estimate w ts :
  reachable w → globalTimerState w = Some ts →
  globalIsPaused w = false → 0 < grace ts →
  ∃ n : nat,
    (∀ k, (k < n)%nat → globalTimerState (Nat.iter k tick w) ≠ None)
    ∧ globalTimerState (Nat.iter n tick w) = None
    ∧ getTotalRemainingTime ts
      = Z.of_nat n
        + (if 0 <? remainingTime ts
           then if isWorkTime ts && (blocks ts <=? currentBlock ts)
                then 0 else - (remainingTime ts * 60)
           else if currentBlock ts <? blocks ts - 1
                then grace ts * 60 else 0).
Proof.
  intros Hr Hts Hp Hg.
  pose proof (reachable_runInv w ts Hr Hts) as Hrun.
  pose proof (ticksToGo_positive ts Hrun) as Hpos.
  destruct (reachable_timer_facts w ts Hr Hts)
    as ([Hs _ Hb Hlo Hhi Ht Hbr] & [_ Hf _ _] & [Hup Hwk Hbk]).
  destruct (run_to_completion (Z.to_nat (ticksToGo ts)) w ts Hts Hp Hrun
              ltac:(lia)) as [Hlive Hdone].
  exists (Z.to_nat (ticksToGo ts)).
  split; [exact Hlive|]. split; [exact Hdone|].
  rewrite Z2Nat.id by lia.
  unfold getTotalRemainingTime, ticksToGo, ticksFromBlock, breakTicks,
    breakHasSuccessor in *.
  rewrite Hf. replace (Z.max 1 (grace ts * 60)) with (grace ts * 60) by lia.
  destruct (isWorkTime ts) eqn:E; cbn [andb].
  - destruct (Z.ltb_spec (currentBlock ts) (blocks ts - 1));
      destruct (Z.eqb_spec (currentBlock ts) (blocks ts - 1));
      destruct (Z.ltb_spec (currentBlock ts) (blocks ts));
      destruct (Z.leb_spec (blocks ts) (currentBlock ts));
      destruct (Z.ltb_spec 0 (remainingTime ts)); lia.
  - specialize (Hbk eq_refl Hg).
    replace (Z.max 1 (currentTime ts)) with (currentTime ts) by lia.
    destruct (Hbr eq_refl) as [H|[H1 H2]];
      destruct (Z.ltb_spec (currentBlock ts) (blocks ts - 1));
      destruct (Z.ltb_spec (currentBlock ts) (blocks ts));
      destruct (Z.ltb_spec (currentBlock ts + 1) (blocks ts));
      destruct (Z.ltb_spec 0 (remainingTime ts)); lia.
Qed.

Lemma remaining_time_estimate_witness :
  let w := snd (onMessage 0 (START_TIMER 4 1 1) initialWorld) in
  let ts := mkTimerState 4 1 1 2 2 0 0 60 true 0 in
  reachable w ∧ globalTimerState w = Some ts
  ∧ globalIsPaused w = false ∧ 0 < grace ts
  ∧ ∃ n : nat,
      globalTimerState (Nat.iter n tick w) = None
      ∧ getTotalRemainingTime ts = Z.of_nat n + 60.
Proof.
  intros w ts.
  assert (Hts : globalTimerState w = Some ts) by reflexivity.
  assert (Hp : globalIsPaused w = false) by reflexivity.
  assert (Hg : 0 < grace ts) by (cbn; lia).
  destruct (remaining_time_estimate w ts (reachable_4_1_1 0) Hts Hp Hg)
    as (n & _ & Hdone & Hest).
  split; [exact (reachable_4_1_1 0)|]. split; [exact Hts|].
  split; [exact Hp|]. split; [exact Hg|].
  exists n. split; [exact Hdone | exact Hest].
Defined.

(** X10. On the snapshot of a reachable session the popup's estimate of
    the remaining time lies between 0 and [total * 60], so the elapsed
    time from which the progress bar is drawn is never negative and never
    more than the configured total. *)
Theorem progress_within_total w ts :
  reachable w → globalTimerState w = Some ts →
  0 ≤ getTotalRemainingTime ts ≤ total ts * 60
  ∧ 0 ≤ totalElapsedSeconds ts ≤ total ts * 60.
Proof.
  intros Hr Hts.
  destruct (reachable_timer_facts w ts Hr Hts)
    as ([Hs Hg Hb Hlo Hhi Ht Hbr] & Hc & [Hup Hwk Hbk]).
  destruct (configured_arith ts Hc) as (_ & Hrm & Hsum).
  destruct Hc as [(Hv1 & Hv2 & Hv3 & Hv4) Hf _ _].
  enough (0 ≤ getTotalRemainingTime ts ≤ total ts * 60)
    by (unfold totalElapsedSeconds; lia).
  unfold getTotalRemainingTime, phaseLength, breakHasSuccessor in *.
  destruct (isWorkTime ts) eqn:E.
  - destruct (Z.ltb_spec (currentBlock ts) (blocks ts - 1)) as [H1|H1].
    + destruct (Z.ltb_spec (currentBlock ts) (blocks ts)); [|lia].
      cbn in Hup.
      assert (0 ≤ (blocks ts - currentBlock ts - 1) * fullBlock ts)
        by (apply Z.mul_nonneg_nonneg; lia).
      assert (0 ≤ currentBlock ts * fullBlock ts)
        by (apply Z.mul_nonneg_nonneg; lia).
      lia.
    + destruct (Z.eqb_spec (currentBlock ts) (blocks ts - 1)) as [H2|H2].
      * destruct (Z.ltb_spec (currentBlock ts) (blocks ts)); [|lia].
        cbn in Hup.
        assert (0 ≤ (blocks ts - 1) * fullBlock ts)
          by (apply Z.mul_nonneg_nonneg; lia).
        destruct (Z.ltb_spec 0 (remainingTime ts)); lia.
      * assert (currentBlock ts = blocks ts) by lia.
        destruct (Z.ltb_spec (currentBlock ts) (blocks ts)); [lia|].
        assert (0 ≤ blocks ts * fullBlock ts)
          by (apply Z.mul_nonneg_nonneg; lia).
        destruct (Z.leb_spec (blocks ts) 0); cbn in Hup; lia.
  - assert (currentBlock ts < blocks ts) by (destruct (Hbr eq_refl); lia).
    destruct (Z.ltb_spec (currentBlock ts) (blocks ts)); [|lia].
    assert (0 ≤ (blocks ts - currentBlock ts - 1) * fullBlock ts)
      by (apply Z.mul_nonneg_nonneg; lia).
    assert (0 ≤ currentBlock ts * fullBlock ts)
      by (apply Z.mul_nonneg_nonneg; lia).
    lia.
Qed.

Lemma progress_within_total_witness :
  let w := Nat.iter 60 elapseSecond
             (snd (onMessage 0 (START_TIMER 4 1 1) initialWorld)) in
  let ts := mkTimerState 4 1 1 2 2 0 0 60 false 0 in
  reachable w ∧ globalTimerState w = Some ts
  ∧ 0 ≤ totalElapsedSeconds ts ≤ total ts * 60.
Proof.
  intros w ts.
  assert (Hts : globalTimerState w = Some ts) by (vm_compute; reflexivity).
  split; [exact (reachable_4_1_1 60)|]. split; [exact Hts|].
  exact (proj2 (progress_within_total w ts (reachable_4_1_1 60) Hts)).
Defined.

(** *** The start button *)

(** X11. The click handler of the start button sends START_TIMER exactly
    when the three fields read as integers forming a valid configuration,
    and the message then carries these three integers; a total that does
    not read as a positive integer is reported first, whatever the other
    fields hold. *)
Theorem start_button_accepts total segment grace t s g :
  (startBtnClick total segment grace = Posted (START_TIMER t s g)
   ↔ total = Some t ∧ segment = Some s ∧ grace = Some g ∧ validConfig t s g)
  ∧ ((total = None ∨ ∃ t', total = Some t' ∧ t' ≤ 0) →
     startBtnClick total segment grace
     = Alert "Please enter a valid total time (greater than 0)").
Proof.
  unfold startBtnClick, validConfig. split.
  - destruct total as [t'|]; [|split; [discriminate | intros (Hx & _); discriminate]].
    destruct (Z.eqb_spec t' 0), (Z.leb_spec t' 0); cbn;
      try (split; [discriminate | intros ([= <-] & _ & _ & Hx); lia]).
    destruct segment as [s'|];
      [|split; [discriminate | intros (_ & Hx & _); discriminate]].
    destruct (Z.eqb_spec s' 0), (Z.leb_spec s' 0); cbn;
      try (split; [discriminate | intros (_ & [= <-] & _ & Hx); lia]).
    destruct grace as [g'|].
    + destruct (Z.ltb_spec g' 0);
        [split; [discriminate | intros (_ & _ & [= <-] & Hx); lia]|].
      destruct (Z.leb_spec t' s').
      * split; [discriminate | intros ([= <-] & [= <-] & _ & Hx); lia].
      * split.
        -- intros [= <- <- <-]. repeat split; lia.
        -- intros ([= <-] & [= <-] & [= <-] & _). reflexivity.
    + destruct (Z.leb_spec t' s');
        (split; [discriminate | intros (_ & _ & Hx & _); discriminate]).
  - intros [->|(t' & -> & Hle)]; [reflexivity|].
    destruct (Z.eqb_spec t' 0), (Z.leb_spec t' 0); cbn; try reflexivity; lia.
Qed.

Lemma start_button_accepts_witness :
  validConfig 50 20 5
  ∧ startBtnClick (Some 50) (Some 20) (Some 5) = Posted (START_TIMER 50 20 5).
Proof.
  assert (Hv : validConfig 50 20 5) by (unfold validConfig; lia).
  split; [exact Hv|].
  apply (proj1 (start_button_accepts (Some 50) (Some 20) (Some 5) 50 20 5)).
  auto.
Defined.

End PopupProps.

(* ===================================================================== *)
(** ** More about the gateway *)
(* ===================================================================== *)

Module GatewayMore.
Import Json Text Zod Gateway GatewayNotions TextProps GatewayProps.

Lemma optionalString_only p v :
  fst (parseAt (ZOptional (ZString None None)) p v) = [] → absentOrString v.
Proof.
  destruct v as [v|]; [|left; reflexivity].
  rewrite parseAt_optional. intros H.
  destruct (anyString_only _ _ H) as [s' ->]. right. eauto.
Qed.

Lemma optionalNumber_only p v :
  fst (parseAt (ZOptional (ZNumber None None)) p v) = [] → absentOrNumber v.
Proof.
  destruct v as [[]|]; cbn; try discriminate; [right; eauto | left; reflexivity].
Qed.

Lemma optionalString_accepted p v :
  absentOrString v →
  parseAt (ZOptional (ZString None None)) p v = ([], v).
Proof. intros [->|[s' ->]]; reflexivity. Qed.

Lemma optionalNumber_accepted p v :
  absentOrNumber v →
  parseAt (ZOptional (ZNumber None None)) p v = ([], v).
Proof. intros [->|[q ->]]; reflexivity. Qed.

Lemma dreamText_only p v :
  fst (parseAt (ZString (Some (20%nat, "Dream text must be at least 20 characters"))
                  (Some (2000%nat, "Dream text cannot exceed 2000 characters")))
         p v) = [] →
  ∃ text, v = Some (JStr text) ∧ (20 ≤ jsLength text ≤ 2000)%nat.
Proof.
  destruct v as [[]|]; cbn -[Nat.ltb]; try discriminate.
  destruct (Nat.ltb_spec (jsLength s) 20); [discriminate|].
  destruct (Nat.ltb_spec 2000 (jsLength s)); [discriminate|].
  intros _. exists s. split; [reflexivity | lia].
Qed.

Section Route.

Variable JSON_parse : string → option json.
Variable systemPrompt : string.

(** X12. The handler of the route, once a request has passed the rate
    limiter, whatever value it finds in [req.body]: it calls the
    completion service exactly when that value is an object with a string
    of 20 to 2000 characters (UTF-16 code units) under [dreamText],
    nothing or a string under [userId] and nothing or a number under
    [timestamp] (other keys are ignored); the user message is then
    "Analyze this dream: " followed by that text. On every other value the
    handler answers 400 with a message that starts with "Validation
    failed: ", without any call. *)
Theorem route_accepts rid now reqBody :
  (∀ req k,
     analyzeDream JSON_parse systemPrompt rid now reqBody = CallOpenAI req k
     ↔ ∃ text, acceptableBody reqBody text
               ∧ req = mkChatRequest systemPrompt ("Analyze this dream: " +:+ text)
               ∧ k = afterCompletion JSON_parse rid now)
  ∧ ((∃ text, acceptableBody reqBody text)
     ∨ ∃ errors,
         analyzeDream JSON_parse systemPrompt rid now reqBody
         = Respond (failure 400 ("Validation failed: " +:+ errors) rid)).
Proof.
  assert (Hok : ∀ text, acceptableBody reqBody text →
            analyzeDream JSON_parse systemPrompt rid now reqBody
            = CallOpenAI
                (mkChatRequest systemPrompt ("Analyze this dream: " +:+ text))
                (afterCompletion JSON_parse rid now)).
  { intros text (fields & -> & Htext & Hlen & Hu & Ht).
    unfold analyzeDream, safeParse, DreamAnalysisSchema.
    rewrite parseAt_object. cbn [eachField fst snd app].
    rewrite Htext, parseAt_string, (optionalString_accepted _ _ Hu),
      (optionalNumber_accepted _ _ Ht).
    destruct (Nat.ltb_spec (jsLength text) 20); [lia|].
    destruct (Nat.ltb_spec 2000 (jsLength text)); [lia|].
    cbn [fst snd app].
    destruct (lookup "userId" fields), (lookup "timestamp" fields); reflexivity. }
  assert (Hcases : (∃ text, acceptableBody reqBody text)
            ∨ ∃ errors,
                analyzeDream JSON_parse systemPrompt rid now reqBody
                = Respond (failure 400 ("Validation failed: " +:+ errors) rid)).
  { unfold analyzeDream, safeParse.
    destruct (parseAt DreamAnalysisSchema [] (Some reqBody)) as [issues data] eqn:E.
    destruct issues as [|issue issues];
      [|right; eexists; reflexivity].
    left. unfold DreamAnalysisSchema in E.
    destruct reqBody; try discriminate E.
    rewrite parseAt_object in E. cbn [eachField fst snd app] in E.
    injection E as E _.
    apply app_eq_nil in E as [E1 E]. apply app_eq_nil in E as [E2 E].
    apply app_eq_nil in E as [E3 _].
    destruct (dreamText_only _ _ E1) as (text & Htext & Hlen).
    exists text, fields. split; [reflexivity|]. split; [exact Htext|].
    split; [exact Hlen|].
    split; [exact (optionalString_only _ _ E2) | exact (optionalNumber_only _ _ E3)]. }
  split; [|exact Hcases].
  intros req k. split.
  - intros Hrun. destruct Hcases as [(text & Hacc)|(errors & Herr)].
    + exists text. rewrite (Hok text Hacc) in Hrun. injection Hrun as <- <-.
      auto.
    + rewrite Herr in Hrun. discriminate.
  - intros (text & Hacc & -> & ->). apply Hok, Hacc.
Qed.

(** The validated data are the values found under the five keys. *)
Lemma analysisSchema_keeps fields e t i sy c :
  lookup "emotions" fields = Some (JArr (map JStr e)) →
  lookup "themes" fields = Some (JArr (map JStr t)) →
  lookup "interpretation" fields = Some (JStr i) →
  lookup "symbols" fields = Some (JArr (map JStr sy)) →
  lookup "confidence" fields = Some (JNum c) →
  (0 <= c)%Q → (c <= 1)%Q →
  safeParse analysisSchema (JObj fields) = Success (JObj (analysisData e t i sy c)).
Proof.
  intros He Ht Hi Hsy Hc H0 H1. unfold safeParse, analysisSchema.
  rewrite parseAt_object. cbn [eachField fst snd app].
  rewrite He, Ht, Hi, Hsy, Hc.
  rewrite !stringArray_accepted, (unitInterval_accepted _ c H0 H1).
  reflexivity.
Qed.

(** X13. The route answers 200 exactly when the completion service
    returned a text that parses to an object of the five-key shape. The
    analysis it relays is then normalised: under [data] there are the
    values found under [emotions], [themes], [interpretation], [symbols]
    and [confidence], in this order, followed by [timestamp] with the time
    of the answer; every other key of the model's object is dropped. *)
Theorem relay_normalises rid now up :
  (status (afterCompletion JSON_parse rid now up) = 200%nat
   ↔ ∃ content v, up = Completed content ∧ JSON_parse content = Some v
                  ∧ matchesAnalysis v)
  ∧ ∀ content fields e t i sy c,
      up = Completed content →
      JSON_parse content = Some (JObj fields) →
      lookup "emotions" fields = Some (JArr (map JStr e)) →
      lookup "themes" fields = Some (JArr (map JStr t)) →
      lookup "interpretation" fields = Some (JStr i) →
      lookup "symbols" fields = Some (JArr (map JStr sy)) →
      lookup "confidence" fields = Some (JNum c) →
      (0 <= c)%Q → (c <= 1)%Q →
      afterCompletion JSON_parse rid now up
      = mkHttpResponse 200
          (JObj [("success", JBool true);
                 ("data", JObj [("emotions", JArr (map JStr e));
                                ("themes", JArr (map JStr t));
                                ("interpretation", JStr i);
                                ("symbols", JArr (map JStr sy));
                                ("confidence", JNum c);
                                ("timestamp", JNum (inject_Z now))]);
                 ("requestId", JStr rid)]).
Proof.
  split.
  - split.
    + destruct up as [content|code].
      * destruct (JSON_parse content) as [v|] eqn:Hp.
        -- destruct (safeParse analysisSchema v) as [d|issues] eqn:E.
           ++ intros _. exists content, v.
              split; [reflexivity|]. split; [exact Hp|].
              exact (analysisSchema_only v d E).
           ++ unfold afterCompletion. rewrite Hp, E. cbn. discriminate.
        -- unfold afterCompletion. rewrite Hp. cbn. discriminate.
      * unfold afterCompletion. repeat case_match; cbn; discriminate.
    + intros (content & v & -> & Hp & Hm).
      destruct (completion_accepted JSON_parse rid now content v Hp Hm)
        as (e & t & i & sy & c & ->).
      reflexivity.
  - intros content fields e t i sy c -> Hp He Ht Hi Hsy Hc H0 H1.
    unfold afterCompletion.
    rewrite Hp, (analysisSchema_keeps fields e t i sy c He Ht Hi Hsy Hc H0 H1).
    destruct (response_accepted e t i sy c now rid H0 H1) as [d ->].
    reflexivity.
Qed.

(** X14. Whatever the completion service does, the answer of the route is
    either the relayed analysis (status 200) or one of five fixed failures
    built from the request identifier: 500 for a text that does not parse,
    500 for a value of the wrong shape, 429 for an exception with code
    [insufficient_quota], 429 for one with code [rate_limit_exceeded] and
    500 for any other exception. The check of the finished answer never
    fails: "Response validation failed" is never sent. *)
Theorem route_answers rid now up :
  let r := afterCompletion JSON_parse rid now up in
  (status r = 200%nat
   ∨ r = failure 500 "Failed to parse dream analysis response" rid
   ∨ r = failure 500 "Invalid dream analysis response format" rid
   ∨ r = failure 429 "API quota exceeded. Please try again later." rid
   ∨ r = failure 429 "Rate limit exceeded. Please try again in a moment." rid
   ∨ r = failure 500 "Internal server error during dream analysis" rid)
  ∧ r ≠ failure 500 "Response validation failed" rid
  ∧ (status r = 429%nat
     ↔ up = Threw (Some "insufficient_quota")
       ∨ up = Threw (Some "rate_limit_exceeded")).
Proof.
  cbn zeta. destruct up as [content|code].
  - destruct (JSON_parse content) as [v|] eqn:Hp.
    + destruct (safeParse analysisSchema v) as [d|issues] eqn:E.
      * pose proof (analysisSchema_only v d E) as Hm.
        destruct (completion_accepted JSON_parse rid now content v Hp Hm)
          as (e & t & i & sy & c & ->).
        split; [left; reflexivity|]. split; [discriminate|].
        split; [discriminate | intros [H|H]; discriminate].
      * unfold afterCompletion. rewrite Hp, E.
        split; [right; right; left; reflexivity|]. split; [discriminate|].
        split; [discriminate | intros [H|H]; discriminate].
    + unfold afterCompletion. rewrite Hp.
      split; [right; left; reflexivity|]. split; [discriminate|].
      split; [discriminate | intros [H|H]; discriminate].
  - unfold afterCompletion.
    destruct (bool_decide (code = Some "insufficient_quota")) eqn:E1.
    { apply bool_decide_eq_true in E1 as ->.
      split; [do 3 right; left; reflexivity|]. split; [discriminate|].
      split; [intros _; left; reflexivity | reflexivity]. }
    destruct (bool_decide (code = Some "rate_limit_exceeded")) eqn:E2.
    { apply bool_decide_eq_true in E2 as ->.
      split; [do 4 right; left; reflexivity|]. split; [discriminate|].
      split; [intros _; right; reflexivity | reflexivity]. }
    apply bool_decide_eq_false in E1, E2.
    split; [do 5 right; reflexivity|]. split; [discriminate|].
    split; [discriminate | intros [[= ->]|[= ->]]; contradiction].
Qed.

End Route.

Lemma relay_normalises_witness :
  let answer := JObj [("note", JStr "ignored"); ("confidence", JNum (1 # 2));
                      ("symbols", JArr []); ("themes", JArr [JStr "flying"]);
                      ("interpretation", JStr "Freedom."); ("emotions", JArr [])] in
  let parse := λ _ : string, Some answer in
  parse "{...}" = Some answer
  ∧ afterCompletion parse "req_1" 7 (Completed "{...}")
    = mkHttpResponse 200
        (JObj [("success", JBool true);
               ("data", JObj [("emotions", JArr []);
                              ("themes", JArr [JStr "flying"]);
                              ("interpretation", JStr "Freedom.");
                              ("symbols", JArr []);
                              ("confidence", JNum (1 # 2));
                              ("timestamp", JNum (inject_Z 7))]);
               ("requestId", JStr "req_1")]).
Proof.
  intros answer parse. split; [reflexivity|].
  refine (proj2 (relay_normalises parse "req_1" 7 (Completed "{...}"))
            "{...}" _ [] ["flying"] "Freedom." [] (1 # 2)
            eq_refl eq_refl eq_refl eq_refl eq_refl eq_refl eq_refl _ _);
    unfold Qle; cbn; lia.
Defined.

Lemma route_accepts_witness :
  let text := "I was flying over the café." in
  let reqBody := JObj [("dreamText", JStr text); ("mood", JStr "calm")] in
  acceptableBody reqBody text
  ∧ analyzeDream (λ _, None) "prompt" "req_1" 7 reqBody
    = CallOpenAI (mkChatRequest "prompt" ("Analyze this dream: " +:+ text))
        (afterCompletion (λ _, None) "req_1" 7).
Proof.
  intros text reqBody.
  assert (Hok : acceptableBody reqBody text).
  { eexists. split; [reflexivity|]. split; [reflexivity|].
    split; [count_units|]. split; left; reflexivity. }
  split; [exact Hok|].
  apply (proj1 (route_accepts (λ _, None) "prompt" "req_1" 7 reqBody)).
  exists text. auto.
Defined.

End GatewayMore.

(* ===================================================================== *)
(** ** Properties of the CORS middleware *)
(* ===================================================================== *)

Module CorsProps.
Import LocalAnalysis TextProps LocalProps Cors.

(** X15. The CORS middleware answers a request of method OPTIONS itself
    with status 200 and hands every other request on. It sets
    [Access-Control-Allow-Origin] exactly when the request has no (or an
    empty) origin, to ["*"], or when its origin contains
    "chrome-extension://", "localhost" or "127.0.0.1" anywhere, to that
    origin; the three other CORS headers are set on every answer. *)
Theorem cors_headers req :
  (snd (corsMiddleware req)
   = if String.eqb (method req) "OPTIONS" then Ended 200 else Next)
  ∧ (∀ v, header "Access-Control-Allow-Origin" (fst (corsMiddleware req)) = Some v
          ↔ ((origin req = None ∨ origin req = Some "") ∧ v = "*")
            ∨ (origin req = Some v ∧ v ≠ ""
               ∧ (contains v "chrome-extension://" ∨ contains v "localhost"
                  ∨ contains v "127.0.0.1")))
  ∧ header "Access-Control-Allow-Methods" (fst (corsMiddleware req))
    = Some "POST, OPTIONS"
  ∧ header "Access-Control-Allow-Headers" (fst (corsMiddleware req))
    = Some "Content-Type, Authorization, X-User-ID"
  ∧ header "Access-Control-Allow-Credentials" (fst (corsMiddleware req))
    = Some "true".
Proof.
  unfold corsMiddleware, contains. cbn [fst snd].
  split; [reflexivity|].
  destruct (origin req) as [o|] eqn:Eo.
  - destruct (String.eqb_spec o "") as [->|Hne].
    + cbn. split; [|auto]. intros v. split.
      * intros [= <-]. left. auto.
      * intros [[_ ->]|(H & Hv & _)]; [reflexivity|]. congruence.
    + cbn [orb].
      destruct (includes o "chrome-extension://" || includes o "localhost"
                || includes o "127.0.0.1") eqn:E.
      * cbn. split; [|auto]. intros v. split.
        -- intros [= <-]. right. split; [reflexivity|]. split; [exact Hne|].
           rewrite !orb_true_iff, !includes_spec in E. tauto.
        -- intros [[[H|H] _]|(H & _)]; congruence.
      * cbn. split; [|auto]. intros v. split; [discriminate|].
        intros [[[H|H] _]|([= <-] & _ & H)]; try congruence.
        rewrite <- !includes_spec, <- !orb_true_iff, orb_assoc in H. congruence.
  - cbn. split; [|auto]. intros v. split.
    + intros [= <-]. left. auto.
    + intros [[_ ->]|(H & _)]; [reflexivity | discriminate].
Qed.

End CorsProps.

(* ===================================================================== *)
(** ** Properties of the API client *)
(* ===================================================================== *)

Module ClientProps.
Import Json Text Zod Gateway TextProps GatewayProps JournalClient JournalApi.

(** *** The client's own check of an analysis *)

(** X16. [_validateAnalysisData] lets an object through exactly when it
    has arrays under [emotions], [themes] and [symbols], a string under
    [interpretation] and a number between 0 and 1 under [confidence];
    neither the items of the arrays nor any other key are looked at. When
    a required key is absent, the error names the first absent one in the
    order emotions, themes, interpretation, symbols, confidence. *)
Theorem client_check_accepts fields :
  (validateAnalysisData fields = None
   ↔ isArray (lookup "emotions" fields) = true
     ∧ isArray (lookup "themes" fields) = true
     ∧ isArray (lookup "symbols" fields) = true
     ∧ isString (lookup "interpretation" fields) = true
     ∧ ∃ c, lookup "confidence" fields = Some (JNum c) ∧ (0 <= c)%Q ∧ (c <= 1)%Q)
  ∧ (∀ field, List.find (λ f, negb (bool_decide (is_Some (lookup f fields))))
                requiredFields = Some field →
     validateAnalysisData fields = Some ("Invalid response: missing " +:+ field)).
Proof.
  split.
  - unfold validateAnalysisData, requiredFields. cbn [List.find].
    destruct (lookup "emotions" fields) as [ve|] eqn:Ee; cbn;
      [|split; [discriminate | intros (H & _); discriminate]].
    destruct (lookup "themes" fields) as [vt|] eqn:Et; cbn;
      [|split; [discriminate | intros (_ & H & _); discriminate]].
    destruct (lookup "interpretation" fields) as [vi|] eqn:Ei; cbn;
      [|split; [discriminate | intros (_ & _ & _ & H & _); discriminate]].
    destruct (lookup "symbols" fields) as [vs|] eqn:Es; cbn;
      [|split; [discriminate | intros (_ & _ & H & _); discriminate]].
    destruct (lookup "confidence" fields) as [vc|] eqn:Ec; cbn;
      [|split; [discriminate | intros (_ & _ & _ & _ & c & H & _); discriminate]].
    rewrite ?bool_decide_eq_true_2 by eauto. cbn.
    destruct ve; cbn;
      try (split; [discriminate | intros (H & _); discriminate]).
    destruct vt; cbn;
      try (split; [discriminate | intros (_ & H & _); discriminate]).
    destruct vs; cbn;
      try (split; [discriminate | intros (_ & _ & H & _); discriminate]).
    destruct vi; cbn;
      try (split; [discriminate | intros (_ & _ & _ & H & _); discriminate]).
    destruct vc as [| |c| | |];
      try (split; [discriminate | intros (_ & _ & _ & _ & c' & H & _); discriminate]).
    destruct (Qle_bool 0 c) eqn:E0; destruct (Qle_bool c 1) eqn:E1; cbn.
    + split; [|reflexivity]. intros _. repeat split.
      exists c. rewrite <- !Qle_bool_iff. auto.
    + split; [discriminate|].
      intros (_ & _ & _ & _ & c' & [= <-] & _ & H).
      apply Qle_bool_iff in H. congruence.
    + split; [discriminate|].
      intros (_ & _ & _ & _ & c' & [= <-] & H & _).
      apply Qle_bool_iff in H. congruence.
    + split; [discriminate|].
      intros (_ & _ & _ & _ & c' & [= <-] & H & _).
      apply Qle_bool_iff in H. congruence.
  - intros field H. unfold validateAnalysisData. rewrite H. reflexivity.
Qed.

(** *** What the client sends *)

Section Client.

Variable toText : json → string.
Variable propertyOfNull : string → JsError.
Variable inOperatorOn : json → JsError.

Local Abbreviation clientRun :=
  (JournalApi.analyzeDream toText propertyOfNull inOperatorOn).
Local Abbreviation clientResult :=
  (afterFetch toText propertyOfNull inOperatorOn).

(** X17. The client sends a request exactly when it is given a string of
    20 to 2000 characters, counted as [length] counts them (UTF-16 code
    units) and before trimming; what it sends under [dreamText] is the
    trimmed string, that is the text without the white space around it,
    with the time under [timestamp] and a non-empty user identifier under
    [userId]. Anything else is refused before any request, with "Dream
    text is required and must be a string" for a value that is not a
    string or is empty, "Dream text must be at least 20 characters long"
    or "Dream text cannot exceed 2000 characters". *)
Theorem client_sends dreamText userId now :
  (∀ payload userHeader k,
     clientRun dreamText userId now = Fetches payload userHeader k
     ↔ ∃ text, dreamText = JStr text
               ∧ (20 ≤ jsLength text ≤ 2000)%nat
               ∧ userHeader = (if userId is Some "" then None else userId)
               ∧ payload = requestBody (trim text) userHeader (Some (inject_Z now))
               ∧ k = clientResult)
  ∧ (∀ text, dreamText = JStr text → trimmed text (trim text))
  ∧ ((∀ text, dreamText ≠ JStr text) ∨ dreamText = JStr "" →
     clientRun dreamText userId now
     = Throws (Error "Dream text is required and must be a string"))
  ∧ (∀ text, dreamText = JStr text → text ≠ "" →
     (jsLength text < 20)%nat →
     clientRun dreamText userId now
     = Throws (Error "Dream text must be at least 20 characters long"))
  ∧ (∀ text, dreamText = JStr text → (2000 < jsLength text)%nat →
     clientRun dreamText userId now
     = Throws (Error "Dream text cannot exceed 2000 characters")).
Proof.
  split; [|split; [intros text _; apply trim_spec|split; [|split]]].
  - intros payload userHeader k. unfold JournalApi.analyzeDream.
    destruct dreamText as [| | |text| |];
      try (split; [discriminate | intros (t & H & _); discriminate]).
    destruct (String.eqb_spec text "") as [->|Hne].
    { split; [discriminate|]. intros (t & [= <-] & Hlen & _). cbn in Hlen. lia. }
    destruct (Nat.ltb_spec (jsLength text) 20).
    { split; [discriminate|]. intros (t & [= <-] & Hlen & _). lia. }
    destruct (Nat.ltb_spec 2000 (jsLength text)).
    { split; [discriminate|]. intros (t & [= <-] & Hlen & _). lia. }
    split.
    + intros [= <- <- <-]. exists text. split; [reflexivity|]. split; [lia|].
      destruct userId as [[|c u]|]; cbn; auto.
    + intros (t & [= <-] & _ & -> & -> & ->).
      destruct userId as [[|c u]|]; reflexivity.
  - intros [H| ->]; [|reflexivity].
    destruct dreamText; try reflexivity. exfalso. exact (H s eq_refl).
  - intros text -> Hne Hlen. unfold JournalApi.analyzeDream.
    apply String.eqb_neq in Hne. rewrite Hne.
    apply Nat.ltb_lt in Hlen. rewrite Hlen. reflexivity.
  - intros text -> Hlen. unfold JournalApi.analyzeDream.
    destruct (String.eqb_spec text "") as [->|_]; [cbn in Hlen; lia|].
    destruct (Nat.ltb_spec (jsLength text) 20); [lia|].
    apply Nat.ltb_lt in Hlen. rewrite Hlen. reflexivity.
Qed.

(** *** Client and server together *)

Variable JSON_parse : string → option json.
Variable systemPrompt : string.

Lemma served_payload rid now up statusText text userId timestamp :
  served JSON_parse systemPrompt rid now up statusText
    (requestBody text userId timestamp)
  = if (jsLength text <? 20)%nat
    then delivered statusText (failure 400 validationTooShort rid)
    else if (2000 <? jsLength text)%nat
    then delivered statusText (failure 400 validationTooLong rid)
    else delivered statusText (afterCompletion JSON_parse rid now up).
Proof.
  unfold served, Gateway.analyzeDream, safeParse.
  destruct (requestBody_parsed text userId timestamp) as [rest ->].
  destruct (Nat.ltb_spec (jsLength text) 20);
    destruct (Nat.ltb_spec 2000 (jsLength text)); try lia; reflexivity.
Qed.

Lemma failure_result code error rid statusText :
  (code < 200 ∨ 299 < code)%nat → error ≠ "" →
  makeRequest toText (delivered statusText (failure code error rid))
  = inl (Error error).
Proof.
  intros Hcode Hne. unfold makeRequest, delivered, failure. cbn [status body].
  destruct (Nat.leb_spec 200 code); destruct (Nat.leb_spec code 299);
    try lia; cbn [andb property lookup String.eqb Ascii.eqb Bool.eqb];
    unfold orElse, truthy; apply String.eqb_neq in Hne; rewrite Hne;
    reflexivity.
Qed.

(** X18. The client against the handler of the route, for a text that
    the client lets through and a request that the rate limiter lets
    through. If the trimmed text has fewer than 20 characters
    the server refuses what the client accepted, and the client throws the
    server's "Validation failed: dreamText: Dream text must be at least 20
    characters". Otherwise the client returns the relayed analysis exactly
    when the completion service returned a text that parses to the
    five-key shape, and throws the error text of the server in every other
    case, except that the server's "API quota exceeded" answer is turned
    into "Rate limit exceeded. Please try again in a few minutes.". *)
Theorem client_against_route rid now now' up statusText text userId :
  (20 ≤ jsLength text ≤ 2000)%nat →
  let result :=
    clientResult (served JSON_parse systemPrompt rid now' up statusText
                    (requestBody (trim text) userId (Some (inject_Z now)))) in
  (jsLength (trim text) ≤ jsLength text)%nat
  ∧ ((jsLength (trim text) < 20)%nat →
     result = inl (Error validationTooShort))
  ∧ ((20 ≤ jsLength (trim text))%nat →
     (∀ content v, up = Completed content → JSON_parse content = Some v →
        matchesAnalysis v →
        ∃ e t i sy c,
          result = inr (JObj [("success", JBool true);
                              ("data", JObj (analysisData e t i sy c
                                             ++ [("timestamp", JNum (inject_Z now'))]));
                              ("requestId", JStr rid)]))
     ∧ (∀ content, up = Completed content → JSON_parse content = None →
        result = inl (Error "Failed to parse dream analysis response"))
     ∧ (∀ content v, up = Completed content → JSON_parse content = Some v →
        ¬ matchesAnalysis v →
        result = inl (Error "Invalid dream analysis response format"))
     ∧ (up = Threw (Some "insufficient_quota") →
        result = inl (Error "Rate limit exceeded. Please try again in a few minutes."))
     ∧ (up = Threw (Some "rate_limit_exceeded") →
        result = inl (Error "Rate limit exceeded. Please try again in a moment."))
     ∧ (∀ code, up = Threw code → code ≠ Some "insufficient_quota" →
        code ≠ Some "rate_limit_exceeded" →
        result = inl (Error "Internal server error during dream analysis"))).
Proof.
  intros Hlen. cbn zeta. pose proof (trim_length text) as Htrim.
  split; [exact Htrim|]. rewrite served_payload.
  destruct (Nat.ltb_spec (jsLength (trim text)) 20) as [Hshort|Hok].
  { split; [|intros; lia]. intros _. unfold afterFetch.
    rewrite failure_result by (try lia; discriminate). reflexivity. }
  destruct (Nat.ltb_spec 2000 (jsLength (trim text))); [lia|].
  split; [intros; lia|]. intros _.
  split; [|split; [|split; [|split; [|split]]]].
  - intros content v -> Hp Hm.
    destruct (analysisSchema_accepts v Hm) as (e & t & i & sy & c & Hs & H0 & H1).
    exists e, t, i, sy, c. unfold afterCompletion. rewrite Hp, Hs.
    destruct (response_accepted e t i sy c now' rid H0 H1) as [d ->].
    unfold afterFetch, makeRequest, delivered. cbn [status body].
    cbn [Nat.leb andb]. unfold checkResponse.
    cbn [property lookup String.eqb Ascii.eqb Bool.eqb truthy negb].
    unfold validateData.
    rewrite (LocalProps.relayed_analysis_validates e t i sy c now' H0 H1).
    reflexivity.
  - intros content -> Hp. unfold afterCompletion. rewrite Hp. unfold afterFetch.
    rewrite failure_result by (try lia; discriminate). reflexivity.
  - intros content v -> Hp Hbad. unfold afterCompletion. rewrite Hp.
    destruct (safeParse analysisSchema v) as [d|issues] eqn:E;
      [exfalso; exact (Hbad (analysisSchema_only v d E))|].
    unfold afterFetch.
    rewrite failure_result by (try lia; discriminate). reflexivity.
  - intros ->. unfold afterCompletion.
    rewrite bool_decide_eq_true_2 by reflexivity. unfold afterFetch.
    rewrite failure_result by (try lia; discriminate). reflexivity.
  - intros ->. unfold afterCompletion.
    rewrite bool_decide_eq_false_2 by discriminate.
    rewrite bool_decide_eq_true_2 by reflexivity. unfold afterFetch.
    rewrite failure_result by (try lia; discriminate). reflexivity.
  - intros code -> H1 H2. unfold afterCompletion.
    rewrite !bool_decide_eq_false_2 by assumption. unfold afterFetch.
    rewrite failure_result by (try lia; discriminate). reflexivity.
Qed.

End Client.

Lemma client_against_route_witness :
  let text := fromBytes [194; 160]%nat +:+ "I dreamt of the sea" +:+ fromBytes [194; 160]%nat in
  let stub := λ _ : json, "" in
  let err := λ _ : string, Error "" in
  let err' := λ _ : json, Error "" in
  (20 ≤ jsLength text ≤ 2000)%nat
  ∧ (jsLength (trim text) < 20)%nat
  ∧ JournalApi.analyzeDream stub err err' (JStr text) None 5
    = Fetches (requestBody "I dreamt of the sea" None (Some (inject_Z 5))) None
        (afterFetch stub err err')
  ∧ afterFetch stub err err'
      (served (λ _, None) "" "req_1" 6 (Threw None) "Bad Request"
         (requestBody (trim text) None (Some (inject_Z 5))))
    = inl (Error validationTooShort).
Proof.
  intros text stub err err'.
  assert (Hlen : (20 ≤ jsLength text ≤ 2000)%nat) by count_units.
  assert (Hshort : (jsLength (trim text) < 20)%nat) by count_units.
  split; [exact Hlen|]. split; [exact Hshort|]. split; [vm_compute; reflexivity|].
  exact (proj1 (proj2 (client_against_route stub err err' (λ _, None) ""
                         "req_1" 5 6 (Threw None) "Bad Request" text None Hlen))
           Hshort).
Defined.

Lemma client_sends_witness :
  let text := fromBytes [194; 160]%nat +:+ "I dreamt of the sea."
              +:+ fromBytes [226; 128; 137; 10]%nat in
  let stub := λ _ : json, "" in
  let err := λ _ : string, Error "" in
  let err' := λ _ : json, Error "" in
  (20 ≤ jsLength text ≤ 2000)%nat
  ∧ JournalApi.analyzeDream stub err err' (JStr text) None 5
    = Fetches (requestBody "I dreamt of the sea." None (Some (inject_Z 5))) None
        (afterFetch stub err err').
Proof.
  intros text stub err err'.
  assert (Hlen : (20 ≤ jsLength text ≤ 2000)%nat) by count_units.
  split; [exact Hlen|].
  apply (proj1 (client_sends stub err err' (JStr text) None 5)).
  exists text. split; [reflexivity|]. split; [exact Hlen|].
  split; [reflexivity|]. split; [vm_compute; reflexivity | reflexivity].
Defined.

Lemma client_check_accepts_witness :
  let fields := [("emotions", JArr []); ("interpretation", JStr "Freedom.")] in
  List.find (λ f, negb (bool_decide (is_Some (lookup f fields)))) requiredFields
  = Some "themes"
  ∧ validateAnalysisData fields = Some "Invalid response: missing themes".
Proof.
  intros fields.
  assert (Hf : List.find (λ f, negb (bool_decide (is_Some (lookup f fields))))
                 requiredFields = Some "themes") by (vm_compute; reflexivity).
  split; [exact Hf|].
  exact (proj2 (client_check_accepts fields) "themes" Hf).
Defined.

End ClientProps.

(* ===================================================================== *)
(** ** More about the local analysis, and the analysis button *)
(* ===================================================================== *)

Module LocalMore.
Import Json Text LocalAnalysis TextProps LocalProps JournalApi DreamPopup.

Lemma commonSymbols_lower symbol :
  In symbol commonSymbols → toLowerCase symbol = symbol.
Proof.
  intros H. cbn in H.
  repeat destruct H as [<-|H]; try reflexivity. destruct H.
Qed.

Lemma filter_sublist {A} (f : A → bool) (l : list A) : sublist (List.filter f l) l.
Proof.
  induction l as [|x l IH]; cbn; [constructor|].
  destruct (f x); [apply sublist_skip | apply sublist_cons]; exact IH.
Qed.

Lemma take_all {A} (l : list A) n : (length l ≤ n)%nat → take n l = l.
Proof. intros H. apply take_ge. exact H. Qed.

(** X19. [extractSymbols] returns at most three symbols; each is a word of
    the fixed vocabulary that occurs in the text up to case; they come in
    the order of the vocabulary; and when fewer than three are returned,
    every word of the vocabulary that occurs in the text is among them. *)
Theorem symbols_found text :
  (length (extractSymbols text) ≤ 3)%nat
  ∧ sublist (extractSymbols text) commonSymbols
  ∧ (∀ symbol, In symbol (extractSymbols text) →
       In symbol commonSymbols ∧ occursIgnoringCase symbol text)
  ∧ ((length (extractSymbols text) < 3)%nat →
     ∀ symbol, In symbol commonSymbols → occursIgnoringCase symbol text →
       In symbol (extractSymbols text)).
Proof.
  unfold extractSymbols.
  set (found := List.filter (λ symbol, includes (toLowerCase text) symbol)
                  commonSymbols).
  assert (Hfound : ∀ symbol, In symbol found
                     ↔ In symbol commonSymbols ∧ occursIgnoringCase symbol text).
  { intros symbol. unfold found. rewrite filter_In. split.
    - intros [Hin Hinc]. split; [exact Hin|].
      apply includes_ignoring_case; [apply commonSymbols_lower, Hin | exact Hinc].
    - intros [Hin Hocc]. split; [exact Hin|].
      apply includes_ignoring_case; [apply commonSymbols_lower, Hin | exact Hocc]. }
  split; [rewrite length_take; lia|]. split; [|split].
  - transitivity found; [apply sublist_take | apply filter_sublist].
  - intros symbol Hin. apply Hfound.
    apply list_elem_of_In. apply list_elem_of_In in Hin.
    exact (sublist_subseteq _ _ (sublist_take found 3) symbol Hin).
  - intros Hlen symbol Hin Hocc.
    rewrite length_take in Hlen.
    rewrite take_all by lia. apply Hfound. auto.
Qed.

Lemma symbols_found_witness :
  let text := "A DOOR in my House opened" in
  (length (extractSymbols text) < 3)%nat
  ∧ In "door" commonSymbols ∧ occursIgnoringCase "door" text
  ∧ extractSymbols text = ["house"; "door"]
  ∧ In "door" (extractSymbols text).
Proof.
  intros text.
  assert (Hlen : (length (extractSymbols text) < 3)%nat)
    by (apply Nat.ltb_lt; vm_compute; reflexivity).
  assert (Hin : In "door" commonSymbols) by (cbn; tauto).
  assert (Hocc : occursIgnoringCase "door" text).
  { exists "A ", "DOOR", " in my House opened". split; [reflexivity | same_text]. }
  split; [exact Hlen|]. split; [exact Hin|]. split; [exact Hocc|].
  split; [vm_compute; reflexivity|].
  exact (proj2 (proj2 (proj2 (symbols_found text))) Hlen "door" Hin Hocc).
Defined.

Lemma detect_names table text : sublist (detect table text) (map fst table).
Proof.
  rewrite detect_filter.
  induction table as [|entry table IH]; cbn; [constructor|].
  destruct (existsb _ (snd entry)); cbn;
    [apply sublist_skip | apply sublist_cons]; exact IH.
Qed.

Lemma selection_shown table fallback text :
  NoDup (map fst table) →
  let found := detect table text in
  let shown := if (0 <? length found)%nat then found else [fallback] in
  (shown = [fallback] ∨ (shown ≠ [] ∧ sublist shown (map fst table)))
  ∧ NoDup shown.
Proof.
  intros Hnd found shown. pose proof (detect_names table text) as Hsub.
  fold found in Hsub. subst shown.
  destruct found as [|c found']; cbn.
  - split; [left; reflexivity | apply NoDup_singleton].
  - split; [right; split; [discriminate | exact Hsub]|].
    eapply sublist_NoDup; eassumption.
Qed.

(** X20. The emotions of the local analysis are either [["neutral"]] or a
    non-empty selection of [fear], [joy], [sadness], [anger], [anxiety] in
    this order and without repetition, and its themes are either
    [["general"]] or such a selection of [flying], [falling], [chase],
    [water], [home]. *)
Theorem categories_in_order now text :
  ∃ emotions themes,
    stringsAt "emotions" (analyzeDreamLocally now text) = Some emotions
    ∧ stringsAt "themes" (analyzeDreamLocally now text) = Some themes
    ∧ (emotions = ["neutral"]
       ∨ (emotions ≠ []
          ∧ sublist emotions ["fear"; "joy"; "sadness"; "anger"; "anxiety"]))
    ∧ (themes = ["general"]
       ∨ (themes ≠ []
          ∧ sublist themes ["flying"; "falling"; "chase"; "water"; "home"]))
    ∧ NoDup emotions ∧ NoDup themes.
Proof.
  assert (Hne : NoDup (map fst emotionWords))
    by (apply (bool_decide_unpack _); vm_compute; exact I).
  assert (Hnt : NoDup (map fst themeWords))
    by (apply (bool_decide_unpack _); vm_compute; exact I).
  destruct (selection_shown emotionWords "neutral" text Hne) as [He1 He2].
  destruct (selection_shown themeWords "general" text Hnt) as [Ht1 Ht2].
  eexists _, _. unfold stringsAt, analyzeDreamLocally.
  cbn [lookup String.eqb Ascii.eqb Bool.eqb]. rewrite !strings_of_array.
  split; [reflexivity|]. split; [reflexivity|].
  split; [exact He1|]. split; [exact Ht1|]. split; [exact He2 | exact Ht2].
Qed.

End LocalMore.

(* ===================================================================== *)
(** ** Properties of the dream analysis button *)
(* ===================================================================== *)

Module DreamPopupProps.
Import Json Text Zod Gateway LocalAnalysis TextProps JournalApi DreamPopup.

Lemma length_not_empty s : (20 ≤ jsLength s)%nat → String.eqb s "" = false.
Proof. destruct s; cbn; [lia | reflexivity]. Qed.

Section Display.

Variable toText : json → string.
Variable positive : json → bool.

Lemma joinItems_strings l : joinItems toText (map JStr l) = join ", " l.
Proof. unfold joinItems. rewrite map_map. rewrite map_id. reflexivity. Qed.

(** What [displayDreamAnalysis] writes for the local analysis. *)
Lemma display_local now dreamText :
  displayDreamAnalysis toText positive (analyzeDreamLocally now dreamText)
  = Some (localSections dreamText).
Proof.
  unfold displayDreamAnalysis, analyzeDreamLocally, localSections.
  cbn [property lookup String.eqb Ascii.eqb Bool.eqb].
  rewrite !joinItems_strings.
  assert (Hsel : ∀ (l : list string) d,
             (if (0 <? length l)%nat then l else d) = (if l is [] then d else l))
    by (intros [|x l] d; reflexivity).
  rewrite !Hsel.
  destruct (extractSymbols dreamText) as [|x rest] eqn:E; cbn [map].
  - reflexivity.
  - change (JStr x :: map JStr rest) with (map JStr (x :: rest)).
    rewrite joinItems_strings. reflexivity.
Qed.

(** The object [analyzeDreamWithAPI] resolves with has no [emotions], so
    [displayDreamAnalysis] throws on it. *)
Lemma display_wrapper out analysis :
  analyzeDreamWithAPI out = Some analysis →
  displayDreamAnalysis toText positive analysis = None.
Proof.
  unfold analyzeDreamWithAPI. intros H. repeat case_match; simplify_eq; reflexivity.
Qed.

Lemma click_long entry out now :
  (20 ≤ jsLength (trim entry))%nat →
  analyzeClick toText positive entry out now
  = match analyzeDreamWithAPI out with
    | Some _ => ErrorShown "Failed to analyze dream. Please try again."
    | None => AnalysisShown (localSections (trim entry))
    end.
Proof.
  intros Hlen. unfold analyzeClick. cbn zeta.
  rewrite (length_not_empty _ Hlen).
  destruct (Nat.ltb_spec (jsLength (trim entry)) 20); [lia|].
  destruct (analyzeDreamWithAPI out) as [analysis|] eqn:Eapi.
  - rewrite (display_wrapper out analysis Eapi). reflexivity.
  - rewrite display_local. reflexivity.
Qed.

(** X21. The analyze button works on the entry without the white space
    around it, and counts its characters as [length] does (UTF-16 code
    units). It presents an analysis exactly when this text has at least 20
    characters and the request to the service failed, and what it
    presents then is the local analysis of this text: when the request
    succeeds the handler ends with "Failed to analyze dream. Please try
    again.", since the object it gets from [analyzeDreamWithAPI] keeps the
    analysis under [data]. An entry of white space only is answered
    "Please enter a dream to analyze.", a shorter text with the request
    for at least 20 characters. *)
Theorem shown_analysis_is_local entry out now :
  trimmed entry (trim entry)
  ∧ (∀ sections,
       analyzeClick toText positive entry out now = AnalysisShown sections
       ↔ (20 ≤ jsLength (trim entry))%nat
         ∧ analyzeDreamWithAPI out = None
         ∧ sections = localSections (trim entry))
  ∧ ((20 ≤ jsLength (trim entry))%nat →
     analyzeDreamWithAPI out ≠ None →
     analyzeClick toText positive entry out now
     = ErrorShown "Failed to analyze dream. Please try again.")
  ∧ (trim entry = "" →
     analyzeClick toText positive entry out now
     = ErrorShown "Please enter a dream to analyze.")
  ∧ (trim entry ≠ "" → (jsLength (trim entry) < 20)%nat →
     analyzeClick toText positive entry out now
     = ErrorShown "Please provide a more detailed dream description (at least 20 characters).").
Proof.
  split; [apply trim_spec|].
  unfold analyzeClick. cbn zeta.
  destruct (String.eqb_spec (trim entry) "") as [E|Hne].
  { rewrite E. cbn. split; [|split; [|split]]; try (intros; lia); try tauto.
    intros sections. split; [discriminate | intros [H _]; lia]. }
  destruct (Nat.ltb_spec (jsLength (trim entry)) 20) as [Hshort|Hlong].
  { split; [|split; [|split]]; try (intros; lia); try tauto.
    intros sections. split; [discriminate | intros [H _]; lia]. }
  destruct (analyzeDreamWithAPI out) as [analysis|] eqn:Eapi.
  - rewrite (display_wrapper out analysis Eapi).
    split; [|split; [|split]]; try (intros; lia); try tauto.
    intros sections. split; [discriminate | intros (_ & H & _); discriminate].
  - rewrite display_local.
    split; [|split; [|split]]; try (intros; lia); try tauto.
    intros sections. split.
    + intros [= <-]. auto.
    + intros (_ & _ & ->). reflexivity.
Qed.

(** *** The button against the route of the server *)

Variable JSON_parse : string → option json.
Variable systemPrompt : string.

Lemma api_failure code error rid statusText :
  (code < 200 ∨ 299 < code)%nat →
  analyzeDreamWithAPI (delivered statusText (failure code error rid)) = None.
Proof.
  intros Hcode. unfold analyzeDreamWithAPI, delivered, failure. cbn [status body].
  destruct (Nat.leb_spec 200 code); destruct (Nat.leb_spec code 299);
    try lia; reflexivity.
Qed.

(** X22. The analyze button against the handler of the route, for a
    request that the rate limiter lets through and an entry whose
    trimmed text has at least 20 characters. When the route relays
    an analysis (the text has at most 2000 characters and the completion
    service returned a text that parses to the five-key shape) the button
    shows "Failed to analyze dream. Please try again."; in every other
    case, among them a text of more than 2000 characters, which the button
    sends and the route refuses, it shows the local analysis. The served
    analysis is never shown. *)
Theorem button_against_route entry rid sent now now' up statusText :
  (20 ≤ jsLength (trim entry))%nat →
  let relays :=
    (jsLength (trim entry) ≤ 2000)%nat
    ∧ ∃ content v, up = Completed content ∧ JSON_parse content = Some v
                   ∧ matchesAnalysis v in
  let shown :=
    analyzeClick toText positive entry
      (served JSON_parse systemPrompt rid now' up statusText
         (apiRequestBody (trim entry) sent)) now in
  (relays → shown = ErrorShown "Failed to analyze dream. Please try again.")
  ∧ (¬ relays → shown = AnalysisShown (localSections (trim entry))).
Proof.
  intros Hlen relays shown.
  pose proof (click_long entry
                (served JSON_parse systemPrompt rid now' up statusText
                   (apiRequestBody (trim entry) sent)) now Hlen) as Hclick.
  fold shown in Hclick.
  assert (Hlocal : analyzeDreamWithAPI
                     (served JSON_parse systemPrompt rid now' up statusText
                        (apiRequestBody (trim entry) sent)) = None →
                   shown = AnalysisShown (localSections (trim entry))).
  { intros H. rewrite Hclick, H. reflexivity. }
  assert (Hfail : analyzeDreamWithAPI
                    (served JSON_parse systemPrompt rid now' up statusText
                       (apiRequestBody (trim entry) sent)) ≠ None →
                  shown = ErrorShown "Failed to analyze dream. Please try again.").
  { intros H. rewrite Hclick.
    destruct (analyzeDreamWithAPI _); [reflexivity | contradiction]. }
  clear Hclick.
  unfold apiRequestBody in *.
  rewrite ClientProps.served_payload, trim_idem in *.
  destruct (Nat.ltb_spec (jsLength (trim entry)) 20); [lia|].
  destruct (Nat.ltb_spec 2000 (jsLength (trim entry))) as [Hbig|Hfit].
  { split; [intros [H' _]; lia|]. intros _. apply Hlocal, api_failure. lia. }
  unfold afterCompletion in *.
  destruct up as [content|code].
  - destruct (JSON_parse content) as [v|] eqn:Hp.
    + destruct (safeParse analysisSchema v) as [d|issues] eqn:Hs.
      * pose proof (GatewayProps.analysisSchema_only v d Hs) as Hm.
        destruct (GatewayProps.analysisSchema_accepts v Hm)
          as (e & t & i & sy & c & Hs' & H0 & H1).
        rewrite Hs' in Hs. injection Hs as <-.
        destruct (GatewayProps.response_accepted e t i sy c now' rid H0 H1)
          as [d' Hd'].
        rewrite Hd' in *.
        split; [|intros Hn; exfalso; apply Hn; split; [exact Hfit | eauto]].
        intros _. apply Hfail. discriminate.
      * split.
        { intros (_ & content' & v' & [= <-] & Hp' & Hm).
          rewrite Hp in Hp'. injection Hp' as <-.
          destruct (GatewayProps.analysisSchema_accepts v Hm)
            as (e & t & i & sy & c & Hs' & _).
          rewrite Hs' in Hs. discriminate. }
        intros _. apply Hlocal, api_failure. lia.
    + split.
      { intros (_ & content' & v' & [= <-] & Hp' & _).
        rewrite Hp in Hp'. discriminate. }
      intros _. apply Hlocal, api_failure. lia.
  - split; [intros (_ & content' & v' & Hup & _); discriminate|].
    intros _. apply Hlocal.
    destruct (bool_decide (code = Some "insufficient_quota"));
      [|destruct (bool_decide (code = Some "rate_limit_exceeded"))];
      apply api_failure; lia.
Qed.

End Display.

Lemma shown_analysis_is_local_witness :
  let entry := fromBytes [194; 160]%nat +:+ "I dreamt of the sea"
               +:+ fromBytes [194; 160]%nat in
  trim entry = "I dreamt of the sea"
  ∧ (jsLength (trim entry) < 20)%nat
  ∧ analyzeClick (λ _, "") (λ _, false) entry (Rejected (Error "Failed to fetch")) 7
    = ErrorShown "Please provide a more detailed dream description (at least 20 characters).".
Proof.
  intros entry.
  assert (Htrim : trim entry = "I dreamt of the sea") by (vm_compute; reflexivity).
  assert (Hlen : (jsLength (trim entry) < 20)%nat) by count_units.
  split; [exact Htrim|]. split; [exact Hlen|].
  apply (proj2 (proj2 (proj2 (proj2
           (shown_analysis_is_local (λ _, "") (λ _, false) entry
              (Rejected (Error "Failed to fetch")) 7))))).
  - rewrite Htrim. discriminate.
  - exact Hlen.
Defined.

Lemma button_against_route_witness :
  let entry := fromBytes [226; 128; 137]%nat
               +:+ "I was flying over the water near my house  " in
  (20 ≤ jsLength (trim entry))%nat
  ∧ apiRequestBody (trim entry) 8
    = requestBody "I was flying over the water near my house" None
        (Some (inject_Z 8))
  ∧ analyzeClick (λ _, "") (λ _, false) entry
      (served (λ _, None) "" "req_1" 9 (Threw None) "Internal Server Error"
         (apiRequestBody (trim entry) 8)) 7
    = AnalysisShown (localSections (trim entry)).
Proof.
  intros entry.
  assert (Hlen : (20 ≤ jsLength (trim entry))%nat) by count_units.
  split; [exact Hlen|]. split; [vm_compute; reflexivity|].
  apply (proj2 (button_against_route (λ _, "") (λ _, false) (λ _, None) ""
                  entry "req_1" 8 7 9 (Threw None) "Internal Server Error" Hlen)).
  intros (_ & content & v & Hup & _). discriminate.
Defined.

(** *** The interpretation of the local analysis *)

Lemma named_sentences names found :
  Forall (λ item, is_Some (textFor item interpretations)) names →
  found ⊆ names →
  ∃ sentences,
    omap (λ item, textFor item interpretations) found = sentences
    ∧ sentencesOf found sentences.
Proof.
  intros Hall Hsub. induction found as [|item found IH].
  - exists []. split; [reflexivity | constructor].
  - destruct IH as (sentences & Ho & Hs); [set_solver|].
    assert (Hin : item ∈ names) by set_solver.
    rewrite Forall_forall in Hall. destruct (Hall item Hin) as [s Es].
    exists (s :: sentences). split.
    + cbn [omap list_omap]. rewrite Es, Ho. reflexivity.
    + constructor; assumption.
Qed.

(** X23. The interpretation of the local analysis opens with "Dream
    analysis suggests: " and goes on with one sentence for every detected
    emotion, then one for every detected theme, separated by spaces; none
    of the detected categories is without a sentence. When nothing is
    detected it goes on with the general sentence. *)
Theorem interpretation_sentences text :
  let found := (detect emotionWords text ++ detect themeWords text)%list in
  ∃ sentences,
    sentencesOf found sentences
    ∧ length sentences = length found
    ∧ generateInterpretation (detect emotionWords text) (detect themeWords text)
      = "Dream analysis suggests: "
        +:+ (if found is []
             then "This dream may reflect your subconscious processing of daily experiences."
             else join " " sentences).
Proof.
  intros found.
  destruct (named_sentences (map fst emotionWords ++ map fst themeWords) found)
    as (sentences & Ho & Hs).
  - cbn. repeat (constructor; [eexists; reflexivity|]). constructor.
  - subst found. intros x Hx. apply elem_of_app in Hx. apply elem_of_app.
    destruct Hx as [Hx|Hx]; [left|right];
      exact (sublist_subseteq _ _ (LocalMore.detect_names _ text) x Hx).
  - exists sentences. split; [exact Hs|].
    pose proof (Forall2_length _ _ _ Hs) as Hl. split; [lia|].
    unfold generateInterpretation. fold found. cbn zeta. rewrite Ho.
    destruct found as [|x xs]; destruct sentences as [|y ys];
      cbn in Hl; try lia; reflexivity.
Qed.

End DreamPopupProps.
